(** * Distributed grid game: the service layer, its helpers and its store

    A shallow embedding of [utils.py], [schema.py], [models.py],
    [service.py] and the [move] endpoint of [router.py].

    - Python integers are [Z], [Optional[int]] is [option Z], Python lists
      are lists, indexed as Python indexes them (negative indices count
      from the end, others raise [IndexError]).
    - The four tables are lists of rows in insertion order.  A primary key
      is the autoincrement value, one more than the largest in use.  The
      unique constraints of [players] and [moves] are checked on insert and
      raise [IntegrityError]; foreign keys are not checked by the store
      (the service checks the rows it refers to before it writes).
    - A service method is a computation in a state-and-exception monad over
      the database; [with self._sf() as s, s.begin()] is [transaction],
      which keeps the writes when the body returns and discards them when
      it raises.  A committed transaction is one step of a history; the
      statements of two transactions are not interleaved, except in
      [move_interleaved], where the reads and guards of [move] see an older
      state than its conditional update.
    - The dictionaries and the set built by [leaderboard] are [gmap] and
      [gset]; [float] values (win ratio, efficiency, SQL [avg]) are exact
      rationals [Qc].
    - Timestamps are integers; [datetime.now] is an argument of the method
      that reads the clock. *)

From Stdlib Require Import ZArith String Lia QArith Qcanon.
From stdpp Require Import base option numbers strings sorting gmap list.

Local Open Scope Z_scope.

(** ** Exceptions *)

Inductive exn : Type :=
| HTTPException (status_code : Z) (detail : string)
| RequestValidationError
| IndexError
| ZeroDivisionError
| IntegrityError (constraint : string).

Definition res (A : Type) : Type := (exn + A)%type.

#[global] Instance res_ret : MRet res := λ A x, inr x.
#[global] Instance res_bind : MBind res :=
  λ A B f m, match m with inl e => inl e | inr x => f x end.

(** ** Python list indexing

    [l[i]] accepts [0 <= i < len(l)] and, counting from the end,
    [-len(l) <= i < 0]; any other index raises [IndexError]. *)

Definition py_index (len : nat) (i : Z) : option nat :=
  if bool_decide (0 ≤ i < Z.of_nat len) then Some (Z.to_nat i)
  else if bool_decide (- Z.of_nat len ≤ i < 0) then Some (Z.to_nat (i + Z.of_nat len))
  else None.

Definition getitem {A} (l : list A) (i : Z) : res A :=
  match py_index (length l) i ≫= (l !!.) with
  | Some x => inr x
  | None => inl IndexError
  end.

Definition setitem {A} (l : list A) (i : Z) (x : A) : res (list A) :=
  match py_index (length l) i with
  | Some n => inr (<[n := x]> l)
  | None => inl IndexError
  end.

(** ** utils.py *)

Abbreviation board := (list (list (option Z))).

Definition VICTORY_CONDITIONS : list (list (Z * Z)) :=
  [ [(0, 0); (0, 1); (0, 2)];
    [(1, 0); (1, 1); (1, 2)];
    [(2, 0); (2, 1); (2, 2)];
    [(0, 0); (1, 0); (2, 0)];
    [(0, 1); (1, 1); (2, 1)];
    [(0, 2); (1, 2); (2, 2)];
    [(0, 0); (1, 1); (2, 2)];
    [(0, 2); (1, 1); (2, 0)] ].

(** [board[row][col]] *)
Definition board_get (b : board) (rc : Z * Z) : res (option Z) :=
  r ← getitem b rc.1; getitem r rc.2.

(** [board[row][col] = v] *)
Definition board_set (b : board) (row col : Z) (v : option Z) : res board :=
  r ← getitem b row;
  r' ← setitem r col v;
  setitem b row r'.

(** [ids = [board[row][col] for row, col in condition]] *)
Fixpoint condition_ids (b : board) (condition : list (Z * Z)) : res (list (option Z)) :=
  match condition with
  | [] => mret []
  | rc :: rest =>
      x ← board_get b rc;
      xs ← condition_ids b rest;
      mret (x :: xs)
  end.

(** [ids.count(x)] *)
Definition count {A} `{EqDecision A} (ids : list A) (x : A) : Z :=
  Z.of_nat (length (filter (λ y, y = x) ids)).

Fixpoint find_winner_loop (conditions : list (list (Z * Z))) (b : board)
  : res (option Z) :=
  match conditions with
  | [] => mret None
  | condition :: rest =>
      ids ← condition_ids b condition;
      ids0 ← getitem ids 0;
      match ids0 with
      | Some u =>
          if bool_decide (count ids ids0 = 3) then mret (Some u)
          else find_winner_loop rest b
      | None => find_winner_loop rest b
      end
  end.

Definition find_winner (b : board) : res (option Z) :=
  find_winner_loop VICTORY_CONDITIONS b.

(** A 3x3 grid: three rows of three cells. *)
Definition grid3x3 (b : board) : Prop :=
  length b = 3%nat ∧ Forall (λ r, length r = 3%nat) b.

(** All the cells of a triple hold the non-empty user id [u]. *)
Definition filled_by (b : board) (condition : list (Z * Z)) (u : Z) : Prop :=
  Forall (λ rc, board_get b rc = inr (Some u)) condition.


(** The cell at natural-number coordinates. *)
Definition cell (b : board) (x y : nat) : option (option Z) :=
  b !! x ≫= (λ r, r !! y).


(** The cell holds a user id. *)
Definition filled (b : board) (x y : nat) : Prop := ∃ u, cell b x y = Some (Some u).


(** The coordinates of a cell of the 3x3 board. *)
Definition in_grid (rc : Z * Z) : Prop := 0 ≤ rc.1 < 3 ∧ 0 ≤ rc.2 < 3.
(** [construct_board]: the loop over the moves, in the order given. *)
Definition empty_board : board := replicate 3 (replicate 3 None).

Fixpoint construct_board_loop (cells : list (Z * Z * Z)) (b : board) : res board :=
  match cells with
  | [] => mret b
  | (row, col, user_id) :: rest =>
      b' ← board_set b row col (Some user_id);
      construct_board_loop rest b'
  end.

(** ** schema.py *)

Inductive GameStatus : Type := waiting | in_progress | finished.

#[global] Instance GameStatus_eq_dec : EqDecision GameStatus.
Proof. solve_decision. Defined.

Module User.
Record t : Type := mk { id : Z; name : string }.
End User.

Module Game.
Record t : Type := mk {
  id : Z;
  status : GameStatus;
  created_at : Z;
  started_at : Z;
  completed_at : Z;
  winner_id : option Z;
  turn_no : Z }.
End Game.

Module Player.
Record t : Type := mk { id : Z; game_id : Z; user_id : Z; player_order : Z }.
End Player.

Module Move.
Record t : Type := mk {
  id : Z;
  game_id : Z;
  user_id : Z;
  row : Z;
  col : Z;
  move_no : Z;
  performed_at : Z }.
End Move.

(** The four tables, each in insertion order. *)
Record DB : Type := mkDB {
  users : list User.t;
  games : list Game.t;
  players : list Player.t;
  moves : list Move.t }.

Definition empty_db : DB := mkDB [] [] [] [].

(** [construct_board(moves)] *)
Definition construct_board (ms : list Move.t) : res board :=
  construct_board_loop ((λ m, (Move.row m, Move.col m, Move.user_id m)) <$> ms) empty_board.

(** ** models.py *)

(** [CreateUserRequest]: [name: str = Field(min_length=1, max_length=64)] *)
Definition CreateUserRequest_valid (name : string) : bool :=
  bool_decide (1 ≤ String.length name ∧ String.length name ≤ 64)%nat.

Record MoveRequest : Type := mkMoveRequest {
  req_user_id : Z;
  req_row : Z;
  req_col : Z }.

(** [row: int = Field(ge=0, le=2)], [col: int = Field(ge=0, le=2)] *)
Definition MoveRequest_valid (r : MoveRequest) : bool :=
  bool_decide (0 ≤ req_row r ∧ req_row r ≤ 2) && bool_decide (0 ≤ req_col r ∧ req_col r ≤ 2).

Record ViewGame : Type := mkViewGame {
  view_id : Z;
  view_status : GameStatus;
  view_board : board;
  view_next_player_id : option Z;
  view_players : list Z;
  view_winner_id : option Z }.

Record LeaderBoard : Type := mkLeaderBoard {
  lb_user_id : Z;
  lb_value : Qc;
  lb_wins : Z;
  lb_games : Z }.

Record UserStats : Type := mkUserStats {
  stats_user_id : Z;
  stats_games : Z;
  stats_wins : Z;
  stats_loses : Z;
  stats_draws : Z;
  stats_win_ratio : Qc;
  stats_efficiency : option Qc }.

(** ** The session: a state-and-exception monad over the database *)

Definition M (A : Type) : Type := DB → res A * DB.

#[global] Instance M_ret : MRet M := λ A x db, (inr x, db).
#[global] Instance M_bind : MBind M :=
  λ A B f m db,
    match m db with
    | (inl e, db') => (inl e, db')
    | (inr x, db') => f x db'
    end.

Definition raise {A} (e : exn) : M A := λ db, (inl e, db).
Definition query {A} (f : DB → A) : M A := λ db, (inr (f db), db).
Definition lift {A} (r : res A) : M A := λ db, (r, db).

(** [with self._sf() as s, s.begin(): body] commits when the body returns
    and rolls back when it raises. *)
Definition transaction {A} (body : M A) (db : DB) : res A * DB :=
  match body db with
  | (inr x, db') => (inr x, db')
  | (inl e, _) => (inl e, db)
  end.

(** Autoincrement primary key: one more than the largest key in use. *)
Definition fresh_id (ids : list Z) : Z := 1 + foldr Z.max 0 ids.

(** [s.get(Model, pk)] *)
Definition s_get {A} (pk : A → Z) (rows : list A) (key : Z) : option A :=
  List.find (λ r, bool_decide (pk r = key)) rows.

(** The relationship [game.players]. *)
Definition game_players (db : DB) (game_id : Z) : list Player.t :=
  filter (λ p, Player.game_id p = game_id) (players db).

(** [select(Move).where(Move.game_id == game_id)] *)
Definition game_moves (db : DB) (game_id : Z) : list Move.t :=
  filter (λ m, Move.game_id m = game_id) (moves db).

(** [.order_by(Move.move_no)] *)
Definition move_no_le (a b : Move.t) : Prop := Move.move_no a ≤ Move.move_no b.

#[global] Instance move_no_le_dec : RelDecision move_no_le.
Proof. intros a b. unfold move_no_le. apply _. Defined.

Definition order_by_move_no (ms : list Move.t) : list Move.t :=
  merge_sort move_no_le ms.

(** [UPDATE games SET ... WHERE ...], returning the row count. *)
Definition update_games (where_ : Game.t → bool) (values : Game.t → Game.t) : M Z :=
  λ db,
    (inr (Z.of_nat (length (filter (λ g, where_ g = true) (games db)))),
     mkDB (users db)
          ((λ g, if where_ g then values g else g) <$> games db)
          (players db) (moves db)).

(** A Python dict built from key-value pairs: a later pair overrides. *)
Definition dict_of {V} (kvs : list (Z * V)) : gmap Z V :=
  foldl (λ d kv, <[kv.1 := kv.2]> d) ∅ kvs.

Definition set_turn_no (n : Z) (g : Game.t) : Game.t :=
  Game.mk (Game.id g) (Game.status g) (Game.created_at g) (Game.started_at g)
          (Game.completed_at g) (Game.winner_id g) n.

Definition set_started (now : Z) (g : Game.t) : Game.t :=
  Game.mk (Game.id g) in_progress (Game.created_at g) now
          (Game.completed_at g) (Game.winner_id g) (Game.turn_no g).

Definition set_finished (winner : option Z) (now : Z) (g : Game.t) : Game.t :=
  Game.mk (Game.id g) finished (Game.created_at g) (Game.started_at g)
          now winner (Game.turn_no g).

(** *** utils.py, the helpers that read a game and its players *)

Definition order_dict (ps : list Player.t) : gmap Z Z :=
  dict_of ((λ p, (Player.player_order p, Player.user_id p)) <$> ps).

Definition next_player (game : Game.t) (ps : list Player.t) : option Z :=
  if decide (Game.status game ≠ in_progress) then None
  else order_dict ps !! (Game.turn_no game `mod` 2).

Definition players_in_order (ps : list Player.t) : list (option Z) :=
  [order_dict ps !! 0; order_dict ps !! 1].

(** ** service.py *)

Section Service.

(** The column defaults [default=datetime.now(timezone.utc)] of schema.py
    are evaluated once, when the module is imported. *)
Variable import_time : Z.

(** [INSERT INTO users] *)
Definition insert_user (name : string) : M Z :=
  λ db,
    let i := fresh_id (User.id <$> users db) in
    (inr i, mkDB (users db ++ [User.mk i name]) (games db) (players db) (moves db)).

(** [INSERT INTO games], with the column defaults. *)
Definition insert_game (status : GameStatus) : M Z :=
  λ db,
    let i := fresh_id (Game.id <$> games db) in
    (inr i,
     mkDB (users db)
          (games db ++ [Game.mk i status import_time import_time import_time None 0])
          (players db) (moves db)).

(** [INSERT INTO players], under [unique_game_player_slot] and
    [unique_game_user]. *)
Definition insert_player (game_id user_id player_order : Z) : M unit :=
  λ db,
    if bool_decide (Exists (λ p, Player.game_id p = game_id
                                 ∧ Player.player_order p = player_order) (players db))
    then (inl (IntegrityError "unique_game_player_slot"), db)
    else if bool_decide (Exists (λ p, Player.game_id p = game_id
                                      ∧ Player.user_id p = user_id) (players db))
    then (inl (IntegrityError "unique_game_user"), db)
    else
      let i := fresh_id (Player.id <$> players db) in
      (inr (),
       mkDB (users db) (games db)
            (players db ++ [Player.mk i game_id user_id player_order]) (moves db)).

(** [INSERT INTO moves], under [unique_cell] and [unique_move_number];
    [user_id] is a non-null column. *)
Definition insert_move (game_id : Z) (user_id : option Z) (move_no row col : Z) : M unit :=
  λ db,
    match user_id with
    | None => (inl (IntegrityError "moves.user_id"), db)
    | Some uid =>
        if bool_decide (Exists (λ m, Move.game_id m = game_id ∧ Move.row m = row
                                     ∧ Move.col m = col) (moves db))
        then (inl (IntegrityError "unique_cell"), db)
        else if bool_decide (Exists (λ m, Move.game_id m = game_id
                                          ∧ Move.move_no m = move_no) (moves db))
        then (inl (IntegrityError "unique_move_number"), db)
        else
          let i := fresh_id (Move.id <$> moves db) in
          (inr (),
           mkDB (users db) (games db) (players db)
                (moves db ++ [Move.mk i game_id uid row col move_no import_time]))
    end.

Definition create_user (name : string) : DB → res Z * DB :=
  transaction (insert_user name).

Definition create_game (creator_user_id : Z) : DB → res Z * DB :=
  transaction (
    u ← query (λ db, s_get User.id (users db) creator_user_id);
    match u with
    | None => raise (HTTPException 404 "User not found")
    | Some _ =>
        game_id ← insert_game waiting;
        _ ← insert_player game_id creator_user_id 0;
        mret game_id
    end).

Definition get_game_view (game_id : Z) : M ViewGame :=
  g ← query (λ db, s_get Game.id (games db) game_id);
  match g with
  | None => raise (HTTPException 404 "Game not Found")
  | Some game =>
      ms ← query (λ db, order_by_move_no (game_moves db (Game.id game)));
      b ← lift (construct_board ms);
      ps ← query (λ db, game_players db (Game.id game));
      mret (mkViewGame (Game.id game) (Game.status game) b
                       (next_player game ps)
                       (omap (λ p, p) (players_in_order ps))
                       (Game.winner_id game))
  end.

Definition get_game (game_id : Z) (db : DB) : res ViewGame :=
  (get_game_view game_id db).1.

Definition join_game (game_id user_id now : Z) : DB → res () * DB :=
  transaction (
    g ← query (λ db, s_get Game.id (games db) game_id);
    match g with
    | None => raise (HTTPException 404 "Game not found")
    | Some game =>
        if decide (Game.status game ≠ waiting)
        then raise (HTTPException 400 "Cannot join: Game has started")
        else
          u ← query (λ db, s_get User.id (users db) user_id);
          match u with
          | None => raise (HTTPException 404 "User not found")
          | Some _ =>
              ps ← query (λ db, game_players db (Game.id game));
              let existing_players : gset Z := list_to_set (Player.id <$> ps) in
              if decide (user_id ∈ existing_players)
              then raise (HTTPException 400 "User already in game")
              else if decide (2 ≤ Z.of_nat (length ps))
              then raise (HTTPException 400 "A game can only have up to 2 players")
              else
                let order :=
                  if bool_decide (Exists (λ p, Player.player_order p = 0) ps)
                  then 1 else 0 in
                _ ← insert_player (Game.id game) user_id order;
                (* [game.players] was loaded before the insert and still
                   holds the seats found then *)
                if decide (Z.of_nat (length ps) + 1 = 2)
                then
                  _ ← update_games (λ g, bool_decide (Game.id g = Game.id game))
                                   (set_started now);
                  mret ()
                else mret ()
          end
    end).

(** [move], lines 126-140: the reads and the guards; the result is
    [expected_turn]. *)
Definition move_guards (game_id : Z) (user_id : option Z) : M Z :=
  g ← query (λ db, s_get Game.id (games db) game_id);
  match g with
  | None => raise (HTTPException 404 "Game not found")
  | Some game =>
      if decide (Game.status game ≠ in_progress)
      then raise (HTTPException 400 "Game not in progress")
      else
        ps ← query (λ db, game_players db (Game.id game));
        if bool_decide (Exists (λ p, Some (Player.user_id p) = user_id) ps)
        then
          let expected_turn := Game.turn_no game in
          let order := expected_turn `mod` 2 in
          let order_to_user := order_dict ps in
          if decide (order_to_user !! order ≠ user_id)
          then raise (HTTPException 400 "Not your turn")
          else mret expected_turn
        else raise (HTTPException 400 "User not in this game")
  end.

(** The conditional update of lines 143-149. *)
Definition claim_turn (game_id expected_turn : Z) : M Z :=
  update_games
    (λ g, bool_decide (Game.id g = game_id) && bool_decide (Game.turn_no g = expected_turn))
    (λ g, set_turn_no (Game.turn_no g + 1) g).

(** The update of lines 163-167, issued when the cell is occupied. *)
Definition revert_turn (game_id expected_turn : Z) : M Z :=
  update_games
    (λ g, bool_decide (Game.id g = game_id) && bool_decide (Game.turn_no g = expected_turn))
    (set_turn_no expected_turn).

(** [move], lines 143-200: the claim of the turn and what follows it. *)
Definition move_apply (game_id : Z) (user_id : option Z) (row col now : Z)
    (expected_turn : Z) : M ViewGame :=
  rowcount ← claim_turn game_id expected_turn;
  if decide (rowcount ≠ 1)
  then raise (HTTPException 400 "Concurrent moves, try again")
  else
    let move_no := expected_turn + 1 in
    cell_occupied ← query (λ db,
      head (filter (λ m, Move.row m = row ∧ Move.col m = col) (game_moves db game_id)));
    match cell_occupied with
    | Some _ =>
        _ ← revert_turn game_id expected_turn;
        raise (HTTPException 400 "Cell already occupied")
    | None =>
        _ ← insert_move game_id user_id move_no row col;
        all_moves ← query (λ db, order_by_move_no (game_moves db game_id));
        b ← lift (construct_board all_moves);
        winner ← lift (find_winner b);
        _ ← match winner with
            | Some _ =>
                update_games (λ g, bool_decide (Game.id g = game_id))
                             (set_finished winner now)
            | None =>
                (* [game.turn_no]: the session keeps the loaded object in
                   step with the update, so it reads [expected_turn + 1] *)
                if decide (9 ≤ expected_turn + 1)
                then update_games (λ g, bool_decide (Game.id g = game_id))
                                  (λ g, set_finished (Game.winner_id g) now g)
                else mret 0
            end;
        get_game_view game_id
    end.

Definition move_body (game_id : Z) (user_id : option Z) (row col now : Z) : M ViewGame :=
  expected_turn ← move_guards game_id user_id;
  move_apply game_id user_id row col now expected_turn.

Definition move (game_id : Z) (user_id : option Z) (row col now : Z)
  : DB → res ViewGame * DB :=
  transaction (move_body game_id user_id row col now).

(** A request whose reads and guards ran against [snapshot] and whose
    claim reaches the store in state [db]. *)
Definition move_interleaved (snapshot : DB) (game_id : Z) (user_id : option Z)
    (row col now : Z) (db : DB) : res ViewGame * DB :=
  match move_guards game_id user_id snapshot with
  | (inl e, _) => (inl e, db)
  | (inr expected_turn, _) =>
      transaction (move_apply game_id user_id row col now expected_turn) db
  end.

End Service.

(** *** Read-only aggregation *)

(** [select(...).join(B, on)]: the pairs of rows that satisfy [on]. *)
Definition sql_join {A B} (l : list A) (r : list B) (on : A → B → bool)
  : list (A * B) :=
  a ← l; (λ b, (a, b)) <$> filter (λ b, on a b = true) r.

(** [select(key, func.count(...)).group_by(key)] *)
Definition group_count {K} `{EqDecision K} (keys : list K) : list (K * Z) :=
  (λ k, (k, count keys k)) <$> remove_dups keys.

Definition sum_Z (l : list Z) : Z := foldr Z.add 0 l.

Definition to_float (z : Z) : Qc := Q2Qc (inject_Z z).

(** Python's [a / b] on integers. *)
Definition truediv (a b : Z) : res Qc :=
  if decide (b = 0) then inl ZeroDivisionError else inr (to_float a / to_float b)%Qc.

(** [select(key, func.avg(value)).group_by(key)] *)
Definition group_avg (rows : list (Z * Z)) : list (Z * Qc) :=
  (λ k, let vs := snd <$> filter (λ kv, kv.1 = k) rows in
        (k, (to_float (sum_Z vs) / to_float (Z.of_nat (length vs)))%Qc))
    <$> remove_dups (fst <$> rows).

Definition get_user_stats (user_id : Z) (db : DB) : res UserStats :=
  let games_played :=
    Z.of_nat (length (filter (λ p, Player.user_id p = user_id) (players db))) in
  let wins :=
    Z.of_nat (length (filter (λ g, Game.winner_id g = Some user_id) (games db))) in
  let draw_games :=
    (λ gp, Game.id gp.1) <$>
      filter (λ gp, Game.status gp.1 = finished ∧ Game.winner_id gp.1 = None
                    ∧ Player.user_id gp.2 = user_id)
        (sql_join (games db) (players db) (λ g p, bool_decide (Player.game_id p = Game.id g))) in
  let draws := Z.of_nat (length draw_games) in
  let loses := games_played - wins - draws in
  win_ratio ← (if decide (games_played ≠ 0) then truediv wins games_played
               else mret 0%Qc);
  let moves_ :=
    group_count
      ((λ mg, Move.game_id mg.1) <$>
         filter (λ mg, Game.winner_id mg.2 = Some user_id ∧ Move.user_id mg.1 = user_id)
           (sql_join (moves db) (games db) (λ m g, bool_decide (Game.id g = Move.game_id m)))) in
  efficiency ← (if decide (moves_ ≠ [])
                then e ← truediv (sum_Z (snd <$> moves_)) (Z.of_nat (length moves_));
                     mret (Some e)
                else mret None);
  mret (mkUserStats user_id games_played wins loses draws win_ratio efficiency).

(** The result of [leaderboard]: [List[LeaderBoard] | str]. *)
Inductive leaderboard_result : Type :=
| Rows (rows : list LeaderBoard)
| Message (s : string).

(** Python's ordering of the tuples used as sort keys. *)
Definition key3_le (x y : Qc * Z * Z) : Prop :=
  (x.1.1 < y.1.1)%Qc ∨
  (x.1.1 = y.1.1 ∧ (x.1.2 < y.1.2 ∨ (x.1.2 = y.1.2 ∧ x.2 ≤ y.2))).

#[global] Instance key3_le_dec : RelDecision key3_le.
Proof. intros x y. unfold key3_le. apply _. Defined.

(** [key=lambda x: (-x.value, x.user_id)] *)
Definition wins_key (x : LeaderBoard) : Qc * Z * Z :=
  ((- lb_value x)%Qc, 0, lb_user_id x).

(** [key=lambda x: (x.value, -wins_by_user.get(x.user_id, 0), x.user_id)] *)
Definition efficiency_key (wins_by_user : gmap Z Z) (x : LeaderBoard) : Qc * Z * Z :=
  (lb_value x, - default 0 (wins_by_user !! lb_user_id x), lb_user_id x).

Definition by_key (key : LeaderBoard → Qc * Z * Z) (a b : LeaderBoard) : Prop :=
  key3_le (key a) (key b).

#[global] Instance by_key_dec key : RelDecision (by_key key).
Proof. intros a b. unfold by_key. apply _. Defined.

Definition total_games_by_user (db : DB) : gmap Z Z :=
  dict_of (group_count (Player.user_id <$> players db)).

Definition wins_by_user (db : DB) : gmap Z Z :=
  dict_of (group_count (omap Game.winner_id (games db))).

(** The subquery [per_game_moves]: rows [(uid, gid), cnt]. *)
Definition per_game_moves (db : DB) : list (Z * Z * Z) :=
  group_count
    ((λ mg, (Move.user_id mg.1, Move.game_id mg.1)) <$>
       filter (λ mg, Game.winner_id mg.2 = Some (Move.user_id mg.1))
         (sql_join (moves db) (games db) (λ m g, bool_decide (Game.id g = Move.game_id m)))).

Definition efficiency (db : DB) : gmap Z Qc :=
  dict_of (group_avg ((λ r, (r.1.1, r.2)) <$> per_game_moves db)).

Definition all_users (db : DB) : gset Z :=
  dom (total_games_by_user db) ∪ dom (wins_by_user db) ∪ dom (efficiency db).

(** The body of [for user in all_users]. *)
Definition leaderboard_row (db : DB) (metric : string) (rows : list LeaderBoard)
    (user : Z) : list LeaderBoard :=
  let wins := default 0 (wins_by_user db !! user) in
  let games_ := default 0 (total_games_by_user db !! user) in
  if decide (metric = "wins"%string)
  then rows ++ [mkLeaderBoard user (to_float wins) wins games_]
  else if decide (metric = "efficiency"%string)
  then
    let value := default 0%Qc (efficiency db !! user) in
    if decide (value ≠ 0%Qc)
    then rows ++ [mkLeaderBoard user value wins games_]
    else rows
  else rows.

Definition leaderboard (metric : string) (db : DB) : leaderboard_result :=
  let rows := foldl (leaderboard_row db metric) [] (elements (all_users db)) in
  if decide (metric = "wins"%string)
  then Rows (take 3 (merge_sort (by_key wins_key) rows))
  else if decide (metric = "efficiency"%string)
  then Rows (take 3 (merge_sort (by_key (efficiency_key (wins_by_user db))) rows))
  else Message "Unsupported metric".

(** ** router.py

    The request body of [POST /game/{game_id}/move] is validated against
    [MoveRequest] before [service.move] is called. *)
Definition router_move (import_time game_id : Z) (request : MoveRequest) (now : Z)
    (db : DB) : res ViewGame * DB :=
  if MoveRequest_valid request
  then move import_time game_id (Some (req_user_id request))
            (req_row request) (req_col request) now db
  else (inl RequestValidationError, db).

(** ** Histories

    The states of the store that calls of the service can produce, from the
    empty database. *)
Inductive call : Type :=
| CreateUser (name : string)
| CreateGame (creator_user_id : Z)
| JoinGame (game_id user_id now : Z)
| SubmitMove (game_id : Z) (user_id : option Z) (row col now : Z).

Definition exec (import_time : Z) (c : call) (db : DB) : DB :=
  match c with
  | CreateUser name => (create_user name db).2
  | CreateGame u => (create_game import_time u db).2
  | JoinGame g u now => (join_game g u now db).2
  | SubmitMove g u row col now => (move import_time g u row col now db).2
  end.

Inductive reachable (import_time : Z) : DB → Prop :=
| reachable_empty : reachable import_time empty_db
| reachable_step c db :
    reachable import_time db → reachable import_time (exec import_time c db).

(** The same through the endpoints of router.py.  A request body that
    fails validation never reaches the service; the endpoints other than
    [move] add no write of their own to the service method they call (they
    re-raise what it raises as [HTTPException(400, ...)]). *)
Inductive endpoint_call : Type :=
| PostUsers (name : string)
| PostGame (creator_user_id : Z)
| PostJoin (game_id user_id now : Z)
| PostMove (game_id : Z) (request : MoveRequest) (now : Z).

Definition endpoint_exec (import_time : Z) (c : endpoint_call) (db : DB) : DB :=
  match c with
  | PostUsers name =>
      if CreateUserRequest_valid name then (create_user name db).2 else db
  | PostGame u => (create_game import_time u db).2
  | PostJoin g u now => (join_game g u now db).2
  | PostMove g request now => (router_move import_time g request now db).2
  end.

Inductive endpoint_reachable (import_time : Z) : DB → Prop :=
| endpoint_reachable_empty : endpoint_reachable import_time empty_db
| endpoint_reachable_step c db :
    endpoint_reachable import_time db →
    endpoint_reachable import_time (endpoint_exec import_time c db).


(** ** Names for the error results of §7 of the specification *)

Definition Conflict : exn := HTTPException 400 "Concurrent moves, try again".
Definition CellOccupied : exn := HTTPException 400 "Cell already occupied".

(** The predicate of the conditional updates of [move]. *)
Definition turn_is (game_id expected_turn : Z) (g : Game.t) : bool :=
  bool_decide (Game.id g = game_id) && bool_decide (Game.turn_no g = expected_turn).

(** What [move] leaves in the row of the game once the move is recorded. *)
Definition game_after_move (winner : option Z) (now : Z) (g : Game.t) : Game.t :=
  let g1 := set_turn_no (Game.turn_no g + 1) g in
  match winner with
  | Some _ => set_finished winner now g1
  | None => if decide (9 ≤ Game.turn_no g + 1) then set_finished (Game.winner_id g) now g1
            else g1
  end.

(** [UPDATE games SET ... WHERE id = game_id]  *)
Definition update_row (game_id : Z) (f : Game.t → Game.t) (gs : list Game.t) : list Game.t :=
  (λ g, if bool_decide (Game.id g = game_id) then f g else g) <$> gs.

(** The rows of [games] after the conditional update of lines 143-149. *)
Definition claimed_games (game_id expected_turn : Z) (gs : list Game.t) : list Game.t :=
  (λ g, if turn_is game_id expected_turn g then set_turn_no (Game.turn_no g + 1) g else g)
    <$> gs.

(** The rows of [games] after the flush of lines 190-199. *)
Definition finished_games (game_id : Z) (winner : option Z) (expected_turn now : Z)
    (gs : list Game.t) : list Game.t :=
  match winner with
  | Some _ => update_row game_id (set_finished winner now) gs
  | None =>
      if decide (9 ≤ expected_turn + 1)
      then update_row game_id (λ g, set_finished (Game.winner_id g) now g) gs
      else gs
  end.

(** The row that [move] inserts. *)
Definition new_move (import_time : Z) (db : DB) (game_id user_id row col expected_turn : Z)
  : Move.t :=
  Move.mk (fresh_id (Move.id <$> moves db)) game_id user_id row col (expected_turn + 1)
          import_time.

(** ** The invariant of the store *)

Definition game_cells (ms : list Move.t) : list (Z * Z) :=
  (λ m, (Move.row m, Move.col m)) <$> ms.

(** What holds of a game [g], its seats [ps] and its moves [ms], both in
    insertion order. *)
Record game_inv (g : Game.t) (ps : list Player.t) (ms : list Move.t) : Prop := {
  inv_turn_no : Game.turn_no g = Z.of_nat (length ms);
  inv_move_no : Move.move_no <$> ms = Z.of_nat <$> seq 1 (length ms);
  inv_cells : NoDup (game_cells ms);
  inv_seats :
    (∃ p0, ps = [p0] ∧ Player.player_order p0 = 0 ∧ Game.status g = waiting) ∨
    (∃ p0 p1, ps = [p0; p1] ∧ Player.player_order p0 = 0 ∧ Player.player_order p1 = 1 ∧
              Player.user_id p0 ≠ Player.user_id p1 ∧ Game.status g ≠ waiting);
  inv_open : Game.status g ≠ finished → Game.winner_id g = None ∧ Game.turn_no g < 9;
  inv_waiting : Game.status g = waiting → Game.turn_no g = 0 }.

Record Inv (db : DB) : Prop := {
  inv_game_ids : NoDup (Game.id <$> games db);
  inv_player_fk : ∀ p, p ∈ players db → Player.game_id p ∈ Game.id <$> games db;
  inv_move_fk : ∀ m, m ∈ moves db → Move.game_id m ∈ Game.id <$> games db;
  inv_games :
    ∀ g, g ∈ games db →
         game_inv g (game_players db (Game.id g)) (game_moves db (Game.id g)) }.

(** Every recorded move lies on the board. *)
Definition moves_on_board (db : DB) : Prop :=
  ∀ m, m ∈ moves db → 0 ≤ Move.row m ≤ 2 ∧ 0 ≤ Move.col m ≤ 2.

(** The seat that [join_game] assigns: 1 when seat 0 is taken, else 0. *)
Definition join_order (ps : list Player.t) : Z :=
  if bool_decide (Exists (λ p, Player.player_order p = 0) ps) then 1 else 0.


(** ** Scenarios *)

Definition run (import_time : Z) (cs : list call) : DB :=
  foldl (λ db c, exec import_time c db) empty_db cs.

Definition endpoint_run (import_time : Z) (cs : list endpoint_call) : DB :=
  foldl (λ db c, endpoint_exec import_time c db) empty_db cs.

(** Two users, a game created by the first and joined by the second. *)
Definition calls_started : list call :=
  [CreateUser "alice"; CreateUser "bob"; CreateGame 1; JoinGame 1 2 100].

Definition db_waiting : DB := run 0 [CreateUser "alice"; CreateUser "bob"; CreateGame 1].

Definition db_started : DB := run 0 calls_started.

(** User 1 has played (0,0) and user 2 has played (0,1). *)
Definition db_two_moves : DB :=
  run 0 (calls_started ++ [SubmitMove 1 (Some 1) 0 0 200; SubmitMove 1 (Some 2) 0 1 201]).

(** The first eight moves of the draw of the test suite, through the endpoint. *)
Definition posts_eight_moves : list endpoint_call :=
  [PostUsers "alice"; PostUsers "bob"; PostGame 1; PostJoin 1 2 100;
   PostMove 1 (mkMoveRequest 1 0 0) 200; PostMove 1 (mkMoveRequest 2 0 1) 201;
   PostMove 1 (mkMoveRequest 1 0 2) 202; PostMove 1 (mkMoveRequest 2 1 1) 203;
   PostMove 1 (mkMoveRequest 1 1 0) 204; PostMove 1 (mkMoveRequest 2 1 2) 205;
   PostMove 1 (mkMoveRequest 1 2 1) 206; PostMove 1 (mkMoveRequest 2 2 0) 207].

Definition db_eight_moves : DB := endpoint_run 0 posts_eight_moves.

(** The nine cells of the board. *)
Definition all_cells : list (Z * Z) :=
  [(0, 0); (0, 1); (0, 2); (1, 0); (1, 1); (1, 2); (2, 0); (2, 1); (2, 2)].

(** Every cell of the board holds a user id. *)
Definition board_full (b : board) : Prop :=
  ∀ rc, in_grid rc → ∃ u, board_get b rc = inr (Some u).

(** No triple of [VICTORY_CONDITIONS] is filled by one user. *)
Definition no_line (b : board) : Prop :=
  ∀ c u, c ∈ VICTORY_CONDITIONS → ¬ filled_by b c u.

(** The row that the loop of [leaderboard] appends for [user] under the
    metric "efficiency", if any. *)
Definition efficiency_row (db : DB) (user : Z) : option LeaderBoard :=
  let value := default 0%Qc (efficiency db !! user) in
  if decide (value ≠ 0%Qc)
  then Some (mkLeaderBoard user value (default 0 (wins_by_user db !! user))
                           (default 0 (total_games_by_user db !! user)))
  else None.

(** User 1 wins game 1 with three moves of their own; user 2 wins game 2
    with five. *)
Definition db_efficiency : DB :=
  run 0 [CreateUser "a"; CreateUser "b"; CreateUser "c"; CreateUser "d";
         CreateGame 1; JoinGame 1 3 100;
         SubmitMove 1 (Some 1) 0 0 101; SubmitMove 1 (Some 3) 1 0 102;
         SubmitMove 1 (Some 1) 0 1 103; SubmitMove 1 (Some 3) 1 1 104;
         SubmitMove 1 (Some 1) 0 2 105;
         CreateGame 2; JoinGame 2 4 200;
         SubmitMove 2 (Some 2) 0 0 201; SubmitMove 2 (Some 4) 0 1 202;
         SubmitMove 2 (Some 2) 0 2 203; SubmitMove 2 (Some 4) 1 0 204;
         SubmitMove 2 (Some 2) 2 1 205; SubmitMove 2 (Some 4) 1 2 206;
         SubmitMove 2 (Some 2) 2 2 207; SubmitMove 2 (Some 4) 2 0 208;
         SubmitMove 2 (Some 2) 1 1 209].


(** ** Further definitions used by the properties of the helpers and of the store *)

(** The index of the board that Python's [l[i]] reaches, for a list of
    three: [i] itself, or [i + 3] when [i] is negative. *)
Definition py_norm (i : Z) : Z := if decide (i < 0) then i + 3 else i.

(** The cell of the board that a recorded move writes. *)
Definition cell_of (m : Move.t) : Z * Z := (py_norm (Move.row m), py_norm (Move.col m)).

(** The coordinates [construct_board] accepts. *)
Definition indexable (m : Move.t) : Prop :=
  (-3 ≤ Move.row m ≤ 2) ∧ (-3 ≤ Move.col m ≤ 2).

#[global] Instance indexable_dec m : Decision (indexable m).
Proof. unfold indexable. apply _. Defined.

(** The order of the lifecycle: waiting, then in progress, then finished. *)
Definition status_rank (s : GameStatus) : Z :=
  match s with waiting => 0 | in_progress => 1 | finished => 2 end.

(** What holds, beyond [game_inv], of a game [g], its seats [ps] and its
    moves [ms]. *)
Record game_inv2 (g : Game.t) (ps : list Player.t) (ms : list Move.t) : Prop := {
  inv2_turns :
    ∀ m, m ∈ ms →
         ∃ p, p ∈ ps ∧ Player.user_id p = Move.user_id m ∧
              Player.player_order p = (Move.move_no m - 1) `mod` 2;
  inv2_board :
    ∃ b, construct_board (order_by_move_no ms) = inr b ∧
         find_winner b = inr (Game.winner_id g);
  inv2_nine : Game.turn_no g ≤ 9;
  inv2_draw :
    Game.status g = finished → Game.winner_id g = None → Game.turn_no g = 9 }.

Definition Inv2 (db : DB) : Prop :=
  ∀ g, g ∈ games db →
       game_inv2 g (game_players db (Game.id g)) (game_moves db (Game.id g)).

(** The row that the loop of [leaderboard] appends for [user] under the
    metric "wins". *)
Definition wins_row (db : DB) (user : Z) : LeaderBoard :=
  let wins := default 0 (wins_by_user db !! user) in
  mkLeaderBoard user (to_float wins) wins (default 0 (total_games_by_user db !! user)).

(** The user [u] holds a seat of the game [g]. *)
Definition seated (db : DB) (u : Z) (g : Game.t) : Prop :=
  u ∈ Player.user_id <$> game_players db (Game.id g).

#[global] Instance seated_dec db u g : Decision (seated db u g).
Proof. unfold seated. apply _. Defined.

(** 1 when [P] holds, else 0. *)
Definition indicator (P : Prop) `{Decision P} : Z := if decide P then 1 else 0.
(** ** Win detection *)


Lemma getitem_inr {A} (l : list A) (i : Z) :
  0 ≤ i < Z.of_nat (length l) → ∃ x, getitem l i = inr x ∧ l !! Z.to_nat i = Some x.
Proof.
  intros Hi. unfold getitem, py_index.
  rewrite bool_decide_eq_true_2 by done. simpl.
  destruct (lookup_lt_is_Some_2 l (Z.to_nat i)) as [x Hx]; [lia|].
  exists x. by rewrite Hx.
Qed.

Lemma board_get_inr b rc :
  grid3x3 b → in_grid rc → ∃ x, board_get b rc = inr x.
Proof.
  intros [Hl Hr] [H1 H2]. unfold board_get.
  destruct (getitem_inr b rc.1) as (r & -> & Hlk); [lia|]. simpl.
  assert (length r = 3%nat) as Hlen.
  { rewrite Forall_forall in Hr. apply Hr.
    by eapply list_elem_of_lookup_2. }
  destruct (getitem_inr r rc.2) as (x & -> & _); [lia|]. eauto.
Qed.

Lemma VICTORY_CONDITIONS_shape :
  Forall (λ c, ∃ p q r, c = [p; q; r] ∧ in_grid p ∧ in_grid q ∧ in_grid r)
    VICTORY_CONDITIONS.
Proof.
  unfold VICTORY_CONDITIONS, in_grid.
  repeat (constructor; [do 3 eexists; split; [reflexivity|simpl; lia]|]).
  constructor.
Qed.

(** One iteration of the loop: the test of a triple succeeds exactly when
    the triple is filled by one user. *)
Lemma triple_test b p q r x y z :
  board_get b p = inr x → board_get b q = inr y → board_get b r = inr z →
  condition_ids b [p; q; r] = inr [x; y; z] ∧
  ∀ u, (x = Some u ∧ count [x; y; z] x = 3) ↔ filled_by b [p; q; r] u.
Proof.
  intros Hp Hq Hr. split.
  { simpl. rewrite Hp, Hq, Hr. reflexivity. }
  intros u. unfold filled_by, count. rewrite !Forall_cons_iff. cbn beta.
  rewrite Hp, Hq, Hr. split.
  - intros [-> Hc]. rewrite !filter_cons, filter_nil in Hc.
    destruct (decide (y = Some u)) as [->|]; destruct (decide (z = Some u)) as [->|];
      repeat case_decide; simpl in Hc; try lia; try done.
  - intros (Hx & Hy & Hz & _). simplify_eq. split; [done|].
    rewrite !filter_cons, filter_nil. rewrite !decide_True by done. done.
Qed.

Lemma find_winner_loop_spec conds b :
  grid3x3 b →
  Forall (λ c, ∃ p q r, c = [p; q; r] ∧ in_grid p ∧ in_grid q ∧ in_grid r) conds →
  ∃ w, find_winner_loop conds b = inr w ∧
       match w with
       | Some u =>
           ∃ pre c post, conds = pre ++ c :: post ∧ filled_by b c u ∧
                         ∀ c' u', c' ∈ pre → ¬ filled_by b c' u'
       | None => ∀ c u, c ∈ conds → ¬ filled_by b c u
       end.
Proof.
  intros Hb. induction 1 as [|c conds (p & q & r & -> & Hp & Hq & Hr) _ IH].
  { exists None. split; [done|]. intros c u Hc. by apply elem_of_nil in Hc. }
  destruct (board_get_inr b p Hb Hp) as [x Hx].
  destruct (board_get_inr b q Hb Hq) as [y Hy].
  destruct (board_get_inr b r Hb Hr) as [z Hz].
  destruct (triple_test b p q r x y z Hx Hy Hz) as [Hids Htest].
  cbn [find_winner_loop]. rewrite Hids. cbn [mbind res_bind].
  change (getitem [x; y; z] 0) with (inr x : res (option Z)). cbn [mbind res_bind].
  assert ((∀ u, ¬ filled_by b [p; q; r] u) →
     ∃ w, find_winner_loop conds b = inr w ∧
       match w with
       | Some u =>
           ∃ pre c post, [p; q; r] :: conds = pre ++ c :: post ∧ filled_by b c u ∧
                         ∀ c' u', c' ∈ pre → ¬ filled_by b c' u'
       | None => ∀ c u, c ∈ [p; q; r] :: conds → ¬ filled_by b c u
       end) as Hskip.
  { intros Hno. destruct IH as (w & Hw & Hspec). exists w. split; [done|].
    revert Hspec. clear Hw. destruct w as [u|].
    - intros (pre & c & post & -> & Hf & Hpre).
      exists ([p; q; r] :: pre), c, post. split; [done|]. split; [done|].
      intros c' u' [->|Hin]%elem_of_cons; [apply Hno|by apply Hpre].
    - intros Hnone c u [->|Hin]%elem_of_cons; [apply Hno|by apply Hnone]. }
  destruct x as [u|].
  - case_bool_decide as Hc.
    + exists (Some u). split; [done|]. exists [], [p; q; r], conds.
      split; [done|]. split; [by apply Htest|]. intros c' u' Hin.
      by apply elem_of_nil in Hin.
    + apply Hskip. intros u' Hf. apply Htest in Hf as [Hu Hc']. done.
  - apply Hskip. intros u' Hf. apply Htest in Hf as [Hu _]. done.
Qed.

Lemma find_winner_spec b :
  grid3x3 b →
  ∃ w, find_winner b = inr w ∧
       match w with
       | Some u =>
           ∃ pre c post, VICTORY_CONDITIONS = pre ++ c :: post ∧ filled_by b c u ∧
                         ∀ c' u', c' ∈ pre → ¬ filled_by b c' u'
       | None => ∀ c u, c ∈ VICTORY_CONDITIONS → ¬ filled_by b c u
       end.
Proof.
  intros Hb. apply find_winner_loop_spec; [done|apply VICTORY_CONDITIONS_shape].
Qed.

(** C7 (amended). For every 3x3 grid, [find_winner] walks the 8 triples
    of [VICTORY_CONDITIONS] in order and returns the user who fills the
    first triple whose three cells all hold the same non-empty user id, and
    none when no triple is filled.  In particular, when a triple is filled
    by a user and no triple is filled by a different user, it returns that
    user, whatever the other cells hold; and for a grid with no
    three-in-a-line, full or not, it returns none. *)
Theorem C7_find_winner_first_filled_triple (b : board) :
  grid3x3 b →
  length VICTORY_CONDITIONS = 8%nat ∧
  ∃ w, find_winner b = inr w ∧
    (∀ u, w = Some u →
       ∃ pre c post, VICTORY_CONDITIONS = pre ++ c :: post ∧ filled_by b c u ∧
                     ∀ c' u', c' ∈ pre → ¬ filled_by b c' u') ∧
    (w = None ↔ ∀ c u, c ∈ VICTORY_CONDITIONS → ¬ filled_by b c u) ∧
    (∀ c u, c ∈ VICTORY_CONDITIONS → filled_by b c u →
       (∀ c' u', c' ∈ VICTORY_CONDITIONS → filled_by b c' u' → u' = u) →
       w = Some u).
Proof.
  intros Hb. split; [done|].
  destruct (find_winner_spec b Hb) as (w & Hw & Hspec).
  exists w. split; [done|]. destruct w as [u|].
  - destruct Hspec as (pre & c & post & Heq & Hf & Hpre).
    assert (c ∈ VICTORY_CONDITIONS) as Hc.
    { rewrite Heq. apply elem_of_app. right. apply elem_of_cons. by left. }
    split; [|split].
    + intros u' [= <-]. by exists pre, c, post.
    + split; [done|]. intros Hno. destruct (Hno c u Hc Hf).
    + intros c0 u0 Hc0 Hf0 Huniq. f_equal. by apply (Huniq c u).
  - split; [|split].
    + intros u [=].
    + done.
    + intros c u Hc Hf _. destruct (Hspec c u Hc Hf).
Qed.

(** C7 on a board whose first row is filled by user 1. *)
Lemma C7_find_winner_first_filled_triple_witness :
  let b := [[Some 1; Some 1; Some 1]; [Some 2; Some 2; None]; [None; None; None]] in
  length VICTORY_CONDITIONS = 8%nat ∧
  ∃ w, find_winner b = inr w ∧
    (∀ u, w = Some u →
       ∃ pre c post, VICTORY_CONDITIONS = pre ++ c :: post ∧ filled_by b c u ∧
                     ∀ c' u', c' ∈ pre → ¬ filled_by b c' u') ∧
    (w = None ↔ ∀ c u, c ∈ VICTORY_CONDITIONS → ¬ filled_by b c u) ∧
    (∀ c u, c ∈ VICTORY_CONDITIONS → filled_by b c u →
       (∀ c' u', c' ∈ VICTORY_CONDITIONS → filled_by b c' u' → u' = u) →
       w = Some u).
Proof.
  intros b. apply (C7_find_winner_first_filled_triple b).
  split; [reflexivity|]. repeat constructor.
Defined.

(** C7, as stated, fails: the second row is filled by user 1 and the
    remaining cells are arbitrary, yet the detector returns user 2, who
    fills the first row. *)
Lemma C7_counterexample :
  ¬ (∀ (b : board) c u,
       grid3x3 b → c ∈ VICTORY_CONDITIONS → filled_by b c u →
       find_winner b = inr (Some u)).
Proof.
  intros H.
  specialize (H [[Some 2; Some 2; Some 2]; [Some 1; Some 1; Some 1]; [None; None; None]]
                [(1, 0); (1, 1); (1, 2)] 1).
  assert (find_winner
            [[Some 2; Some 2; Some 2]; [Some 1; Some 1; Some 1]; [None; None; None]]
          = inr (Some 2)) as Hw by reflexivity.
  rewrite Hw in H. 
  assert (inr (Some 2) = (inr (Some 1) : res (option Z))) as Habs; [|discriminate Habs].
  apply H.
  - split; [reflexivity|]. repeat constructor.
  - unfold VICTORY_CONDITIONS. apply elem_of_cons. right. apply elem_of_cons. by left.
  - repeat constructor.
Qed.

(** ** Board reconstruction *)

Lemma py_index_Some len i k :
  py_index len i = Some k →
  - Z.of_nat len ≤ i < Z.of_nat len ∧ (k < len)%nat ∧ (0 ≤ i → k = Z.to_nat i).
Proof.
  unfold py_index. repeat case_bool_decide; intros [= <-]; lia.
Qed.

Lemma py_index_nonneg len i :
  0 ≤ i < Z.of_nat len → py_index len i = Some (Z.to_nat i).
Proof. intros Hi. unfold py_index. by rewrite bool_decide_eq_true_2. Qed.

Lemma board_get_cell b rc :
  grid3x3 b → in_grid rc →
  board_get b rc = match cell b (Z.to_nat rc.1) (Z.to_nat rc.2) with
                   | Some c => inr c
                   | None => inl IndexError
                   end.
Proof.
  intros [Hl Hr] [H1 H2]. unfold board_get, cell.
  destruct (getitem_inr b rc.1) as (r & -> & Hlk); [lia|]. rewrite Hlk. simpl.
  assert (length r = 3%nat) as Hlen.
  { rewrite Forall_forall in Hr. apply Hr.
    by eapply list_elem_of_lookup_2. }
  destruct (getitem_inr r rc.2) as (x & -> & ->); [lia|]. done.
Qed.

Lemma board_set_inv b row col v b' :
  board_set b row col v = inr b' →
  ∃ i j r, py_index (length b) row = Some i ∧ b !! i = Some r ∧
           py_index (length r) col = Some j ∧ b' = <[i := <[j := v]> r]> b.
Proof.
  unfold board_set, getitem, setitem. intros H.
  destruct (py_index (length b) row) as [i|] eqn:Hi; [|done]. simpl in H.
  destruct (b !! i) as [r|] eqn:Hr; [|done]. simpl in H.
  destruct (py_index (length r) col) as [j|] eqn:Hj; [|done]. simpl in H.
  injection H as <-. by exists i, j, r.
Qed.

Lemma cell_insert b i j r v x y :
  b !! i = Some r → (j < length r)%nat →
  cell (<[i := <[j := v]> r]> b) x y =
    if decide (x = i ∧ y = j) then Some v else cell b x y.
Proof.
  intros Hr Hj. unfold cell. pose proof (lookup_lt_Some _ _ _ Hr) as Hi.
  destruct (decide (x = i)) as [->|Hx].
  - rewrite list_lookup_insert_eq by done. simpl. rewrite Hr. simpl.
    destruct (decide (y = j)) as [->|Hy].
    + rewrite list_lookup_insert_eq by done. by rewrite decide_True.
    + rewrite list_lookup_insert_ne by done. rewrite decide_False; [done|]. tauto.
  - rewrite list_lookup_insert_ne by done. rewrite decide_False; [done|]. tauto.
Qed.

Lemma grid3x3_insert b i j r v :
  grid3x3 b → b !! i = Some r → grid3x3 (<[i := <[j := v]> r]> b).
Proof.
  intros [Hl Hr] Hi. split; [by rewrite length_insert|].
  apply Forall_insert; [done|]. rewrite length_insert.
  rewrite Forall_forall in Hr. apply Hr.
  by eapply list_elem_of_lookup_2.
Qed.

Lemma construct_board_loop_spec cells b b' :
  grid3x3 b → construct_board_loop cells b = inr b' →
  grid3x3 b' ∧
  Forall (λ c, (-3 ≤ c.1.1 ≤ 2) ∧ (-3 ≤ c.1.2 ≤ 2)) cells ∧
  ∀ x y, (filled b x y ∨ ∃ u, (Z.of_nat x, Z.of_nat y, u) ∈ cells) → filled b' x y.
Proof.
  revert b. induction cells as [|[[row col] u] cells IH]; intros b Hb H.
  { injection H as <-. split; [done|]. split; [constructor|].
    intros x y [Hf|[u Hin]]; [done|]. by apply elem_of_nil in Hin. }
  cbn [construct_board_loop] in H.
  destruct (board_set b row col (Some u)) as [e|b1] eqn:Hset; [done|].
  cbn [mbind res_bind] in H.
  destruct (board_set_inv _ _ _ _ _ Hset) as (i & j & r & Hi & Hr & Hj & ->).
  pose proof Hb as [Hlb Hrows].
  assert (length r = 3%nat) as Hlr.
  { rewrite Forall_forall in Hrows. apply Hrows.
    by eapply list_elem_of_lookup_2. }
  apply py_index_Some in Hi as (Hi1 & Hi2 & Hi3).
  apply py_index_Some in Hj as (Hj1 & Hj2 & Hj3).
  destruct (IH _ (grid3x3_insert b i j r (Some u) Hb Hr) H) as (Hb' & Hrange & Hfill).
  split; [done|]. split.
  { constructor; [simpl; lia|done]. }
  intros x y Hxy. apply Hfill.
  unfold filled. rewrite cell_insert by done.
  destruct (decide (x = i ∧ y = j)) as [[-> ->]|Hne].
  { left. by exists u. }
  destruct Hxy as [Hf|[u' Hin]]; [by left|].
  apply elem_of_cons in Hin as [Heq|Hin]; [|right; by exists u'].
  injection Heq as <- <- <-. exfalso. apply Hne. lia.
Qed.

Lemma empty_board_grid : grid3x3 empty_board.
Proof. split; [reflexivity|]. repeat constructor. Qed.

Lemma construct_board_spec ms b :
  construct_board ms = inr b →
  grid3x3 b ∧
  Forall (λ m, (-3 ≤ Move.row m ≤ 2) ∧ (-3 ≤ Move.col m ≤ 2)) ms ∧
  ∀ m, m ∈ ms → 0 ≤ Move.row m → 0 ≤ Move.col m →
       filled b (Z.to_nat (Move.row m)) (Z.to_nat (Move.col m)).
Proof.
  unfold construct_board. intros H.
  destruct (construct_board_loop_spec _ _ _ empty_board_grid H) as (Hb & Hrange & Hfill).
  split; [done|]. split.
  - rewrite Forall_fmap in Hrange. exact Hrange.
  - intros m Hm Hr Hc. apply Hfill. right. exists (Move.user_id m).
    apply list_elem_of_fmap. exists m. split; [|done].
    by rewrite !Z2Nat.id by done.
Qed.

(** ** The store *)

Lemma fresh_id_gt ids i : i ∈ ids → i < fresh_id ids.
Proof.
  unfold fresh_id. induction ids as [|j ids IH]; intros Hi.
  - by apply elem_of_nil in Hi.
  - apply elem_of_cons in Hi as [->|Hi]; simpl; [lia|]. specialize (IH Hi). lia.
Qed.

Lemma fresh_id_not_in ids : fresh_id ids ∉ ids.
Proof. intros H. apply fresh_id_gt in H. lia. Qed.

Lemma s_get_Some {A} (pk : A → Z) rows k r :
  s_get pk rows k = Some r → r ∈ rows ∧ pk r = k.
Proof.
  unfold s_get. intros H. apply find_some in H as [Hin Hk].
  split; [by apply list_elem_of_In|]. by apply bool_decide_eq_true in Hk.
Qed.

Lemma s_get_None {A} (pk : A → Z) rows k :
  s_get pk rows k = None → ∀ r, r ∈ rows → pk r ≠ k.
Proof.
  unfold s_get. intros H r Hr Hk.
  pose proof (find_none _ _ H r (proj1 (list_elem_of_In _ _) Hr)) as Hf.
  simpl in Hf. by rewrite bool_decide_eq_true_2 in Hf.
Qed.

Lemma s_get_unique {A} (pk : A → Z) rows r :
  NoDup (pk <$> rows) → r ∈ rows → s_get pk rows (pk r) = Some r.
Proof.
  unfold s_get. induction rows as [|r' rows IH]; intros Hnd Hr.
  - by apply elem_of_nil in Hr.
  - rewrite fmap_cons in Hnd. apply NoDup_cons in Hnd as [Hni Hnd]. simpl.
    case_bool_decide as Hk.
    + apply elem_of_cons in Hr as [->|Hr]; [done|].
      exfalso. apply Hni. rewrite Hk. apply list_elem_of_fmap. by exists r.
    + apply elem_of_cons in Hr as [->|Hr]; [done|]. by apply IH.
Qed.

Lemma filter_none {A} (P : A → Prop) `{∀ x, Decision (P x)} (l : list A) :
  (∀ x, x ∈ l → ¬ P x) → filter P l = [].
Proof.
  induction l as [|x l IH]; intros Hl; [done|].
  rewrite filter_cons, decide_False.
  - apply IH. intros y Hy. apply Hl. by right.
  - apply Hl. by left.
Qed.

Lemma turn_is_filter gs g :
  NoDup (Game.id <$> gs) → g ∈ gs →
  filter (λ g', turn_is (Game.id g) (Game.turn_no g) g' = true) gs = [g].
Proof.
  unfold turn_is. induction gs as [|g' gs IH]; intros Hnd Hg.
  - by apply elem_of_nil in Hg.
  - rewrite fmap_cons in Hnd. apply NoDup_cons in Hnd as [Hni Hnd].
    rewrite filter_cons. apply elem_of_cons in Hg as [->|Hg].
    + rewrite decide_True by (by rewrite !bool_decide_eq_true_2).
      f_equal. apply filter_none. intros x Hx Hp.
      apply andb_true_iff in Hp as [Hid _]. apply bool_decide_eq_true in Hid.
      apply Hni. rewrite <- Hid. apply list_elem_of_fmap. by exists x.
    + rewrite decide_False; [by apply IH|].
      intros Hp. apply andb_true_iff in Hp as [Hid _]. apply bool_decide_eq_true in Hid.
      apply Hni. rewrite Hid. apply list_elem_of_fmap. by exists g.
Qed.

(** With a primary key on [games.id], an update of the rows of one id is
    an update of the row [s.get] returns. *)
Lemma update_row_id gid f gs :
  (∀ g, Game.id (f g) = Game.id g) →
  Game.id <$> update_row gid f gs = Game.id <$> gs.
Proof.
  intros Hf. unfold update_row. rewrite <- list_fmap_compose.
  apply list_fmap_ext. intros i g Hi. simpl. by case_bool_decide.
Qed.

Lemma elem_of_update_row gid f gs g' :
  g' ∈ update_row gid f gs ↔
  ∃ g, g ∈ gs ∧ g' = if bool_decide (Game.id g = gid) then f g else g.
Proof.
  unfold update_row. rewrite list_elem_of_fmap. split; intros (g & H1 & H2); by exists g.
Qed.

Lemma claim_as_update_row gs g :
  NoDup (Game.id <$> gs) → g ∈ gs →
  (λ g', if turn_is (Game.id g) (Game.turn_no g) g'
         then set_turn_no (Game.turn_no g' + 1) g' else g') <$> gs
  = update_row (Game.id g) (λ g', set_turn_no (Game.turn_no g' + 1) g') gs.
Proof.
  intros Hnd Hg. unfold update_row. apply list_fmap_ext. intros i g' Hg'.
  apply list_elem_of_lookup_2 in Hg'. unfold turn_is. case_bool_decide as Hid; [|done].
  assert (g' = g) as ->; [|by rewrite bool_decide_eq_true_2].
  pose proof (s_get_unique Game.id gs g Hnd Hg) as H1.
  pose proof (s_get_unique Game.id gs g' Hnd Hg') as H2.
  rewrite Hid in H2. congruence.
Qed.

Lemma update_row_compose gid f1 f2 gs :
  (∀ g, Game.id (f1 g) = Game.id g) →
  update_row gid f2 (update_row gid f1 gs) = update_row gid (f2 ∘ f1) gs.
Proof.
  intros Hf. unfold update_row. rewrite <- list_fmap_compose.
  apply list_fmap_ext. intros i g Hi. simpl.
  destruct (decide (Game.id g = gid)) as [Hid|Hid].
  - rewrite (bool_decide_eq_true_2 _ Hid).
    by rewrite bool_decide_eq_true_2 by (by rewrite Hf).
  - rewrite (bool_decide_eq_false_2 _ Hid). by rewrite bool_decide_eq_false_2.
Qed.

(** *** The guards of [move] *)

Lemma order_dict_lookup ps o u :
  order_dict ps !! o = Some u →
  ∃ p, p ∈ ps ∧ Player.player_order p = o ∧ Player.user_id p = u.
Proof.
  unfold order_dict, dict_of. induction ps as [|p ps IH] using rev_ind.
  - done.
  - rewrite fmap_app, foldl_app. simpl. intros H.
    destruct (decide (Player.player_order p = o)) as [Ho|Ho].
    + rewrite Ho, lookup_insert_eq in H. injection H as <-.
      exists p. split; [|done]. apply elem_of_app. right. by apply list_elem_of_singleton.
    + rewrite lookup_insert_ne in H by done. destruct (IH H) as (p' & Hp' & Hp'').
      exists p'. split; [|done]. apply elem_of_app. by left.
Qed.

Lemma move_guards_inv gid uid db r db1 :
  move_guards gid uid db = (r, db1) →
  db1 = db ∧
  ∀ e, r = inr e →
    ∃ g u, s_get Game.id (games db) gid = Some g ∧
           Game.status g = in_progress ∧ uid = Some u ∧ e = Game.turn_no g ∧
           ∃ p, p ∈ game_players db gid ∧ Player.user_id p = u ∧
                Player.player_order p = Game.turn_no g `mod` 2.
Proof.
  unfold move_guards, mbind, M_bind, query, raise, mret, M_ret. simpl.
  destruct (s_get Game.id (games db) gid) as [g|] eqn:Hg; [|by intros [= <- <-]].
  destruct (s_get_Some _ _ _ _ Hg) as [Hin Hid].
  case_decide as Hst; [by intros [= <- <-]|].
  case_bool_decide as Hex; [|by intros [= <- <-]].
  case_decide as Hturn; [by intros [= <- <-]|].
  intros [= <- <-]. split; [done|]. intros e [= <-].
  try apply dec_stable in Hturn. try apply dec_stable in Hst.
  destruct uid as [u|].
  2:{ apply Exists_exists in Hex as (p & _ & Hp). done. }
  exists g, u. rewrite Hid in Hturn.
  destruct (order_dict_lookup _ _ _ Hturn) as (p & Hp & Ho & Hu).
  repeat (split; [done|]). by exists p.
Qed.

(** *** The effect of [move] *)

Lemma get_game_view_db gid db r db1 :
  get_game_view gid db = (r, db1) → db1 = db.
Proof.
  unfold get_game_view, mbind, M_bind, query, raise, lift, mret, M_ret. cbn beta iota zeta.
  destruct (s_get Game.id (games db) gid); [|by intros [= _ <-]].
  destruct (construct_board _); by intros [= _ <-].
Qed.

Lemma insert_move_inv it gid uid no row col db db1 :
  insert_move it gid uid no row col db = (inr (), db1) →
  ∃ u, uid = Some u ∧
       (∀ m, m ∈ game_moves db gid → ¬ (Move.row m = row ∧ Move.col m = col)) ∧
       (∀ m, m ∈ game_moves db gid → Move.move_no m ≠ no) ∧
       db1 = mkDB (users db) (games db) (players db)
                  (moves db ++ [Move.mk (fresh_id (Move.id <$> moves db)) gid u row col no it]).
Proof.
  unfold insert_move. destruct uid as [u|]; [|done].
  case_bool_decide as Hcell; [done|]. case_bool_decide as Hno; [done|].
  intros [= <-]. exists u. split; [done|]. unfold game_moves.
  split; [|split; [|done]]; intros m [Hg Hm]%list_elem_of_filter Hx.
  - apply Hcell. apply Exists_exists. exists m. tauto.
  - apply Hno. apply Exists_exists. exists m. tauto.
Qed.

Lemma game_moves_snoc db gid m us gs ps :
  Move.game_id m = gid →
  game_moves (mkDB us gs ps (moves db ++ [m])) gid = game_moves db gid ++ [m].
Proof.
  intros Hm. unfold game_moves. simpl. rewrite filter_app. f_equal.
  rewrite filter_cons, decide_True by done. done.
Qed.

Lemma game_moves_snoc_ne db gid m us gs ps :
  Move.game_id m ≠ gid →
  game_moves (mkDB us gs ps (moves db ++ [m])) gid = game_moves db gid.
Proof.
  intros Hm. unfold game_moves. simpl. rewrite filter_app.
  rewrite filter_cons, decide_False by done. by rewrite filter_nil, app_nil_r.
Qed.

Lemma move_apply_inr it gid uid row col now e db v db' :
  move_apply it gid uid row col now e db = (inr v, db') →
  ∃ u b w,
    uid = Some u ∧
    length (filter (λ g, turn_is gid e g = true) (games db)) = 1%nat ∧
    (∀ m, m ∈ game_moves db gid → ¬ (Move.row m = row ∧ Move.col m = col)) ∧
    (∀ m, m ∈ game_moves db gid → Move.move_no m ≠ e + 1) ∧
    construct_board (order_by_move_no (game_moves db gid ++ [new_move it db gid u row col e]))
      = inr b ∧
    find_winner b = inr w ∧
    db' = mkDB (users db)
               (finished_games gid w e now (claimed_games gid e (games db)))
               (players db)
               (moves db ++ [new_move it db gid u row col e]).
Proof.
  unfold move_apply, claim_turn, revert_turn, update_games.
  unfold mbind, M_bind, query, raise, lift, mret, M_ret. cbn beta iota zeta.
  case_decide as Hcount; [done|].
  fold (turn_is gid e) in *.
  change ((λ g, if bool_decide (Game.id g = gid) && bool_decide (Game.turn_no g = e)
                then set_turn_no (Game.turn_no g + 1) g else g) <$> games db)
    with (claimed_games gid e (games db)).
  set (db1 := mkDB _ (claimed_games gid e (games db)) _ _).
  change (game_moves db1 gid) with (game_moves db gid).
  destruct (head _) as [m0|] eqn:Hocc; [done|].
  destruct (insert_move it gid uid (e + 1) row col db1) as [[err|[]] db2] eqn:Hins; [done|].
  apply insert_move_inv in Hins as (u & -> & Hcell & Hno & ->).
  change (moves db1) with (moves db). change (users db1) with (users db).
  change (players db1) with (players db).
  change (games db1) with (claimed_games gid e (games db)).
  rewrite (game_moves_snoc db gid) by done.
  fold (new_move it db gid u row col e).
  destruct (construct_board _) as [err|b] eqn:Hb; [done|].
  destruct (find_winner b) as [err|w] eqn:Hw; [done|].
  intros H. exists u, b, w. split; [done|].
  split; [unfold turn_is; try apply dec_stable in Hcount; lia|].
  split; [exact Hcell|]. split; [exact Hno|]. split; [done|]. split; [done|].
  unfold finished_games. destruct w as [w|].
  - cbn beta iota zeta in H. apply get_game_view_db in H. subst db'. reflexivity.
  - case_decide.
    + cbn beta iota zeta in H. apply get_game_view_db in H. subst db'. reflexivity.
    + cbn beta iota zeta in H. apply get_game_view_db in H. subst db'. reflexivity.
Qed.

Lemma move_inv it gid uid row col now db r db' :
  move it gid uid row col now db = (r, db') →
  match r with
  | inl _ => db' = db
  | inr _ =>
      ∃ g u b w,
        s_get Game.id (games db) gid = Some g ∧
        Game.status g = in_progress ∧ uid = Some u ∧
        (∃ p, p ∈ game_players db gid ∧ Player.user_id p = u ∧
              Player.player_order p = Game.turn_no g `mod` 2) ∧
        length (filter (λ g', turn_is gid (Game.turn_no g) g' = true) (games db)) = 1%nat ∧
        (∀ m, m ∈ game_moves db gid → ¬ (Move.row m = row ∧ Move.col m = col)) ∧
        construct_board
          (order_by_move_no
             (game_moves db gid ++ [new_move it db gid u row col (Game.turn_no g)]))
          = inr b ∧
        find_winner b = inr w ∧
        db' = mkDB (users db)
                (finished_games gid w (Game.turn_no g) now
                   (claimed_games gid (Game.turn_no g) (games db)))
                (players db)
                (moves db ++ [new_move it db gid u row col (Game.turn_no g)])
  end.
Proof.
  unfold move, transaction, move_body. unfold mbind at 1. unfold M_bind at 1.
  destruct (move_guards gid uid db) as [[err|e] db1] eqn:Hg.
  { intros [= <- <-]. done. }
  apply move_guards_inv in Hg as [-> Hg].
  destruct (Hg e eq_refl) as (g & u & Hget & Hst & -> & -> & Hp).
  destruct (move_apply _ _ _ _ _ _ _ _) as [[err|v] db2] eqn:Happ.
  { intros [= <- <-]. done. }
  intros [= <- <-].
  apply move_apply_inr in Happ as (u' & b & w & [= <-] & Hcount & Hcell & Hno & Hb & Hw & ->).
  exists g, u, b, w. done.
Qed.

Lemma games_after_move gs g w now :
  NoDup (Game.id <$> gs) → g ∈ gs →
  finished_games (Game.id g) w (Game.turn_no g) now
    (claimed_games (Game.id g) (Game.turn_no g) gs)
  = update_row (Game.id g) (game_after_move w now) gs.
Proof.
  intros Hnd Hg. unfold claimed_games. rewrite (claim_as_update_row gs g Hnd Hg).
  assert (∀ f, (∀ g', Game.id g' = Game.id g → g' ∈ gs → f g' = game_after_move w now g') →
               (∀ g', Game.id (f g') = Game.id g') →
               update_row (Game.id g) f gs = update_row (Game.id g) (game_after_move w now) gs)
    as Hext.
  { intros f Hf _. unfold update_row. apply list_fmap_ext. intros i g' Hg'.
    apply list_elem_of_lookup_2 in Hg'. case_bool_decide; [|done]. by apply Hf. }
  assert (∀ g', Game.id g' = Game.id g → g' ∈ gs → g' = g) as Huniq.
  { intros g' Hid Hg'. pose proof (s_get_unique Game.id gs g Hnd Hg) as H1.
    pose proof (s_get_unique Game.id gs g' Hnd Hg') as H2. rewrite Hid in H2. congruence. }
  unfold finished_games. destruct w as [w|].
  - rewrite update_row_compose by done. apply Hext; [|done].
    intros g' Hid Hg'. done.
  - case_decide as H9.
    + rewrite update_row_compose by done. apply Hext; [|done].
      intros g' Hid Hg'. rewrite (Huniq g' Hid Hg'). unfold game_after_move.
      by rewrite decide_True.
    + apply Hext; [|done].
      intros g' Hid Hg'. rewrite (Huniq g' Hid Hg'). unfold game_after_move.
      by rewrite decide_False.
Qed.

(** [move] with the primary key on [games.id]. *)
Lemma move_inr it gid uid row col now db v db' :
  NoDup (Game.id <$> games db) →
  move it gid uid row col now db = (inr v, db') →
  ∃ g u b w,
    s_get Game.id (games db) gid = Some g ∧
    Game.status g = in_progress ∧ uid = Some u ∧
    (∃ p, p ∈ game_players db gid ∧ Player.user_id p = u ∧
          Player.player_order p = Game.turn_no g `mod` 2) ∧
    (∀ m, m ∈ game_moves db gid → ¬ (Move.row m = row ∧ Move.col m = col)) ∧
    construct_board
      (order_by_move_no
         (game_moves db gid ++ [new_move it db gid u row col (Game.turn_no g)]))
      = inr b ∧
    find_winner b = inr w ∧
    db' = mkDB (users db)
            (update_row gid (game_after_move w now) (games db))
            (players db)
            (moves db ++ [new_move it db gid u row col (Game.turn_no g)]).
Proof.
  intros Hnd H. apply move_inv in H as (g & u & b & w & Hget & Hst & -> & Hp & _ & Hcell & Hb & Hw & ->).
  exists g, u, b, w. repeat (split; [done|]).
  destruct (s_get_Some _ _ _ _ Hget) as [Hin <-].
  by rewrite games_after_move.
Qed.

(** *** The effect of [join_game] and [create_game] *)

Lemma insert_player_inv gid uid order db r db1 :
  insert_player gid uid order db = (r, db1) →
  match r with
  | inl e => ∃ c, e = IntegrityError c
  | inr _ =>
      (∀ p, p ∈ game_players db gid → Player.player_order p ≠ order) ∧
      (∀ p, p ∈ game_players db gid → Player.user_id p ≠ uid) ∧
      db1 = mkDB (users db) (games db)
              (players db ++ [Player.mk (fresh_id (Player.id <$> players db)) gid uid order])
              (moves db)
  end.
Proof.
  unfold insert_player. case_bool_decide as Hslot; [intros [= <- <-]; eauto|].
  case_bool_decide as Huser; [intros [= <- <-]; eauto|].
  intros [= <- <-]. unfold game_players.
  split; [|split; [|done]]; intros p [Hg Hp]%list_elem_of_filter Hx.
  - apply Hslot. apply Exists_exists. exists p. tauto.
  - apply Huser. apply Exists_exists. exists p. tauto.
Qed.

Lemma join_game_inv gid uid now db r db' :
  join_game gid uid now db = (r, db') →
  match r with
  | inl _ => db' = db
  | inr _ =>
      ∃ g, s_get Game.id (games db) gid = Some g ∧
           Game.status g = waiting ∧
           is_Some (s_get User.id (users db) uid) ∧
           (length (game_players db gid) < 2)%nat ∧
           (∀ p, p ∈ game_players db gid → Player.user_id p ≠ uid) ∧
           (∀ p, p ∈ game_players db gid →
                 Player.player_order p ≠ join_order (game_players db gid)) ∧
           db' = mkDB (users db)
                   (if decide (Z.of_nat (length (game_players db gid)) + 1 = 2)
                    then update_row gid (set_started now) (games db)
                    else games db)
                   (players db ++
                      [Player.mk (fresh_id (Player.id <$> players db)) gid uid
                                 (join_order (game_players db gid))])
                   (moves db)
  end.
Proof.
  unfold join_game, transaction.
  unfold mbind, M_bind, query, raise, lift, mret, M_ret. cbn beta iota zeta.
  destruct (s_get Game.id (games db) gid) as [g|] eqn:Hg; [|by intros [= <- <-]].
  destruct (s_get_Some _ _ _ _ Hg) as [Hin Hid]. rewrite Hid.
  case_decide as Hst; [by intros [= <- <-]|].
  destruct (s_get User.id (users db) uid) as [u|] eqn:Hu; [|by intros [= <- <-]].
  case_decide as Hex; [by intros [= <- <-]|].
  case_decide as Hlen; [by intros [= <- <-]|].
  fold (join_order (game_players db gid)).
  destruct (insert_player gid uid _ db) as [[err|[]] db1] eqn:Hins.
  { by intros [= <- <-]. }
  apply insert_player_inv in Hins as (Hslot & Huser & ->).
  unfold update_games. cbn [games users players moves].
  case_decide; intros [= <- <-]; exists g; repeat (split; [done || lia|]);
    unfold update_row; rewrite ?decide_True, ?decide_False by done; done.
Qed.

Lemma create_game_inv it uid db r db' :
  create_game it uid db = (r, db') →
  match r with
  | inl _ => db' = db
  | inr gid =>
      gid = fresh_id (Game.id <$> games db) ∧
      is_Some (s_get User.id (users db) uid) ∧
      db' = mkDB (users db)
              (games db ++ [Game.mk gid waiting it it it None 0])
              (players db ++ [Player.mk (fresh_id (Player.id <$> players db)) gid uid 0])
              (moves db)
  end.
Proof.
  unfold create_game, transaction.
  unfold mbind, M_bind, query, raise, lift, mret, M_ret. cbn beta iota zeta.
  destruct (s_get User.id (users db) uid) as [u|] eqn:Hu; [|by intros [= <- <-]].
  unfold insert_game. cbn beta iota zeta.
  destruct (insert_player _ _ _ _) as [[err|[]] db1] eqn:Hins.
  { by intros [= <- <-]. }
  apply insert_player_inv in Hins as (_ & _ & ->). by intros [= <- <-].
Qed.

(** ** The invariant holds in every reachable state *)

Lemma filter_all {A} (P : A → Prop) `{∀ x, Decision (P x)} (l : list A) :
  (∀ x, x ∈ l → P x) → filter P l = l.
Proof.
  induction l as [|x l IH]; intros Hl; [done|].
  rewrite filter_cons, decide_True by (apply Hl; by left).
  f_equal. apply IH. intros y Hy. apply Hl. by right.
Qed.

Lemma Inv_empty : Inv empty_db.
Proof.
  split; simpl.
  - constructor.
  - intros p Hp. by apply elem_of_nil in Hp.
  - intros m Hm. by apply elem_of_nil in Hm.
  - intros g Hg. by apply elem_of_nil in Hg.
Qed.

Lemma Inv_users db us :
  Inv db → Inv (mkDB us (games db) (players db) (moves db)).
Proof. intros [H1 H2 H3 H4]. by split. Qed.

(** One game's row is rewritten and rows of that game are appended to
    [players] and [moves]. *)
Lemma Inv_update db g f ps_new ms_new :
  Inv db → g ∈ games db →
  (∀ g', Game.id (f g') = Game.id g') →
  (∀ p, p ∈ ps_new → Player.game_id p = Game.id g) →
  (∀ m, m ∈ ms_new → Move.game_id m = Game.id g) →
  game_inv (f g) (game_players db (Game.id g) ++ ps_new)
                 (game_moves db (Game.id g) ++ ms_new) →
  Inv (mkDB (users db) (update_row (Game.id g) f (games db))
            (players db ++ ps_new) (moves db ++ ms_new)).
Proof.
  intros [Hids Hpfk Hmfk Hgames] Hg Hf Hps Hms Hnew.
  assert (∀ gid, game_players (mkDB (users db) (update_row (Game.id g) f (games db))
                                 (players db ++ ps_new) (moves db ++ ms_new)) gid
                 = game_players db gid ++ if decide (gid = Game.id g) then ps_new else [])
    as Hplayers.
  { intros gid. unfold game_players. simpl. rewrite filter_app. f_equal.
    case_decide as Hgid.
    - apply filter_all. intros p Hp. rewrite Hgid. by apply Hps.
    - apply filter_none. intros p Hp Hx. apply Hgid. rewrite <- Hx. by apply Hps. }
  assert (∀ gid, game_moves (mkDB (users db) (update_row (Game.id g) f (games db))
                               (players db ++ ps_new) (moves db ++ ms_new)) gid
                 = game_moves db gid ++ if decide (gid = Game.id g) then ms_new else [])
    as Hmoves.
  { intros gid. unfold game_moves. simpl. rewrite filter_app. f_equal.
    case_decide as Hgid.
    - apply filter_all. intros m Hm. rewrite Hgid. by apply Hms.
    - apply filter_none. intros m Hm Hx. apply Hgid. rewrite <- Hx. by apply Hms. }
  split.
  - simpl. by rewrite update_row_id.
  - simpl. rewrite update_row_id by done. intros p [Hp|Hp]%elem_of_app; [by apply Hpfk|].
    rewrite (Hps p Hp). apply list_elem_of_fmap. by exists g.
  - simpl. rewrite update_row_id by done. intros m [Hm|Hm]%elem_of_app; [by apply Hmfk|].
    rewrite (Hms m Hm). apply list_elem_of_fmap. by exists g.
  - intros g'. rewrite Hplayers, Hmoves. cbn [games].
    intros (g0 & Hg0 & ->)%elem_of_update_row.
    case_bool_decide as Hid.
    + assert (g0 = g) as ->.
      { pose proof (s_get_unique Game.id _ g Hids Hg) as H1.
        pose proof (s_get_unique Game.id _ g0 Hids Hg0) as H2.
        rewrite Hid in H2. congruence. }
      rewrite Hf, !decide_True by done. exact Hnew.
    + rewrite !decide_False by done. rewrite !app_nil_r. by apply Hgames.
Qed.

Lemma Inv_create_game it uid db : Inv db → Inv (create_game it uid db).2.
Proof.
  intros HI. destruct (create_game it uid db) as [[err|gid] db'] eqn:H;
    apply create_game_inv in H; [by subst|].
  destruct H as (-> & _ & ->). simpl.
  destruct HI as [Hids Hpfk Hmfk Hgames].
  set (gid := fresh_id (Game.id <$> games db)).
  assert (gid ∉ Game.id <$> games db) as Hfresh by apply fresh_id_not_in.
  set (pnew := Player.mk _ gid uid 0).
  assert (game_players db gid = []) as Hnop.
  { apply filter_none. intros p Hp Hx. apply Hfresh. rewrite <- Hx. by apply Hpfk. }
  assert (game_moves db gid = []) as Hnom.
  { apply filter_none. intros m Hm Hx. apply Hfresh. rewrite <- Hx. by apply Hmfk. }
  split; simpl.
  - rewrite fmap_app. apply NoDup_app. split; [done|]. split.
    + intros x Hx [->|Hn]%elem_of_cons; [done|]. by apply elem_of_nil in Hn.
    + apply NoDup_singleton.
  - rewrite fmap_app. intros p [Hp|Hp]%elem_of_app; apply elem_of_app.
    + left. by apply Hpfk.
    + right. apply list_elem_of_singleton in Hp as ->. by left.
  - rewrite fmap_app. intros m Hm. apply elem_of_app. left. by apply Hmfk.
  - intros g [Hg|Hg]%elem_of_app.
    + assert (Game.id g ≠ gid) as Hne.
      { intros Hx. apply Hfresh. rewrite <- Hx. apply list_elem_of_fmap. by exists g. }
      unfold game_players, game_moves. simpl. rewrite filter_app.
      rewrite (filter_cons _ pnew), decide_False by (simpl; congruence).
      rewrite filter_nil, app_nil_r. by apply Hgames.
    + apply list_elem_of_singleton in Hg as ->. simpl.
      unfold game_players, game_moves in *. simpl. rewrite filter_app, Hnop, Hnom.
      rewrite (filter_cons _ pnew), decide_True by done. rewrite filter_nil. simpl.
      split; simpl; try done.
      * constructor.
      * left. by exists pnew.
Qed.

Lemma Inv_join_game gid uid now db : Inv db → Inv (join_game gid uid now db).2.
Proof.
  intros HI. destruct (join_game gid uid now db) as [[err|[]] db'] eqn:H;
    apply join_game_inv in H; [by subst|].
  destruct H as (g & Hget & Hst & _ & Hlen & Huser & Hslot & ->). simpl.
  destruct (s_get_Some _ _ _ _ Hget) as [Hg <-].
  destruct (inv_games db HI g Hg) as [Hturn Hno Hcells Hseats Hopen Hwait].
  destruct Hseats as [(p0 & Hps & Ho0 & _)|(p0 & p1 & Hps & _ & _ & _ & Hnw)]; [|done].
  rewrite Hps in *. simpl.
  assert (join_order [p0] = 1) as ->.
  { unfold join_order. rewrite bool_decide_eq_true_2; [done|]. by constructor. }
  rewrite <- (app_nil_r (moves db)).
  apply Inv_update; try done.
  - intros p ->%list_elem_of_singleton. done.
  - intros m Hm. by apply elem_of_nil in Hm.
  - rewrite Hps, app_nil_r. split; simpl; try done.
    + right. eexists p0, _. split; [reflexivity|]. simpl.
      repeat split; try done. apply Huser. by left.
    + intros _. apply Hopen. by rewrite Hst.
Qed.

Lemma game_after_move_id w now g : Game.id (game_after_move w now g) = Game.id g.
Proof. unfold game_after_move. destruct w; [done|]. by case_decide. Qed.

Lemma Inv_move it gid uid row col now db : Inv db → Inv (move it gid uid row col now db).2.
Proof.
  intros HI. destruct (move it gid uid row col now db) as [[err|v] db'] eqn:H.
  { apply move_inv in H. by subst. }
  apply move_inr in H; [|by destruct HI].
  destruct H as (g & u & b & w & Hget & Hst & -> & Hp & Hcell & Hb & Hw & ->). simpl.
  destruct (s_get_Some _ _ _ _ Hget) as [Hg <-].
  destruct (inv_games db HI g Hg) as [Hturn Hno Hcells Hseats Hopen Hwait].
  rewrite <- (app_nil_r (players db)).
  apply Inv_update; try done.
  - apply game_after_move_id.
  - intros p Hp'. by apply elem_of_nil in Hp'.
  - intros m ->%list_elem_of_singleton. done.
  - rewrite app_nil_r.
    destruct (Hopen ltac:(by rewrite Hst)) as [Hwin H9].
    split.
    + rewrite length_app. simpl.
      assert (Game.turn_no (game_after_move w now g) = Game.turn_no g + 1) as ->; [|lia].
      unfold game_after_move. destruct w; [done|]. by case_decide.
    + rewrite fmap_app, Hno, length_app. simpl.
      rewrite Nat.add_1_r, seq_S, fmap_app. simpl. f_equal. f_equal. lia.
    + unfold game_cells. rewrite fmap_app. apply NoDup_app. split; [done|]. split.
      * intros x (m & -> & Hm)%list_elem_of_fmap Hx. simpl in Hx.
        apply list_elem_of_singleton in Hx. injection Hx as Hr Hc.
        by apply (Hcell m Hm).
      * apply NoDup_singleton.
    + destruct Hseats as [(p0 & _ & _ & Hw')|(p0 & p1 & Hps & Ho0 & Ho1 & Hu & _)].
      { rewrite Hst in Hw'. done. }
      right. exists p0, p1. repeat (split; [done|]).
      unfold game_after_move. destruct w; [done|]. case_decide; simpl; [done|].
      by rewrite Hst.
    + unfold game_after_move. destruct w; [done|]. case_decide; [done|]. simpl.
      intros _. split; [done|lia].
    + unfold game_after_move. destruct w; [done|]. case_decide; [done|]. simpl.
      by rewrite Hst.
Qed.

Lemma Inv_exec it c db : Inv db → Inv (exec it c db).
Proof.
  intros HI. destruct c as [name|uid|gid uid now|gid uid row col now]; simpl.
  - by apply (Inv_users db).
  - by apply Inv_create_game.
  - by apply Inv_join_game.
  - by apply Inv_move.
Qed.

Lemma reachable_Inv it db : reachable it db → Inv db.
Proof.
  induction 1 as [|c db _ IH]; [apply Inv_empty|by apply Inv_exec].
Qed.

Lemma reachable_run it cs : reachable it (run it cs).
Proof.
  unfold run. induction cs as [|c cs IH] using rev_ind; [constructor|].
  rewrite foldl_app. simpl. by constructor.
Qed.

Lemma endpoint_reachable_run it cs : endpoint_reachable it (endpoint_run it cs).
Proof.
  unfold endpoint_run. induction cs as [|c cs IH] using rev_ind; [constructor|].
  rewrite foldl_app. simpl. by constructor.
Qed.

Lemma s_get_update_row gid f gs g :
  NoDup (Game.id <$> gs) → (∀ g', Game.id (f g') = Game.id g') →
  s_get Game.id gs gid = Some g →
  s_get Game.id (update_row gid f gs) gid = Some (f g).
Proof.
  intros Hnd Hf Hget. destruct (s_get_Some _ _ _ _ Hget) as [Hg <-].
  rewrite <- (Hf g). apply s_get_unique.
  - by rewrite update_row_id.
  - apply elem_of_update_row. exists g. by rewrite bool_decide_eq_true_2.
Qed.

(** ** The claims about the turn counter and the move log *)

(** C1. In every state the service can reach, the [turn_no] of each game
    equals the number of [Move] rows of that game; a call of [move] that is
    accepted increments [turn_no] by exactly one and adds exactly one
    [Move] row, of that game; a call that raises leaves the store as it
    was. *)
Theorem C1_turn_no_counts_moves it db :
  reachable it db →
  (∀ g, g ∈ games db →
        Game.turn_no g = Z.of_nat (length (game_moves db (Game.id g)))) ∧
  (∀ gid uid row col now v db',
     move it gid uid row col now db = (inr v, db') →
     ∃ g g' m, s_get Game.id (games db) gid = Some g ∧
               s_get Game.id (games db') gid = Some g' ∧
               Game.turn_no g' = Game.turn_no g + 1 ∧
               Move.game_id m = gid ∧
               moves db' = moves db ++ [m] ∧
               game_moves db' gid = game_moves db gid ++ [m]) ∧
  (∀ gid uid row col now e db',
     move it gid uid row col now db = (inl e, db') → db' = db).
Proof.
  intros Hreach. pose proof (reachable_Inv it db Hreach) as HI. split; [|split].
  - intros g Hg. by destruct (inv_games db HI g Hg).
  - intros gid uid row col now v db' H.
    apply move_inr in H; [|by destruct HI].
    destruct H as (g & u & b & w & Hget & Hst & -> & Hp & Hcell & Hb & Hw & ->).
    exists g, (game_after_move w now g), (new_move it db gid u row col (Game.turn_no g)).
    split; [done|]. split.
    { simpl. apply s_get_update_row; [by destruct HI|apply game_after_move_id|done]. }
    split.
    { unfold game_after_move. destruct w; [done|]. by case_decide. }
    split; [done|]. split; [done|]. by apply game_moves_snoc.
  - intros gid uid row col now e db' H. by apply move_inv in H.
Qed.

(** C1 in the state reached after two moves of game 1. *)
Lemma C1_turn_no_counts_moves_witness :
  (∀ g, g ∈ games db_two_moves →
        Game.turn_no g = Z.of_nat (length (game_moves db_two_moves (Game.id g)))) ∧
  (∀ gid uid row col now v db',
     move 0 gid uid row col now db_two_moves = (inr v, db') →
     ∃ g g' m, s_get Game.id (games db_two_moves) gid = Some g ∧
               s_get Game.id (games db') gid = Some g' ∧
               Game.turn_no g' = Game.turn_no g + 1 ∧
               Move.game_id m = gid ∧
               moves db' = moves db_two_moves ++ [m] ∧
               game_moves db' gid = game_moves db_two_moves gid ++ [m]) ∧
  (∀ gid uid row col now e db',
     move 0 gid uid row col now db_two_moves = (inl e, db') → db' = db_two_moves).
Proof.
  apply (C1_turn_no_counts_moves 0 db_two_moves). apply reachable_run.
Defined.

(** C4 (amended). The [move_no] stored with an accepted move is one more
    than the [turn_no] the mover read ([expected_turn + 1]); in every state
    the service can reach, the [move_no] of the moves of a game, in the
    order they were recorded, are 1, 2, ..., [turn_no], with no duplicate
    [move_no] and no duplicate [(row, col)]. *)
Theorem C4_move_no_dense_from_one it db :
  reachable it db →
  (∀ g, g ∈ games db →
        Move.move_no <$> game_moves db (Game.id g)
          = Z.of_nat <$> seq 1 (Z.to_nat (Game.turn_no g)) ∧
        NoDup (Move.move_no <$> game_moves db (Game.id g)) ∧
        NoDup (game_cells (game_moves db (Game.id g)))) ∧
  (∀ gid uid row col now v db',
     move it gid uid row col now db = (inr v, db') →
     ∃ g m, s_get Game.id (games db) gid = Some g ∧
            moves db' = moves db ++ [m] ∧
            Move.game_id m = gid ∧ Move.row m = row ∧ Move.col m = col ∧
            Move.move_no m = Game.turn_no g + 1).
Proof.
  intros Hreach. pose proof (reachable_Inv it db Hreach) as HI. split.
  - intros g Hg. destruct (inv_games db HI g Hg) as [Hturn Hno Hcells _ _ _].
    rewrite Hturn, Nat2Z.id. split; [done|]. split; [|done].
    rewrite Hno. apply NoDup_fmap; [apply Nat2Z.inj'|apply NoDup_seq].
  - intros gid uid row col now v db' H.
    apply move_inr in H; [|by destruct HI].
    destruct H as (g & u & b & w & Hget & Hst & -> & Hp & Hcell & Hb & Hw & ->).
    exists g, (new_move it db gid u row col (Game.turn_no g)). done.
Qed.

(** C4 in the state reached after two moves of game 1. *)
Lemma C4_move_no_dense_from_one_witness :
  (∀ g, g ∈ games db_two_moves →
        Move.move_no <$> game_moves db_two_moves (Game.id g)
          = Z.of_nat <$> seq 1 (Z.to_nat (Game.turn_no g)) ∧
        NoDup (Move.move_no <$> game_moves db_two_moves (Game.id g)) ∧
        NoDup (game_cells (game_moves db_two_moves (Game.id g)))) ∧
  (∀ gid uid row col now v db',
     move 0 gid uid row col now db_two_moves = (inr v, db') →
     ∃ g m, s_get Game.id (games db_two_moves) gid = Some g ∧
            moves db' = moves db_two_moves ++ [m] ∧
            Move.game_id m = gid ∧ Move.row m = row ∧ Move.col m = col ∧
            Move.move_no m = Game.turn_no g + 1).
Proof.
  apply (C4_move_no_dense_from_one 0 db_two_moves). apply reachable_run.
Defined.

(** C4, as stated, fails on the first move of a game: the mover reads
    [turn_no = 0] and the move is stored with [move_no = 1], so that the
    stored numbers are 1..1 and not 0..0. *)
Lemma C4_counterexample :
  ∃ g v db' m,
    reachable 0 db_started ∧
    s_get Game.id (games db_started) 1 = Some g ∧
    move 0 1 (Some 1) 0 0 200 db_started = (inr v, db') ∧
    game_moves db' 1 = [m] ∧
    Move.move_no m ≠ Game.turn_no g ∧
    Move.move_no <$> game_moves db' 1 ≠ Z.of_nat <$> seq 0 1.
Proof.
  destruct (move 0 1 (Some 1) 0 0 200 db_started) as [r db'] eqn:H.
  vm_compute in H. injection H as <- <-.
  do 4 eexists. split; [apply reachable_run|].
  split; [vm_compute; reflexivity|]. split; [reflexivity|].
  split; [vm_compute; reflexivity|].
  split; [by vm_compute|by vm_compute].
Qed.

(** ** The turn claim *)

Lemma getitem_error {A} (l : list A) i e : getitem l i = inl e → e = IndexError.
Proof. unfold getitem. destruct (_ ≫= _); [done|]. by intros [= <-]. Qed.

Lemma setitem_error {A} (l : list A) i x e : setitem l i x = inl e → e = IndexError.
Proof. unfold setitem. destruct (py_index _ _); [done|]. by intros [= <-]. Qed.

Lemma board_get_error b rc e : board_get b rc = inl e → e = IndexError.
Proof.
  unfold board_get. destruct (getitem b rc.1) as [e'|r] eqn:H1; simpl.
  - intros [= <-]. by eapply getitem_error.
  - apply getitem_error.
Qed.

Lemma board_set_error b row col v e : board_set b row col v = inl e → e = IndexError.
Proof.
  unfold board_set. destruct (getitem b row) as [e'|r] eqn:H1; simpl.
  { intros [= <-]. by eapply getitem_error. }
  destruct (setitem r col v) as [e'|r'] eqn:H2; simpl.
  { intros [= <-]. by eapply setitem_error. }
  apply setitem_error.
Qed.

Lemma construct_board_error ms e : construct_board ms = inl e → e = IndexError.
Proof.
  unfold construct_board. generalize empty_board.
  induction (_ <$> ms) as [|[[row col] u] cells IH]; intros b; [done|].
  cbn [construct_board_loop]. destruct (board_set b row col (Some u)) as [e'|b'] eqn:H1; simpl.
  - intros [= <-]. by eapply board_set_error.
  - apply IH.
Qed.

Lemma condition_ids_error b c e : condition_ids b c = inl e → e = IndexError.
Proof.
  induction c as [|rc c IH]; [done|]. cbn [condition_ids].
  destruct (board_get b rc) as [e'|x] eqn:H1; simpl.
  { intros [= <-]. by eapply board_get_error. }
  destruct (condition_ids b c) as [e'|xs] eqn:H2; simpl; [|done].
  intros [= <-]. by apply IH.
Qed.

Lemma find_winner_error b e : find_winner b = inl e → e = IndexError.
Proof.
  unfold find_winner. induction VICTORY_CONDITIONS as [|c cs IH]; [done|].
  cbn [find_winner_loop].
  destruct (condition_ids b c) as [e'|ids] eqn:H1; simpl.
  { intros [= <-]. by eapply condition_ids_error. }
  destruct (getitem ids 0) as [e'|[u|]] eqn:H2; simpl.
  - intros [= <-]. by eapply getitem_error.
  - case_bool_decide; [done|apply IH].
  - apply IH.
Qed.

Lemma insert_move_error it gid uid no row col db e db1 :
  insert_move it gid uid no row col db = (inl e, db1) → ∃ c, e = IntegrityError c.
Proof.
  unfold insert_move. destruct uid; [|intros [= <- _]; eauto].
  repeat case_bool_decide; intros [= <- _] || done; eauto.
Qed.

Lemma get_game_view_error gid db e db1 :
  get_game_view gid db = (inl e, db1) →
  e = HTTPException 404 "Game not Found" ∨ e = IndexError.
Proof.
  unfold get_game_view, mbind, M_bind, query, raise, lift, mret, M_ret. cbn beta iota zeta.
  destruct (s_get Game.id (games db) gid); [|intros [= <- _]; by left].
  destruct (construct_board _) as [e'|b] eqn:Hb; [|done].
  intros [= <- _]. right. by eapply construct_board_error.
Qed.

(** The errors of [move_apply]: [Conflict] is the answer to a row count
    other than one, and to nothing else. *)
Lemma move_apply_inl it gid uid row col now e db err db1 :
  move_apply it gid uid row col now e db = (inl err, db1) →
  err = Conflict ↔
  Z.of_nat (length (filter (λ g, turn_is gid e g = true) (games db))) ≠ 1.
Proof.
  unfold move_apply, claim_turn, revert_turn, update_games.
  unfold mbind, M_bind, query, raise, lift, mret, M_ret. cbn beta iota zeta.
  fold (turn_is gid e).
  case_decide as Hcount.
  { intros [= <- _]. done. }
  intros H. split; [|done]. intros ->. exfalso. revert H.
  set (db0 := mkDB _ _ _ _).
  destruct (head _); [done|].
  destruct (insert_move _ _ _ _ _ _ _) as [[err|[]] db2] eqn:Hins.
  { apply insert_move_error in Hins as [c ->]. done. }
  destruct (construct_board _) as [err|b] eqn:Hb.
  { apply construct_board_error in Hb as ->. done. }
  destruct (find_winner b) as [err|w] eqn:Hw.
  { apply find_winner_error in Hw as ->. done. }
  destruct w as [w|]; [|case_decide]; cbn beta iota zeta;
    intros [Hv|Hv]%get_game_view_error; done.
Qed.

Lemma move_apply_conflict it gid uid row col now e db :
  Z.of_nat (length (filter (λ g, turn_is gid e g = true) (games db))) ≠ 1 →
  transaction (move_apply it gid uid row col now e) db = (inl Conflict, db).
Proof.
  intros Hc. unfold transaction.
  destruct (move_apply _ _ _ _ _ _ _ db) as [[err|v] d1] eqn:H.
  - apply move_apply_inl in H. f_equal. f_equal. by apply H.
  - apply move_apply_inr in H as (_ & _ & _ & _ & Hone & _). lia.
Qed.

(** Once a move has been accepted for a turn slot, the slot is taken. *)
Lemma move_apply_slot_taken it gid e db uid row col now v db' :
  NoDup (Game.id <$> games db) →
  transaction (move_apply it gid uid row col now e) db = (inr v, db') →
  length (filter (λ g, turn_is gid e g = true) (games db)) = 1%nat ∧
  ∀ uid' row' col' now',
    transaction (move_apply it gid uid' row' col' now' e) db' = (inl Conflict, db').
Proof.
  intros Hnd H. unfold transaction in H.
  destruct (move_apply _ _ _ _ _ _ _ db) as [[err|v'] d1] eqn:Happ; [done|].
  injection H as <- <-.
  apply move_apply_inr in Happ as (u & b & w & -> & Hone & _ & _ & _ & _ & ->).
  split; [done|].
  intros uid' row' col' now'. apply move_apply_conflict. cbn [games].
  destruct (filter _ (games db)) as [|g [|]] eqn:Hf; try done.
  assert (g ∈ filter (λ g, turn_is gid e g = true) (games db)) as Hg
      by (rewrite Hf; by left).
  apply list_elem_of_filter in Hg as [Hg1 Hg].
  apply andb_true_iff in Hg1 as [Hid He].
  apply bool_decide_eq_true in Hid. apply bool_decide_eq_true in He. subst gid e.
  rewrite games_after_move by done.
  rewrite filter_none; [done|].
  intros g' (g0 & Hg0 & ->)%elem_of_update_row Ht.
  apply andb_true_iff in Ht as [Hid Ht].
  apply bool_decide_eq_true in Hid. apply bool_decide_eq_true in Ht.
  case_bool_decide as Hid0.
  + assert (g0 = g) as ->.
    { pose proof (s_get_unique Game.id _ g Hnd Hg) as H1.
      pose proof (s_get_unique Game.id _ g0 Hnd Hg0) as H2.
      rewrite Hid0 in H2. congruence. }
    revert Ht. unfold game_after_move. destruct w; simpl; [lia|].
    case_decide; simpl; lia.
  + done.
Qed.

(** *** Two requests that read the same state *)

Lemma move_interleaved_same it gid uid row col now db :
  move_interleaved it db gid uid row col now db = move it gid uid row col now db.
Proof.
  unfold move_interleaved, move, transaction, move_body. unfold mbind at 1. unfold M_bind at 1.
  destruct (move_guards gid uid db) as [[err|e] db1] eqn:Hg; [done|].
  apply move_guards_inv in Hg as [-> _]. done.
Qed.

(** Both requests pass the guards on the same snapshot; the store takes
    their claims one after the other: the second is answered [Conflict]. *)
Lemma move_interleaved_one_winner it snapshot gid uid row col now uid' row' col' now' v db' :
  NoDup (Game.id <$> games snapshot) →
  move_interleaved it snapshot gid uid row col now snapshot = (inr v, db') →
  (∃ e, (move_guards gid uid' snapshot).1 = inr e) →
  move_interleaved it snapshot gid uid' row' col' now' db' = (inl Conflict, db').
Proof.
  intros Hnd H [e' He']. unfold move_interleaved in *.
  destruct (move_guards gid uid snapshot) as [[err|e] db1] eqn:Hg; [done|].
  destruct (move_guards gid uid' snapshot) as [[err|e2] db2] eqn:Hg'; [done|].
  apply move_guards_inv in Hg as [_ Hg]. apply move_guards_inv in Hg' as [_ Hg'].
  destruct (Hg e eq_refl) as (g & u & Hget & _ & _ & -> & _).
  destruct (Hg' e2 eq_refl) as (g2 & u2 & Hget2 & _ & _ & -> & _).
  rewrite Hget in Hget2. injection Hget2 as <-.
  by apply (move_apply_slot_taken it gid (Game.turn_no g) snapshot uid row col now v db').
Qed.

(** C2. The turn claim of [move] is the conditional update that advances
    [turn_no] from [expected_turn] to [expected_turn + 1].  The attempt
    is answered [Conflict] if and only if that update does not affect
    exactly one row, and then nothing is committed: the store is
    unchanged.  With the primary key on [games.id], once an attempt on a
    turn slot has been accepted, every further attempt on the same slot
    is answered [Conflict]: at most one move is accepted per turn slot. *)
Theorem C2_turn_claim it gid e db :
  NoDup (Game.id <$> games db) →
  let rowcount := Z.of_nat (length (filter (λ g, turn_is gid e g = true) (games db))) in
  (claim_turn gid e db).1 = inr rowcount ∧
  (∀ uid row col now,
     (transaction (move_apply it gid uid row col now e) db).1 = inl Conflict
     ↔ rowcount ≠ 1) ∧
  (∀ uid row col now,
     rowcount ≠ 1 →
     transaction (move_apply it gid uid row col now e) db = (inl Conflict, db)) ∧
  (∀ uid row col now v db',
     transaction (move_apply it gid uid row col now e) db = (inr v, db') →
     rowcount = 1 ∧
     ∀ uid' row' col' now',
       transaction (move_apply it gid uid' row' col' now' e) db' = (inl Conflict, db')).
Proof.
  intros Hnd rowcount. split; [reflexivity|]. split; [|split].
  - intros uid row col now. split.
    + unfold transaction.
      destruct (move_apply _ _ _ _ _ _ _ db) as [[err|v] d1] eqn:H; simpl; [|done].
      intros [= ->]. apply move_apply_inl in H. by apply H.
    + intros Hc. by rewrite move_apply_conflict.
  - intros uid row col now Hc. by apply move_apply_conflict.
  - intros uid row col now v db' H.
    destruct (move_apply_slot_taken it gid e db uid row col now v db' Hnd H) as [Hone Htaken].
    split; [unfold rowcount; lia|exact Htaken].
Qed.

(** C2 for the first turn slot of game 1, just started. *)
Lemma C2_turn_claim_witness :
  let rowcount :=
    Z.of_nat (length (filter (λ g, turn_is 1 0 g = true) (games db_started))) in
  (claim_turn 1 0 db_started).1 = inr rowcount ∧
  (∀ uid row col now,
     (transaction (move_apply 0 1 uid row col now 0) db_started).1 = inl Conflict
     ↔ rowcount ≠ 1) ∧
  (∀ uid row col now,
     rowcount ≠ 1 →
     transaction (move_apply 0 1 uid row col now 0) db_started = (inl Conflict, db_started)) ∧
  (∀ uid row col now v db',
     transaction (move_apply 0 1 uid row col now 0) db_started = (inr v, db') →
     rowcount = 1 ∧
     ∀ uid' row' col' now',
       transaction (move_apply 0 1 uid' row' col' now' 0) db' = (inl Conflict, db')).
Proof.
  apply (C2_turn_claim 0 1 0 db_started). vm_compute. repeat constructor.
  intros H. inversion H.
Defined.


(** ** Compensation *)

Lemma set_turn_no_same g : set_turn_no (Game.turn_no g) g = g.
Proof. by destruct g. Qed.

(** C3 (the code departs from the claim). The update that [move] issues
    when the cell is occupied is conditioned on [turn_no == expected_turn]
    and writes [expected_turn]: it never changes a row.  After the claim
    the counter is [expected_turn + 1], so the update matches no row and the
    counter stays advanced inside the transaction; it is the rollback of
    the transaction, on the exception, that restores [expected_turn].  The
    caller does get "Cell already occupied", and the same player can then
    play a free cell in the same turn slot. *)
Theorem C3_revert_turn_changes_nothing :
  (∀ gid e db, (revert_turn gid e db).2 = db) ∧
  (claim_turn 1 2 db_two_moves).1 = inr 1 ∧
  Game.turn_no <$> s_get Game.id (games (claim_turn 1 2 db_two_moves).2) 1 = Some 3 ∧
  revert_turn 1 2 (claim_turn 1 2 db_two_moves).2
    = (inr 0, (claim_turn 1 2 db_two_moves).2) ∧
  move_body 0 1 (Some 1) 0 1 300 db_two_moves
    = (inl CellOccupied, (claim_turn 1 2 db_two_moves).2) ∧
  move 0 1 (Some 1) 0 1 300 db_two_moves = (inl CellOccupied, db_two_moves) ∧
  Game.turn_no <$> s_get Game.id (games db_two_moves) 1 = Some 2 ∧
  ∃ v db', move 0 1 (Some 1) 1 1 301 db_two_moves = (inr v, db') ∧
           Move.move_no <$> game_moves db' 1 = [1; 2; 3].
Proof.
  split.
  { intros gid e db. unfold revert_turn, update_games. simpl.
    destruct db as [us gs ps ms]. simpl. f_equal.
    rewrite <- (list_fmap_id gs) at 2. apply list_fmap_ext. intros i g _. simpl.
    destruct (bool_decide (Game.id g = gid)); simpl; [|done].
    case_bool_decide as He; [|done]. rewrite <- He. apply set_turn_no_same. }
  repeat (split; [vm_compute; reflexivity|]).
  destruct (move 0 1 (Some 1) 1 1 301 db_two_moves) as [r db'] eqn:H.
  vm_compute in H. injection H as <- <-.
  do 2 eexists. split; [reflexivity|vm_compute; reflexivity].
Qed.

(** With the primary key, the update of lines 163-167 finds no row after a
    successful claim. *)
Lemma revert_turn_after_claim gid e db db1 :
  NoDup (Game.id <$> games db) →
  claim_turn gid e db = (inr 1, db1) →
  (revert_turn gid e db1).1 = inr 0.
Proof.
  intros Hnd. unfold claim_turn, revert_turn, update_games. intros [= Hc <-].
  assert (length (filter (λ g, turn_is gid e g = true) (games db)) = 1%nat) as Hone
      by (unfold turn_is; lia).
  clear Hc. cbn [fst games]. do 2 f_equal.
  enough (length (filter (λ g, turn_is gid e g = true)
                         (claimed_games gid e (games db))) = 0%nat) as Hz.
  { unfold claimed_games, turn_is in Hz. by rewrite Hz. }
  destruct (filter (λ g, turn_is gid e g = true) (games db)) as [|g [|]] eqn:Hf;
    try done.
  assert (g ∈ filter (λ g, turn_is gid e g = true) (games db)) as Hg
      by (rewrite Hf; by left).
  apply list_elem_of_filter in Hg as [Hg1 Hg].
  apply andb_true_iff in Hg1 as [Hid He].
  apply bool_decide_eq_true in Hid. apply bool_decide_eq_true in He. subst gid e.
  unfold claimed_games. rewrite claim_as_update_row by done.
  rewrite filter_none; [done|].
  intros g' (g0 & Hg0 & ->)%elem_of_update_row Ht.
  apply andb_true_iff in Ht as [Hid Ht].
  apply bool_decide_eq_true in Hid. apply bool_decide_eq_true in Ht.
  case_bool_decide as Hid0; [|done].
  assert (g0 = g) as ->.
  { pose proof (s_get_unique Game.id _ g Hnd Hg) as H1.
    pose proof (s_get_unique Game.id _ g0 Hnd Hg0) as H2.
    rewrite Hid0 in H2. congruence. }
  simpl in Ht. lia.
Qed.

(** A move that passes the guards and wins the claim, but targets an
    occupied cell, is answered "Cell already occupied", and the store is as
    it was before the call: the turn slot is still open. *)
Lemma move_cell_occupied it gid uid row col now db e m :
  NoDup (Game.id <$> games db) →
  (move_guards gid uid db).1 = inr e →
  m ∈ game_moves db gid → Move.row m = row → Move.col m = col →
  move it gid uid row col now db = (inl CellOccupied, db).
Proof.
  intros Hnd Hguards Hm Hrow Hcol.
  unfold move, transaction, move_body. unfold mbind at 1. unfold M_bind at 1.
  destruct (move_guards gid uid db) as [[err|e'] db1] eqn:Hg; [done|].
  simpl in Hguards. injection Hguards as ->.
  apply move_guards_inv in Hg as [-> Hg].
  destruct (Hg e eq_refl) as (g & u & Hget & _ & _ & -> & _).
  destruct (s_get_Some _ _ _ _ Hget) as [Hin <-].
  unfold move_apply, claim_turn, revert_turn, update_games.
  unfold mbind, M_bind, query, raise, lift, mret, M_ret. cbn beta iota zeta.
  pose proof (turn_is_filter _ g Hnd Hin) as Hone. unfold turn_is in Hone.
  rewrite Hone. rewrite decide_False by (simpl; lia).
  set (db1 := mkDB _ _ _ _).
  change (game_moves db1 (Game.id g)) with (game_moves db (Game.id g)).
  destruct (head _) as [m0|] eqn:Hocc; [done|].
  exfalso. apply head_None in Hocc.
  assert (m ∈ filter (λ m, Move.row m = row ∧ Move.col m = col)
                     (game_moves db (Game.id g))) as Hf
      by (by apply list_elem_of_filter).
  rewrite Hocc in Hf. by apply elem_of_nil in Hf.
Qed.

(** ** Joining *)

(** C5. In every state the service can reach, [join_game] succeeds only on
    a game in status [waiting], for a user that exists and holds no seat of
    that game, and with at most one seat occupied (exactly one, the
    creator's seat 0); the joiner then takes seat 1, two seats are
    occupied, and the game is [in_progress] with [started_at] set to the
    time of the call. *)
Theorem C5_join_game it db gid uid now db' :
  reachable it db →
  join_game gid uid now db = (inr (), db') →
  ∃ g p0,
    s_get Game.id (games db) gid = Some g ∧
    Game.status g = waiting ∧
    is_Some (s_get User.id (users db) uid) ∧
    (∀ p, p ∈ game_players db gid → Player.user_id p ≠ uid) ∧
    (length (game_players db gid) ≤ 1)%nat ∧
    game_players db gid = [p0] ∧ Player.player_order p0 = 0 ∧
    game_players db' gid
      = [p0; Player.mk (fresh_id (Player.id <$> players db)) gid uid 1] ∧
    ∃ g', s_get Game.id (games db') gid = Some g' ∧
          Game.status g' = in_progress ∧ Game.started_at g' = now.
Proof.
  intros Hreach H. pose proof (reachable_Inv it db Hreach) as HI.
  apply join_game_inv in H as (g & Hget & Hst & Hu & Hlen & Huser & Hslot & ->).
  destruct (s_get_Some _ _ _ _ Hget) as [Hg <-].
  destruct (inv_games db HI g Hg) as [_ _ _ Hseats _ _].
  destruct Hseats as [(p0 & Hps & Ho0 & _)|(p0 & p1 & Hps & _ & _ & _ & Hnw)]; [|done].
  exists g, p0. rewrite Hps in *. simpl.
  assert (join_order [p0] = 1) as ->.
  { unfold join_order. rewrite bool_decide_eq_true_2; [done|]. by constructor. }
  repeat (split; [done|]). split.
  - unfold game_players in *. simpl. rewrite filter_app, Hps.
    rewrite filter_cons, decide_True by done. done.
  - exists (set_started now g). split; [|done].
    apply s_get_update_row; [by destruct HI|done|done].
Qed.

(** C5 for user 2 joining game 1, created by user 1. *)
Lemma C5_join_game_witness :
  ∃ g p0,
    s_get Game.id (games db_waiting) 1 = Some g ∧
    Game.status g = waiting ∧
    is_Some (s_get User.id (users db_waiting) 2) ∧
    (∀ p, p ∈ game_players db_waiting 1 → Player.user_id p ≠ 2) ∧
    (length (game_players db_waiting 1) ≤ 1)%nat ∧
    game_players db_waiting 1 = [p0] ∧ Player.player_order p0 = 0 ∧
    game_players db_started 1
      = [p0; Player.mk (fresh_id (Player.id <$> players db_waiting)) 1 2 1] ∧
    ∃ g', s_get Game.id (games db_started) 1 = Some g' ∧
          Game.status g' = in_progress ∧ Game.started_at g' = 100.
Proof.
  apply (C5_join_game 0 db_waiting 1 2 100 db_started).
  - apply reachable_run.
  - reflexivity.
Defined.

(** ** Through the endpoint *)

Lemma router_move_inv it gid request now db r db' :
  router_move it gid request now db = (r, db') →
  match r with
  | inl _ => db' = db
  | inr _ =>
      (0 ≤ req_row request ≤ 2 ∧ 0 ≤ req_col request ≤ 2) ∧
      move it gid (Some (req_user_id request)) (req_row request) (req_col request) now db
        = (r, db')
  end.
Proof.
  unfold router_move, MoveRequest_valid.
  destruct (bool_decide _ && bool_decide _) eqn:Hv.
  - intros H. destruct r as [e|v]; [by apply move_inv in H|].
    apply andb_true_iff in Hv as [Hr Hc].
    apply bool_decide_eq_true in Hr. apply bool_decide_eq_true in Hc. split; [lia|done].
  - by intros [= <- <-].
Qed.

Lemma endpoint_exec_inv it c db :
  endpoint_exec it c db = db ∨
  (∃ c', endpoint_exec it c db = exec it c' db ∧
         match c' with
         | SubmitMove _ _ row col _ => 0 ≤ row ≤ 2 ∧ 0 ≤ col ≤ 2
         | _ => True
         end).
Proof.
  destruct c as [name|uid|gid uid now|gid request now]; simpl.
  - destruct (CreateUserRequest_valid name); [|by left].
    right. by exists (CreateUser name).
  - right. by exists (CreateGame uid).
  - right. by exists (JoinGame gid uid now).
  - destruct (router_move it gid request now db) as [[e|v] db'] eqn:H;
      apply router_move_inv in H.
    + by left.
    + destruct H as [Hrange H]. right.
      exists (SubmitMove gid (Some (req_user_id request)) (req_row request)
                         (req_col request) now).
      simpl. by rewrite H.
Qed.

Lemma endpoint_reachable_reachable it db :
  endpoint_reachable it db → reachable it db.
Proof.
  induction 1 as [|c db _ IH]; [constructor|].
  destruct (endpoint_exec_inv it c db) as [->|(c' & -> & _)]; [done|by constructor].
Qed.

Lemma moves_on_board_exec it c db :
  match c with
  | SubmitMove _ _ row col _ => 0 ≤ row ≤ 2 ∧ 0 ≤ col ≤ 2
  | _ => True
  end →
  moves_on_board db → moves_on_board (exec it c db).
Proof.
  intros Hc Hdb. destruct c as [name|uid|gid uid now|gid uid row col now]; simpl.
  - done.
  - destruct (create_game it uid db) as [[e|g] db'] eqn:H; apply create_game_inv in H.
    + by subst.
    + by destruct H as (_ & _ & ->).
  - destruct (join_game gid uid now db) as [[e|[]] db'] eqn:H; apply join_game_inv in H.
    + by subst.
    + by destruct H as (g & _ & _ & _ & _ & _ & _ & ->).
  - destruct (move it gid uid row col now db) as [[e|v] db'] eqn:H; apply move_inv in H.
    + by subst.
    + destruct H as (g & u & b & w & _ & _ & _ & _ & _ & _ & _ & _ & ->). simpl.
      intros m [Hm|Hm%list_elem_of_singleton]%elem_of_app; [by apply Hdb|by subst m].
Qed.

Lemma endpoint_reachable_on_board it db :
  endpoint_reachable it db → moves_on_board db.
Proof.
  induction 1 as [|c db _ IH].
  - intros m Hm. by apply elem_of_nil in Hm.
  - destruct (endpoint_exec_inv it c db) as [->|(c' & -> & Hc')]; [done|].
    by apply moves_on_board_exec.
Qed.

Lemma in_grid_all_cells rc : in_grid rc → rc ∈ all_cells.
Proof.
  destruct rc as [r c]. intros [Hr Hc]. simpl in *.
  assert (r = 0 ∨ r = 1 ∨ r = 2) as Hr' by lia.
  assert (c = 0 ∨ c = 1 ∨ c = 2) as Hc' by lia.
  unfold all_cells.
  destruct Hr' as [Hr'|[Hr'|Hr']]; destruct Hc' as [Hc'|[Hc'|Hc']]; subst r c;
    repeat (first [by left | right]).
Qed.

(** Nine moves on distinct cells of the board fill it. *)
Lemma nine_moves_fill ms b :
  length ms = 9%nat → NoDup (game_cells ms) →
  (∀ m, m ∈ ms → 0 ≤ Move.row m ≤ 2 ∧ 0 ≤ Move.col m ≤ 2) →
  construct_board (order_by_move_no ms) = inr b →
  board_full b.
Proof.
  intros Hlen Hnd Hrange Hb rc Hrc.
  destruct (construct_board_spec _ _ Hb) as (Hgrid & _ & Hfill).
  assert (game_cells ms ≡ₚ all_cells) as Hperm.
  { apply submseteq_length_Permutation.
    - apply NoDup_submseteq; [done|].
      intros x (m & -> & Hm)%list_elem_of_fmap. apply in_grid_all_cells.
      destruct (Hrange m Hm). split; simpl; lia.
    - unfold game_cells. rewrite length_fmap, Hlen. simpl. lia. }
  assert (rc ∈ game_cells ms) as Hin.
  { rewrite Hperm. by apply in_grid_all_cells. }
  apply list_elem_of_fmap in Hin as (m & -> & Hm).
  destruct (Hrange m Hm) as [Hr Hc].
  assert (m ∈ order_by_move_no ms) as Hm'.
  { unfold order_by_move_no. by rewrite merge_sort_Permutation. }
  destruct (Hfill m Hm' ltac:(lia) ltac:(lia)) as [u Hu].
  exists u. rewrite board_get_cell by done. simpl. by rewrite Hu.
Qed.

(** ** Draws *)

(** C6 (amended). In every state the service can reach, when a move is
    accepted: if it is the 9th move of the game and no triple of the
    board is filled by one user, the game becomes [finished],
    [completed_at] is the time of the call and [winner_id] stays absent;
    and if the game becomes [finished] with no winner (a draw), then no
    triple is filled by one user and the move was the 9th
    ([turn_no = 9]), and all 9 cells of the board are filled provided
    every recorded move has [row] and [col] in 0..2.  That proviso holds
    in every state reached through the endpoints, where [MoveRequest]
    bounds [row] and [col]. *)
Theorem C6_draw it db gid now :
  reachable it db →
  (∀ uid row col v db',
     move it gid uid row col now db = (inr v, db') →
     ∃ g' b,
       s_get Game.id (games db') gid = Some g' ∧
       construct_board (order_by_move_no (game_moves db' gid)) = inr b ∧
       Game.turn_no g' = Z.of_nat (length (game_moves db' gid)) ∧
       (Game.turn_no g' = 9 → no_line b →
        Game.status g' = finished ∧ Game.completed_at g' = now ∧
        Game.winner_id g' = None) ∧
       (Game.status g' = finished → Game.winner_id g' = None →
        no_line b ∧ Game.turn_no g' = 9 ∧ (moves_on_board db' → board_full b))) ∧
  (endpoint_reachable it db →
   ∀ request v db',
     router_move it gid request now db = (inr v, db') → moves_on_board db').
Proof.
  intros Hreach. pose proof (reachable_Inv it db Hreach) as HI. split.
  2:{ intros Hend request v db' H.
      pose proof (endpoint_reachable_on_board it _
                    (endpoint_reachable_step it (PostMove gid request now) db Hend))
        as Hboard.
      simpl in Hboard. by rewrite H in Hboard. }
  intros uid row col v db0 H.
  pose proof (Inv_move it gid uid row col now db HI) as HI'.
  rewrite H in HI'. simpl in HI'.
  apply move_inr in H; [|by destruct HI].
  destruct H as (g & u & b & w & Hget & Hst & -> & Hp & Hcell & Hb & Hw & ->).
  destruct (s_get_Some _ _ _ _ Hget) as [Hg Hid].
  set (m := new_move it db gid u row col (Game.turn_no g)) in *.
  set (db' := mkDB _ _ _ _) in *.
  assert (game_moves db' gid = game_moves db gid ++ [m]) as Hms
      by (by apply game_moves_snoc).
  assert (s_get Game.id (games db') gid = Some (game_after_move w now g)) as Hget'.
  { simpl. apply s_get_update_row; [by destruct HI|apply game_after_move_id|done]. }
  destruct (s_get_Some _ _ _ _ Hget') as [Hg' Hid'].
  destruct (inv_games db' HI' _ Hg') as [Hturn' _ Hcells' _ _ _].
  rewrite Hid' in Hturn', Hcells'.
  destruct (inv_games db HI g Hg) as [Hturn _ _ _ Hopen _].
  destruct (Hopen ltac:(by rewrite Hst)) as [Hwin H9].
  destruct (construct_board_spec _ _ Hb) as (Hgrid & _ & _).
  destruct (find_winner_spec b Hgrid) as (w' & Hw' & Hspec).
  rewrite Hw in Hw'. injection Hw' as <-.
  exists (game_after_move w now g), b. rewrite Hms.
  split; [done|]. split; [done|]. split; [by rewrite <- Hms|].
  unfold game_after_move in *. destruct w as [w|].
  - destruct Hspec as (pre & c & post & Heq & Hf & _). split.
    + intros _ Hno. exfalso. apply (Hno c w); [|done].
      rewrite Heq. apply elem_of_app. right. by left.
    + simpl. done.
  - case_decide as Hnine; simpl in *.
    + split; [done|]. intros _ _. split; [exact Hspec|]. split; [lia|].
      intros Hboard.
      apply (nine_moves_fill (game_moves db gid ++ [m])); [|by rewrite <- Hms| |done].
      * rewrite <- Hms. lia.
      * intros m' Hm'. rewrite <- Hms in Hm'.
        apply list_elem_of_filter in Hm' as [_ Hm']. by apply Hboard.
    + split; [lia|]. rewrite Hst. done.
Qed.

(** C6 for the ninth move, at (2,2), of the draw of the test suite,
    submitted through the endpoint. *)
Lemma C6_draw_witness :
  ∃ g' b,
    s_get Game.id
      (games (router_move 0 1 (mkMoveRequest 1 2 2) 208 db_eight_moves).2) 1 = Some g' ∧
    construct_board
      (order_by_move_no
         (game_moves (router_move 0 1 (mkMoveRequest 1 2 2) 208 db_eight_moves).2 1))
      = inr b ∧
    Game.status g' = finished ∧ Game.completed_at g' = 208 ∧ Game.winner_id g' = None ∧
    no_line b ∧ Game.turn_no g' = 9 ∧ board_full b.
Proof.
  destruct (C6_draw 0 db_eight_moves 1 208
              (endpoint_reachable_reachable 0 _ (endpoint_reachable_run 0 posts_eight_moves)))
    as [Hmove Hrouter].
  destruct (router_move 0 1 (mkMoveRequest 1 2 2) 208 db_eight_moves) as [r db'] eqn:H.
  assert (∃ v, r = inr v) as [v ->].
  { vm_compute in H. injection H as <- _. eauto. }
  pose proof (Hrouter (endpoint_reachable_run 0 posts_eight_moves) _ v db' H) as Hboard.
  apply router_move_inv in H as [_ H].
  destruct (Hmove _ _ _ v db' H) as (g' & b & Hget & Hb & Hturn & Hninth & Hdraw).
  exists g', b. simpl. split; [exact Hget|]. split; [exact Hb|].
  assert (Game.status g' = finished ∧ Game.winner_id g' = None) as [Hst Hw].
  { clear -Hget H. vm_compute in H. injection H as _ <-.
    vm_compute in Hget. injection Hget as <-. done. }
  destruct (Hdraw Hst Hw) as (Hno & H9 & Hfull).
  destruct (Hninth H9 Hno) as (_ & Hc & _).
  repeat (split; [done|]). by apply Hfull.
Defined.

(** C6, as stated, fails for [Service.move] called with a negative index:
    after eight moves that leave (2,2) empty, user 1 plays (-3,-3), which
    is the cell (0,0) again; the move is accepted as the 9th, the game is
    finished with no winner, and the cell (2,2) is empty. *)
Lemma C6_counterexample :
  ∃ v db' g',
    reachable 0 db_eight_moves ∧
    move 0 1 (Some 1) (-3) (-3) 208 db_eight_moves = (inr v, db') ∧
    s_get Game.id (games db') 1 = Some g' ∧
    Game.status g' = finished ∧ Game.winner_id g' = None ∧ Game.turn_no g' = 9 ∧
    construct_board (order_by_move_no (game_moves db' 1)) = inr (view_board v) ∧
    find_winner (view_board v) = inr None ∧
    board_get (view_board v) (2, 2) = inr None ∧
    ¬ board_full (view_board v).
Proof.
  destruct (move 0 1 (Some 1) (-3) (-3) 208 db_eight_moves) as [r db'] eqn:H.
  vm_compute in H. injection H as <- <-.
  do 3 eexists.
  split; [apply endpoint_reachable_reachable, endpoint_reachable_run|].
  split; [reflexivity|]. split; [vm_compute; reflexivity|].
  do 6 (split; [vm_compute; reflexivity|]).
  intros Hfull. destruct (Hfull (2, 2)) as [u Hu]; [split; simpl; lia|].
  vm_compute in Hu. discriminate Hu.
Qed.

(** ** The guards of a move *)

(** C8 (amended). [Service.move] accepts a move only when the game is
    [in_progress] and the mover holds the seat whose [player_order] is
    [turn_no % 2], and only with [row] and [col] in -3..2: the method has
    no range guard of its own, an index outside -3..2 raises [IndexError]
    in [construct_board], and -3..-1 address the board from its end.  The
    range 0..2 is enforced by [MoveRequest] at the endpoint, where a move
    is accepted only with [row] and [col] in 0..2.  A call that fails, at
    either level, leaves users, games, players and moves unchanged; and
    after every accepted move the reconstruction of the board raises no
    [IndexError]. *)
Theorem C8_move_guards it gid now db :
  (∀ uid row col r db',
     move it gid uid row col now db = (r, db') →
     match r with
     | inl _ => db' = db
     | inr _ =>
         (∃ g p, s_get Game.id (games db) gid = Some g ∧
                 Game.status g = in_progress ∧
                 p ∈ game_players db gid ∧ Some (Player.user_id p) = uid ∧
                 Player.player_order p = Game.turn_no g `mod` 2) ∧
         (-3 ≤ row ≤ 2 ∧ -3 ≤ col ≤ 2) ∧
         (∃ b, construct_board (order_by_move_no (game_moves db' gid)) = inr b)
     end) ∧
  (∀ request r db',
     router_move it gid request now db = (r, db') →
     match r with
     | inl _ => db' = db
     | inr _ =>
         (0 ≤ req_row request ≤ 2 ∧ 0 ≤ req_col request ≤ 2) ∧
         move it gid (Some (req_user_id request)) (req_row request) (req_col request) now db
           = (r, db')
     end).
Proof.
  split; [|intros request r db'; apply router_move_inv].
  intros uid row col r db' H. apply move_inv in H. destruct r as [e|v]; [done|].
  destruct H as (g & u & b & w & Hget & Hst & -> & (p & Hp & Hu & Ho) & _ & _ & Hb & _ & ->).
  rewrite (game_moves_snoc db gid) by done.
  split; [|split].
  - exists g, p. by rewrite Hu.
  - destruct (construct_board_spec _ _ Hb) as (_ & Hrange & _).
    rewrite Forall_forall in Hrange.
    apply (Hrange (new_move it db gid u row col (Game.turn_no g))).
    unfold order_by_move_no. rewrite merge_sort_Permutation.
    apply elem_of_app. right. by left.
  - by exists b.
Qed.

(** C8 for an accepted move at (1,1) and for a request with row = col = -1,
    which the endpoint turns away. *)
Lemma C8_move_guards_witness :
  ((∃ g p, s_get Game.id (games db_two_moves) 1 = Some g ∧
           Game.status g = in_progress ∧
           p ∈ game_players db_two_moves 1 ∧ Some (Player.user_id p) = Some 1 ∧
           Player.player_order p = Game.turn_no g `mod` 2) ∧
   (-3 ≤ 1 ≤ 2 ∧ -3 ≤ 1 ≤ 2) ∧
   (∃ b, construct_board
           (order_by_move_no
              (game_moves (move 0 1 (Some 1) 1 1 300 db_two_moves).2 1)) = inr b)) ∧
  (router_move 0 1 (mkMoveRequest 1 (-1) (-1)) 300 db_two_moves).2 = db_two_moves.
Proof.
  destruct (C8_move_guards 0 1 300 db_two_moves) as [Hmove Hrouter]. split.
  - destruct (move 0 1 (Some 1) 1 1 300 db_two_moves) as [r db'] eqn:H.
    pose proof (Hmove (Some 1) 1 1 r db' H) as Hr.
    assert (∃ v, r = inr v) as [v ->].
    { vm_compute in H. injection H as <- _. eauto. }
    exact Hr.
  - destruct (router_move 0 1 (mkMoveRequest 1 (-1) (-1)) 300 db_two_moves) as [r db'] eqn:H.
    pose proof (Hrouter _ r db' H) as Hr.
    assert (∃ e, r = inl e) as [e ->].
    { vm_compute in H. injection H as <- _. eauto. }
    exact Hr.
Defined.

(** C8, as stated, fails for [Service.move]: with row = col = -1 the move
    of the player whose turn it is is accepted and recorded. *)
Lemma C8_counterexample :
  ∃ v db',
    move 0 1 (Some 1) (-1) (-1) 300 db_two_moves = (inr v, db') ∧
    ¬ (0 ≤ -1 ≤ 2) ∧
    (λ m, (Move.row m, Move.col m)) <$> game_moves db' 1 = [(0, 0); (0, 1); (-1, -1)] ∧
    view_board v = [[Some 1; Some 2; None]; [None; None; None]; [None; None; Some 1]].
Proof.
  destruct (move 0 1 (Some 1) (-1) (-1) 300 db_two_moves) as [r db'] eqn:H.
  vm_compute in H. injection H as <- <-.
  do 2 eexists. split; [reflexivity|]. split; [lia|]. split; vm_compute; reflexivity.
Qed.

(** ** Statistics *)

Lemma elem_of_sql_join {A B} (l : list A) (r : list B) on a b :
  (a, b) ∈ sql_join l r on → a ∈ l ∧ b ∈ r ∧ on a b = true.
Proof.
  unfold sql_join. intros (a' & Hab & Ha')%list_elem_of_bind.
  apply list_elem_of_fmap in Hab as (b' & [= -> ->] & Hb').
  apply list_elem_of_filter in Hb' as [Hon Hb']. done.
Qed.

Lemma truediv_inr a b : b ≠ 0 → ∃ q, truediv a b = inr q.
Proof. intros Hb. unfold truediv. rewrite decide_False by done. eauto. Qed.

(** C10. [get_user_stats] raises for no user id, whether or not a [User]
    row exists: it always returns statistics.  For a user id with no seat,
    no win and no move it returns games = 0, wins = 0, draws = 0,
    loses = 0, win_ratio = 0.0 and no efficiency. *)
Theorem C10_get_user_stats_total db user_id :
  (∃ s, get_user_stats user_id db = inr s) ∧
  ((∀ p, p ∈ players db → Player.user_id p ≠ user_id) →
   (∀ g, g ∈ games db → Game.winner_id g ≠ Some user_id) →
   (∀ m, m ∈ moves db → Move.user_id m ≠ user_id) →
   get_user_stats user_id db = inr (mkUserStats user_id 0 0 0 0 0%Qc None)).
Proof.
  split.
  - unfold get_user_stats. cbn zeta.
    set (gp := Z.of_nat (length (filter _ (players db)))).
    set (ms := group_count _).
    destruct (decide (gp ≠ 0)) as [Hgp|Hgp].
    + destruct (truediv_inr (Z.of_nat (length (filter (λ g, Game.winner_id g = Some user_id)
                                                      (games db)))) gp Hgp) as [q ->].
      simpl. destruct (decide (ms ≠ [])) as [Hms|Hms]; [|eauto].
      destruct (truediv_inr (sum_Z ms.*2) (Z.of_nat (length ms))) as [q' ->]; [|simpl; eauto].
      destruct ms; [done|simpl; lia].
    + simpl. destruct (decide (ms ≠ [])) as [Hms|Hms]; [|eauto].
      destruct (truediv_inr (sum_Z ms.*2) (Z.of_nat (length ms))) as [q' ->]; [|simpl; eauto].
      destruct ms; [done|simpl; lia].
  - intros Hp Hg Hm. unfold get_user_stats. cbn zeta.
    rewrite (filter_none (λ p, Player.user_id p = user_id)) by done.
    rewrite (filter_none (λ g, Game.winner_id g = Some user_id)) by done.
    rewrite (filter_none (λ gp, Game.status gp.1 = finished ∧ _)).
    2:{ intros [g p] (_ & Hin & _)%elem_of_sql_join (_ & _ & Hu). by apply (Hp p). }
    rewrite (filter_none (λ mg, Game.winner_id mg.2 = Some user_id ∧ _)).
    2:{ intros [m g] (Hin & _ & _)%elem_of_sql_join (_ & Hu). by apply (Hm m). }
    reflexivity.
Qed.

(** C10 for user id 7, for which the store holds nothing. *)
Lemma C10_get_user_stats_total_witness :
  (∃ s, get_user_stats 7 db_two_moves = inr s) ∧
  get_user_stats 7 db_two_moves = inr (mkUserStats 7 0 0 0 0 0%Qc None).
Proof.
  destruct (C10_get_user_stats_total db_two_moves 7) as [Htotal Hzero].
  split; [exact Htotal|]. apply Hzero.
  - apply Forall_forall. refine (bool_decide_unpack _ _). vm_compute. exact I.
  - apply Forall_forall. refine (bool_decide_unpack _ _). vm_compute. exact I.
  - apply Forall_forall. refine (bool_decide_unpack _ _). vm_compute. exact I.
Defined.

(** ** The leaderboard *)

#[global] Instance key3_le_trans : Transitive key3_le.
Proof.
  intros [[a1 b1] c1] [[a2 b2] c2] [[a3 b3] c3]. unfold key3_le. simpl.
  intros [H1 | [-> H1]] [H2 | [-> H2]].
  - left. by trans a2.
  - by left.
  - by left.
  - right. split; [done|]. lia.
Qed.

#[global] Instance key3_le_total : Total key3_le.
Proof.
  intros [[a1 b1] c1] [[a2 b2] c2]. unfold key3_le. simpl.
  destruct (Qclt_le_dec a1 a2) as [Hlt|Hle]; [by left; left|].
  apply Qcle_lt_or_eq in Hle as [Hlt | ->]; [by right; left|].
  destruct (decide (b1 < b2)); [left; right; split; [done|by left]|].
  destruct (decide (b2 < b1)); [right; right; split; [done|by left]|].
  destruct (decide (c1 ≤ c2)); [left|right]; right; split; try done; right; lia.
Qed.

#[global] Instance by_key_trans key : Transitive (by_key key).
Proof. intros a b c. unfold by_key. apply key3_le_trans. Qed.

#[global] Instance by_key_total key : Total (by_key key).
Proof. intros a b. unfold by_key. apply key3_le_total. Qed.

Lemma StronglySorted_lookup {A} (R : relation A) l i j a b :
  StronglySorted R l → l !! i = Some a → l !! j = Some b → (i < j)%nat → R a b.
Proof.
  intros Hs. revert i j. induction Hs as [|x l Hs IH Hx]; intros i j Hi Hj Hij; [done|].
  destruct j as [|j]; [lia|]. simpl in Hj. destruct i as [|i]; simpl in Hi.
  - injection Hi as ->. rewrite Forall_forall in Hx. apply Hx.
    by eapply list_elem_of_lookup_2.
  - apply (IH i j); [done|done|lia].
Qed.

Lemma efficiency_rows_foldl db acc us :
  foldl (leaderboard_row db "efficiency") acc us = acc ++ omap (efficiency_row db) us.
Proof.
  revert acc. induction us as [|u us IH]; intros acc; simpl; [by rewrite app_nil_r|].
  rewrite IH. unfold leaderboard_row, efficiency_row.
  rewrite decide_False by done. rewrite decide_True by done. cbn zeta.
  case_decide; [by rewrite <- app_assoc|done].
Qed.

Lemma efficiency_row_Some db u r :
  efficiency_row db u = Some r →
  lb_user_id r = u ∧ efficiency db !! u = Some (lb_value r) ∧ lb_value r ≠ 0%Qc ∧
  lb_wins r = default 0 (wins_by_user db !! u).
Proof.
  unfold efficiency_row. cbn zeta. case_decide as Hv; [|done]. intros [= <-]. simpl.
  destruct (efficiency db !! u) as [v|]; simpl in *; done.
Qed.

Lemma efficiency_rows_NoDup db us :
  NoDup us → NoDup (lb_user_id <$> omap (efficiency_row db) us).
Proof.
  induction 1 as [|u us Hu Hnd IH]; simpl; [constructor|].
  destruct (efficiency_row db u) as [r|] eqn:Hr; [|done].
  apply efficiency_row_Some in Hr as (Hid & _). simpl. apply NoDup_cons. split; [|done].
  intros (r' & Hr' & Hin)%list_elem_of_fmap.
  apply list_elem_of_omap in Hin as (u' & Hu' & Hrow).
  apply efficiency_row_Some in Hrow as (Hid' & _). congruence.
Qed.

(** C9. [leaderboard("efficiency")] returns at most 3 rows; a row that
    comes earlier has the smaller efficiency, or the same efficiency and
    more wins, or the same efficiency and wins and the smaller user id;
    every row is a user whose efficiency is defined and not zero, and no
    user whose efficiency is zero or undefined has a row; a user with a
    defined, non-zero efficiency is left out only when three rows rank at
    or above that user.  In particular a user with the smaller efficiency
    (3 moves to win) is listed above a listed user with the larger one
    (5 moves to win). *)
Theorem C9_leaderboard_efficiency db :
  ∃ rows,
    leaderboard "efficiency" db = Rows rows ∧
    (length rows ≤ 3)%nat ∧
    (∀ i j a b, rows !! i = Some a → rows !! j = Some b → (i < j)%nat →
       (lb_value a < lb_value b)%Qc ∨
       (lb_value a = lb_value b ∧
        (lb_wins a > lb_wins b ∨
         (lb_wins a = lb_wins b ∧ lb_user_id a < lb_user_id b)))) ∧
    (∀ r, r ∈ rows →
       efficiency db !! lb_user_id r = Some (lb_value r) ∧ lb_value r ≠ 0%Qc ∧
       lb_wins r = default 0 (wins_by_user db !! lb_user_id r)) ∧
    (∀ u, default 0%Qc (efficiency db !! u) = 0%Qc → u ∉ lb_user_id <$> rows) ∧
    (∀ u v, efficiency db !! u = Some v → v ≠ 0%Qc → u ∉ lb_user_id <$> rows →
       length rows = 3%nat ∧
       ∀ r, r ∈ rows →
         key3_le (efficiency_key (wins_by_user db) r)
                 (v, - default 0 (wins_by_user db !! u), u)) ∧
    (∀ a b va vb j rb,
       efficiency db !! a = Some va → efficiency db !! b = Some vb →
       va ≠ 0%Qc → (va < vb)%Qc →
       rows !! j = Some rb → lb_user_id rb = b →
       ∃ i ra, rows !! i = Some ra ∧ lb_user_id ra = a ∧ (i < j)%nat).
Proof.
  set (R := by_key (efficiency_key (wins_by_user db))).
  set (rows_all := omap (efficiency_row db) (elements (all_users db))).
  set (sorted := merge_sort R rows_all).
  assert (leaderboard "efficiency" db = Rows (take 3 sorted)) as Hlb.
  { unfold leaderboard. cbn zeta. rewrite efficiency_rows_foldl.
    rewrite decide_False by done. by rewrite decide_True by done. }
  assert (StronglySorted R sorted) as Hsorted
      by (apply StronglySorted_merge_sort; unfold R; apply _).
  assert (sorted ≡ₚ rows_all) as Hperm by apply merge_sort_Permutation.
  assert (∀ r, r ∈ sorted → ∃ u, efficiency_row db u = Some r) as Hrow.
  { intros r Hr. rewrite Hperm in Hr.
    apply list_elem_of_omap in Hr as (u & _ & Hu). by exists u. }
  assert (NoDup (lb_user_id <$> sorted)) as Hnd.
  { rewrite Hperm. apply efficiency_rows_NoDup, NoDup_elements. }
  assert (∀ r, r ∈ take 3 sorted → r ∈ sorted) as Htake.
  { intros r Hr. rewrite <- (take_drop 3 sorted). apply elem_of_app. by left. }
  assert (∀ u v, efficiency db !! u = Some v → v ≠ 0%Qc →
            mkLeaderBoard u v (default 0 (wins_by_user db !! u))
                          (default 0 (total_games_by_user db !! u)) ∈ sorted) as Hin.
  { intros u v Hu Hv. rewrite Hperm. apply list_elem_of_omap. exists u. split.
    - apply elem_of_elements. unfold all_users. apply elem_of_union. right.
      apply elem_of_dom. by exists v.
    - unfold efficiency_row. rewrite Hu. simpl. by rewrite decide_True. }
  assert (∀ r, r ∈ take 3 sorted →
            efficiency db !! lb_user_id r = Some (lb_value r) ∧ lb_value r ≠ 0%Qc ∧
            lb_wins r = default 0 (wins_by_user db !! lb_user_id r)) as Hentries.
  { intros r Hr. destruct (Hrow r (Htake r Hr)) as [u Hu].
    apply efficiency_row_Some in Hu as (<- & H1 & H2 & H3). done. }
  assert (∀ i j a b, take 3 sorted !! i = Some a → take 3 sorted !! j = Some b →
            (i < j)%nat →
            (lb_value a < lb_value b)%Qc ∨
            (lb_value a = lb_value b ∧
             (lb_wins a > lb_wins b ∨
              (lb_wins a = lb_wins b ∧ lb_user_id a < lb_user_id b)))) as Horder.
  { intros i j a b Hi Hj Hij.
    pose proof (Hentries a (list_elem_of_lookup_2 _ _ _ Hi)) as (_ & _ & Hwa).
    pose proof (Hentries b (list_elem_of_lookup_2 _ _ _ Hj)) as (_ & _ & Hwb).
    apply lookup_take_Some in Hi as [Hi _]. apply lookup_take_Some in Hj as [Hj _].
    assert (lb_user_id a ≠ lb_user_id b) as Hne.
    { intros Heq. assert (i = j); [|lia].
      eapply (NoDup_lookup _ _ _ _ Hnd); rewrite list_lookup_fmap.
      - by rewrite Hi.
      - rewrite Hj. simpl. by rewrite Heq. }
    pose proof (StronglySorted_lookup R sorted i j a b Hsorted Hi Hj Hij) as Hab.
    unfold R, by_key, key3_le, efficiency_key in Hab. simpl in Hab.
    rewrite <- Hwa, <- Hwb in Hab.
    destruct Hab as [Hlt | [Heq Hab]]; [by left|]. right. split; [done|]. lia. }
  assert (∀ u v, efficiency db !! u = Some v → v ≠ 0%Qc →
            u ∉ lb_user_id <$> take 3 sorted →
            length (take 3 sorted) = 3%nat ∧
            ∀ r, r ∈ take 3 sorted →
              key3_le (efficiency_key (wins_by_user db) r)
                      (v, - default 0 (wins_by_user db !! u), u)) as Hbest.
  { intros u v Hu Hv Hout. pose proof (Hin u v Hu Hv) as Hru.
    rewrite <- (take_drop 3 sorted) in Hru, Hsorted.
    apply elem_of_app in Hru as [Hru|Hru].
    { exfalso. apply Hout. apply list_elem_of_fmap. eexists. split; [|exact Hru]. done. }
    split.
    - rewrite length_take. apply list_elem_of_lookup_1 in Hru as [k Hk].
      apply lookup_lt_Some in Hk. rewrite length_drop in Hk. lia.
    - intros r Hr.
      apply (StronglySorted_app_1_elem_of R _ _ r _ Hsorted Hr Hru). }
  exists (take 3 sorted). split; [done|]. split; [rewrite length_take; lia|].
  split; [exact Horder|]. split; [exact Hentries|]. split; [|split; [exact Hbest|]].
  - intros u Hu (r & -> & Hr)%list_elem_of_fmap.
    destruct (Hentries r Hr) as (He & Hv & _). rewrite He in Hu. done.
  - intros a b va vb j rb Ha Hb Hva Hlt Hj <-.
    destruct (Hentries rb (list_elem_of_lookup_2 _ _ _ Hj)) as (Hb' & _ & _).
    rewrite Hb in Hb'. injection Hb' as ->.
    destruct (decide (a ∈ lb_user_id <$> take 3 sorted)) as [Hain|Hout].
    + apply list_elem_of_fmap in Hain as (ra & -> & Hra).
      apply list_elem_of_lookup_1 in Hra as [i Hi].
      destruct (Hentries ra (list_elem_of_lookup_2 _ _ _ Hi)) as (Ha' & _ & _).
      rewrite Ha in Ha'. injection Ha' as ->.
      exists i, ra. split; [done|]. split; [done|].
      destruct (decide (i < j)%nat) as [|Hge]; [done|]. exfalso.
      destruct (decide (i = j)) as [->|Hne].
      * rewrite Hi in Hj. injection Hj as ->. by apply Qclt_not_eq in Hlt.
      * destruct (Horder j i rb ra Hj Hi ltac:(lia)) as [Hlt' | [Heq _]].
        -- apply (Qclt_not_le _ _ Hlt). by apply Qclt_le_weak.
        -- rewrite Heq in Hlt. by apply Qclt_not_eq in Hlt.
    + exfalso. destruct (Hbest a va Ha Hva Hout) as [_ Hall].
      pose proof (Hall rb (list_elem_of_lookup_2 _ _ _ Hj)) as Hk.
      unfold key3_le, efficiency_key in Hk. simpl in Hk.
      destruct Hk as [Hlt' | [Heq _]].
      * apply (Qclt_not_le _ _ Hlt). by apply Qclt_le_weak.
      * rewrite Heq in Hlt. by apply Qclt_not_eq in Hlt.
Qed.

(** The scenario of the specification: user 1 won in 3 moves, user 2 won
    in 5 moves in another game; user 1 is listed first. *)
Lemma leaderboard_efficiency_scenario :
  leaderboard "efficiency" db_efficiency
  = Rows [mkLeaderBoard 1 (to_float 3) 1 1; mkLeaderBoard 2 (to_float 5) 1 1].
Proof. vm_compute. reflexivity. Qed.

(** C9 in the scenario above: user 1 is listed above user 2. *)
Lemma C9_leaderboard_efficiency_witness :
  ∃ rows,
    leaderboard "efficiency" db_efficiency = Rows rows ∧
    (length rows ≤ 3)%nat ∧
    ∃ i ra, rows !! i = Some ra ∧ lb_user_id ra = 1 ∧ (i < 1)%nat.
Proof.
  destruct (C9_leaderboard_efficiency db_efficiency)
    as (rows & Hlb & Hlen & _ & _ & _ & _ & Habove).
  exists rows. split; [exact Hlb|]. split; [exact Hlen|].
  rewrite leaderboard_efficiency_scenario in Hlb. injection Hlb as <-.
  apply (Habove 1 2 (to_float 3) (to_float 5) 1%nat (mkLeaderBoard 2 (to_float 5) 1 1)).
  - vm_compute. reflexivity.
  - vm_compute. reflexivity.
  - intros H. apply (f_equal this) in H. vm_compute in H. discriminate H.
  - unfold Qclt, Qlt. simpl. lia.
  - reflexivity.
  - reflexivity.
Defined.

(** * Further properties *)

(** ** [construct_board] *)

Lemma py_index_3 i :
  -3 ≤ i ≤ 2 → py_index 3 i = Some (Z.to_nat (py_norm i)).
Proof.
  intros Hi. unfold py_index, py_norm. case_bool_decide.
  - by rewrite decide_False by lia.
  - rewrite bool_decide_eq_true_2 by lia. by rewrite decide_True by lia.
Qed.

Lemma board_set_total b row col v :
  grid3x3 b → -3 ≤ row ≤ 2 → -3 ≤ col ≤ 2 →
  ∃ r, b !! Z.to_nat (py_norm row) = Some r ∧
       board_set b row col v
       = inr (<[Z.to_nat (py_norm row) := <[Z.to_nat (py_norm col) := v]> r]> b).
Proof.
  intros [Hl Hrows] Hr Hc. unfold board_set, getitem, setitem.
  rewrite Hl, (py_index_3 row Hr). simpl.
  destruct (lookup_lt_is_Some_2 b (Z.to_nat (py_norm row))) as [r Hlk].
  { unfold py_norm. case_decide; lia. }
  exists r. split; [done|]. rewrite Hlk. simpl.
  assert (length r = 3%nat) as ->.
  { rewrite Forall_forall in Hrows. apply Hrows. by eapply list_elem_of_lookup_2. }
  rewrite (py_index_3 col Hc). done.
Qed.

Lemma construct_board_loop_total cells b :
  grid3x3 b →
  Forall (λ c, (-3 ≤ c.1.1 ≤ 2) ∧ (-3 ≤ c.1.2 ≤ 2)) cells →
  ∃ b', construct_board_loop cells b = inr b'.
Proof.
  intros Hb Hcells. revert b Hb.
  induction Hcells as [|[[row col] u] cells [Hr Hc] _ IH]; intros b Hb; [by exists b|].
  simpl in Hr, Hc. cbn [construct_board_loop].
  destruct (board_set_total b row col (Some u) Hb Hr Hc) as (r & Hlk & ->).
  cbn [mbind res_bind]. apply IH. by apply grid3x3_insert.
Qed.

(** X1. [construct_board] returns a 3x3 grid exactly when every move has
    its row and its column in -3..2, and raises [IndexError] exactly when
    some move has not. *)
Theorem construct_board_bounds ms :
  (Forall indexable ms ↔ ∃ b, construct_board ms = inr b ∧ grid3x3 b) ∧
  (¬ Forall indexable ms ↔ construct_board ms = inl IndexError).
Proof.
  assert (Forall indexable ms → ∃ b, construct_board ms = inr b ∧ grid3x3 b) as Hok.
  { intros Hms. destruct (construct_board_loop_total
      ((λ m, (Move.row m, Move.col m, Move.user_id m)) <$> ms) empty_board) as [b Hb].
    - apply empty_board_grid.
    - rewrite Forall_fmap. exact Hms.
    - exists b. split; [exact Hb|]. by destruct (construct_board_spec ms b Hb). }
  assert (∀ b, construct_board ms = inr b → Forall indexable ms) as Hinr.
  { intros b Hb. by destruct (construct_board_spec ms b Hb) as (_ & Hrange & _). }
  split; split.
  - exact Hok.
  - intros (b & Hb & _). by apply (Hinr b).
  - intros Hms. destruct (construct_board ms) as [e|b] eqn:Hb.
    + by rewrite (construct_board_error ms e Hb).
    + destruct Hms. by apply (Hinr b).
  - intros He Hms. destruct (Hok Hms) as (b & Hb & _). congruence.
Qed.

Lemma board_set_inv3 b row col v b' :
  grid3x3 b → board_set b row col v = inr b' →
  (-3 ≤ row ≤ 2 ∧ -3 ≤ col ≤ 2) ∧
  ∃ r, b !! Z.to_nat (py_norm row) = Some r ∧
       b' = <[Z.to_nat (py_norm row) := <[Z.to_nat (py_norm col) := v]> r]> b.
Proof.
  intros Hb Hset. pose proof Hb as [Hl Hrows].
  destruct (board_set_inv _ _ _ _ _ Hset) as (i & j & r & Hi & Hr & Hj & _).
  assert (length r = 3%nat) as Hlr.
  { rewrite Forall_forall in Hrows. apply Hrows. by eapply list_elem_of_lookup_2. }
  apply py_index_Some in Hi as (Hi & _). apply py_index_Some in Hj as (Hj & _).
  assert (-3 ≤ row ≤ 2 ∧ -3 ≤ col ≤ 2) as [Hrow Hcol] by lia.
  split; [done|].
  destruct (board_set_total b row col v Hb Hrow Hcol) as (r' & Hr' & Heq).
  exists r'. split; [done|]. congruence.
Qed.

Lemma construct_board_loop_app l1 l2 b :
  construct_board_loop (l1 ++ l2) b = construct_board_loop l1 b ≫= construct_board_loop l2.
Proof.
  revert b. induction l1 as [|[[row col] u] l1 IH]; intros b; [done|].
  simpl. destruct (board_set b row col (Some u)); simpl; [done|apply IH].
Qed.

Lemma construct_board_loop_grid cells b b' :
  grid3x3 b → construct_board_loop cells b = inr b' → grid3x3 b'.
Proof. intros Hb H. by destruct (construct_board_loop_spec cells b b' Hb H). Qed.

(** A cell that no later assignment reaches keeps its content. *)
Lemma construct_board_loop_untouched cells b b' x y :
  grid3x3 b → construct_board_loop cells b = inr b' →
  (∀ c, c ∈ cells → (Z.to_nat (py_norm c.1.1), Z.to_nat (py_norm c.1.2)) ≠ (x, y)) →
  cell b' x y = cell b x y.
Proof.
  revert b. induction cells as [|[[row col] u] cells IH]; intros b Hb H Hno.
  { by injection H as <-. }
  cbn [construct_board_loop] in H.
  destruct (board_set b row col (Some u)) as [e|b1] eqn:Hset; [done|].
  cbn [mbind res_bind] in H.
  destruct (board_set_inv3 _ _ _ _ _ Hb Hset) as ([Hrow Hcol] & r & Hr & ->).
  assert (length r = 3%nat) as Hlr.
  { destruct Hb as [_ Hrows]. rewrite Forall_forall in Hrows. apply Hrows.
    by eapply list_elem_of_lookup_2. }
  rewrite (IH _ (grid3x3_insert b _ _ r (Some u) Hb Hr) H).
  - rewrite cell_insert; [|done|unfold py_norm; case_decide; lia].
    rewrite decide_False; [done|]. intros [-> ->].
    apply (Hno (row, col, u)); [by left|done].
  - intros c Hc. apply Hno. by right.
Qed.

Lemma empty_board_cell x y :
  (x < 3)%nat → (y < 3)%nat → cell empty_board x y = Some None.
Proof.
  intros Hx Hy.
  destruct x as [|[|[|x]]]; [| | |lia]; destruct y as [|[|[|y]]]; (done || lia).
Qed.

Lemma cell_of_nat m rc :
  indexable m → in_grid rc →
  (Z.to_nat (py_norm (Move.row m)), Z.to_nat (py_norm (Move.col m)))
    = (Z.to_nat rc.1, Z.to_nat rc.2) ↔ cell_of m = rc.
Proof.
  intros [Hr Hc] [H1 H2]. unfold cell_of, py_norm. destruct rc as [x y]. simpl in *.
  repeat case_decide; split; intros [= Ha Hb]; f_equal; lia.
Qed.

(** X2. The board is a projection of the list of moves in which the last
    write wins: a cell of the grid that no move reaches is empty, and a
    cell holds the user id of the last move that reaches it (a negative
    row or column reaches the cell three further on). *)
Theorem construct_board_last_write ms b rc :
  construct_board ms = inr b → in_grid rc →
  ((∀ m, m ∈ ms → cell_of m ≠ rc) → board_get b rc = inr None) ∧
  (∀ pre m post,
     ms = pre ++ m :: post → cell_of m = rc →
     (∀ m', m' ∈ post → cell_of m' ≠ rc) →
     board_get b rc = inr (Some (Move.user_id m))).
Proof.
  intros Hb Hrc. destruct (construct_board_spec ms b Hb) as (Hgrid & Hrange & _).
  rewrite Forall_forall in Hrange.
  rewrite (board_get_cell b rc Hgrid Hrc). unfold construct_board in Hb.
  pose proof Hrc as [Hx Hy]. split.
  - intros Hno.
    rewrite (construct_board_loop_untouched _ _ _ (Z.to_nat rc.1) (Z.to_nat rc.2)
               empty_board_grid Hb).
    + by rewrite empty_board_cell by lia.
    + intros c (m & -> & Hm)%list_elem_of_fmap. simpl. intros Heq.
      apply (Hno m Hm). apply cell_of_nat; [by apply Hrange|done|done].
  - intros pre m post -> Hm Hpost.
    rewrite fmap_app, fmap_cons, construct_board_loop_app in Hb.
    destruct (construct_board_loop _ empty_board) as [e|b1] eqn:Hpre; [done|].
    cbn [mbind res_bind construct_board_loop] in Hb.
    pose proof (construct_board_loop_grid _ _ _ empty_board_grid Hpre) as Hb1.
    destruct (board_set b1 _ _ _) as [e|b2] eqn:Hset; [done|].
    cbn [mbind res_bind] in Hb.
    destruct (board_set_inv3 _ _ _ _ _ Hb1 Hset) as ([Hrow Hcol] & r & Hr & ->).
    assert (length r = 3%nat) as Hlr.
    { destruct Hb1 as [_ Hrows]. rewrite Forall_forall in Hrows. apply Hrows.
      by eapply list_elem_of_lookup_2. }
    rewrite (construct_board_loop_untouched _ _ _ (Z.to_nat rc.1) (Z.to_nat rc.2)
               (grid3x3_insert b1 _ _ r _ Hb1 Hr) Hb).
    + rewrite cell_insert; [|done|unfold py_norm; case_decide; lia].
      rewrite decide_True; [done|].
      assert (indexable m) as Hidx by done.
      apply (cell_of_nat m rc Hidx Hrc) in Hm. by injection Hm as -> ->.
    + intros c (m' & -> & Hm')%list_elem_of_fmap. simpl. intros Heq.
      apply (Hpost m' Hm'). apply cell_of_nat; [|done|done].
      apply Hrange. apply elem_of_app. right. by right.
Qed.

(** X2 on two moves that reach the cell (0,0), the second through the
    index -3. *)
Lemma construct_board_last_write_witness :
  let ms := [Move.mk 1 1 1 0 0 1 0; Move.mk 2 1 2 (-3) (-3) 2 0] in
  let b := [[Some 2; None; None]; [None; None; None]; [None; None; None]] in
  ((∀ m, m ∈ ms → cell_of m ≠ (0, 0)) → board_get b (0, 0) = inr None) ∧
  (∀ pre m post,
     ms = pre ++ m :: post → cell_of m = (0, 0) →
     (∀ m', m' ∈ post → cell_of m' ≠ (0, 0)) →
     board_get b (0, 0) = inr (Some (Move.user_id m))).
Proof.
  intros ms b. apply (construct_board_last_write ms b (0, 0)).
  - reflexivity.
  - split; simpl; lia.
Defined.

(** ** [create_user] and [create_game] *)

Lemma s_get_app_fresh {A} (pk : A → Z) rows x :
  (∀ r, r ∈ rows → pk r ≠ pk x) → s_get pk (rows ++ [x]) (pk x) = Some x.
Proof.
  unfold s_get. induction rows as [|r rows IH]; intros Hne; simpl.
  - by rewrite bool_decide_eq_true_2.
  - rewrite bool_decide_eq_false_2 by (apply Hne; by left).
    apply IH. intros r' Hr'. apply Hne. by right.
Qed.

Lemma s_get_app_old {A} (pk : A → Z) rows x k :
  pk x ≠ k → s_get pk (rows ++ [x]) k = s_get pk rows k.
Proof.
  intros Hne. unfold s_get. induction rows as [|r rows IH]; simpl.
  - by rewrite bool_decide_eq_false_2.
  - by rewrite IH.
Qed.

Lemma order_dict_one p0 o :
  order_dict [p0] !! o
  = if decide (Player.player_order p0 = o) then Some (Player.user_id p0) else None.
Proof.
  unfold order_dict, dict_of. simpl. case_decide as Ho.
  - by rewrite Ho, lookup_insert_eq.
  - by rewrite lookup_insert_ne, lookup_empty.
Qed.

Lemma order_dict_two p0 p1 o :
  Player.player_order p0 = 0 → Player.player_order p1 = 1 →
  order_dict [p0; p1] !! o
  = if decide (o = 0) then Some (Player.user_id p0)
    else if decide (o = 1) then Some (Player.user_id p1) else None.
Proof.
  intros H0 H1. unfold order_dict, dict_of. simpl. rewrite H0, H1.
  repeat case_decide; subst.
  - by rewrite lookup_insert_ne, lookup_insert_eq.
  - by rewrite lookup_insert_eq.
  - by rewrite !lookup_insert_ne, lookup_empty.
Qed.

(** X4. [create_game] for a user id that [s.get] does not find raises 404
    "User not found" and leaves the store as it is.  In every state the
    service can reach, [create_game] for an existing user succeeds: it
    returns an id larger than every game id in use, the new game is
    [waiting] with [turn_no = 0] and no winner, the creator holds its seat
    0 and it has no moves; its view shows an empty board, no next player
    and the creator as the only player. *)
Theorem create_game_spec it uid db :
  reachable it db →
  (s_get User.id (users db) uid = None →
   create_game it uid db = (inl (HTTPException 404 "User not found"), db)) ∧
  (is_Some (s_get User.id (users db) uid) →
   ∃ gid db',
     create_game it uid db = (inr gid, db') ∧
     (∀ j, j ∈ Game.id <$> games db → j < gid) ∧
     s_get Game.id (games db') gid = Some (Game.mk gid waiting it it it None 0) ∧
     game_players db' gid
       = [Player.mk (fresh_id (Player.id <$> players db)) gid uid 0] ∧
     game_moves db' gid = [] ∧
     users db' = users db ∧ moves db' = moves db ∧
     get_game gid db' = inr (mkViewGame gid waiting empty_board None [uid] None)).
Proof.
  intros Hreach. pose proof (reachable_Inv it db Hreach) as [Hids Hpfk Hmfk _].
  split.
  { intros Hu. unfold create_game, transaction.
    unfold mbind, M_bind, query, raise. cbn beta iota zeta. by rewrite Hu. }
  intros [u Hu].
  set (gid := fresh_id (Game.id <$> games db)).
  assert (gid ∉ Game.id <$> games db) as Hfresh by apply fresh_id_not_in.
  assert (game_players db gid = []) as Hnop.
  { apply filter_none. intros p Hp Hx. apply Hfresh. rewrite <- Hx. by apply Hpfk. }
  assert (game_moves db gid = []) as Hnom.
  { apply filter_none. intros m Hm Hx. apply Hfresh. rewrite <- Hx. by apply Hmfk. }
  destruct (create_game it uid db) as [[e|gid'] db'] eqn:H.
  { exfalso. revert H. unfold create_game, transaction.
    unfold mbind, M_bind, query, raise, mret, M_ret. cbn beta iota zeta. rewrite Hu.
    unfold insert_game, insert_player. cbn beta iota zeta. cbn [players].
    fold gid. rewrite bool_decide_eq_false_2.
    2:{ intros (p & Hp & Hg & _)%Exists_exists. apply Hfresh. rewrite <- Hg. by apply Hpfk. }
    rewrite bool_decide_eq_false_2.
    2:{ intros (p & Hp & Hg & _)%Exists_exists. apply Hfresh. rewrite <- Hg. by apply Hpfk. }
    done. }
  apply create_game_inv in H as (-> & _ & ->). fold gid.
  exists gid, (mkDB (users db)
                 (games db ++ [Game.mk gid waiting it it it None 0])
                 (players db ++ [Player.mk (fresh_id (Player.id <$> players db)) gid uid 0])
                 (moves db)).
  split; [done|]. split; [intros j Hj; by apply fresh_id_gt|].
  assert (s_get Game.id (games db ++ [Game.mk gid waiting it it it None 0]) gid
          = Some (Game.mk gid waiting it it it None 0)) as Hget.
  { apply (s_get_app_fresh Game.id (games db) (Game.mk gid waiting it it it None 0)).
    intros r Hr Heq. apply Hfresh. simpl in Heq. rewrite <- Heq.
    apply list_elem_of_fmap. by exists r. }
  assert (game_players
            (mkDB (users db) (games db ++ [Game.mk gid waiting it it it None 0])
               (players db ++ [Player.mk (fresh_id (Player.id <$> players db)) gid uid 0])
               (moves db)) gid
          = [Player.mk (fresh_id (Player.id <$> players db)) gid uid 0]) as Hps.
  { unfold game_players in *. simpl. rewrite filter_app, Hnop.
    by rewrite filter_cons, decide_True. }
  split; [exact Hget|]. split; [exact Hps|]. split; [exact Hnom|].
  split; [done|]. split; [done|].
  unfold get_game, get_game_view. unfold mbind, M_bind, query, raise, lift, mret, M_ret.
  cbn beta iota zeta. cbn [games]. rewrite Hget. cbn [Game.id].
  change (game_moves _ gid) with (game_moves db gid). rewrite Hnom, Hps.
  cbn [fst]. do 2 f_equal.
Qed.

(** X4 in the state with users 1 and 2 and game 1 started, for user 2. *)
Lemma create_game_spec_witness :
  (s_get User.id (users db_started) 2 = None →
   create_game 0 2 db_started = (inl (HTTPException 404 "User not found"), db_started)) ∧
  (is_Some (s_get User.id (users db_started) 2) →
   ∃ gid db',
     create_game 0 2 db_started = (inr gid, db') ∧
     (∀ j, j ∈ Game.id <$> games db_started → j < gid) ∧
     s_get Game.id (games db') gid = Some (Game.mk gid waiting 0 0 0 None 0) ∧
     game_players db' gid
       = [Player.mk (fresh_id (Player.id <$> players db_started)) gid 2 0] ∧
     game_moves db' gid = [] ∧
     users db' = users db_started ∧ moves db' = moves db_started ∧
     get_game gid db' = inr (mkViewGame gid waiting empty_board None [2] None)).
Proof. exact (create_game_spec 0 2 db_started (reachable_run 0 _)). Defined.

(** ** What every call keeps *)

Lemma claimed_games_id gid e gs : Game.id <$> claimed_games gid e gs = Game.id <$> gs.
Proof.
  unfold claimed_games. rewrite <- list_fmap_compose. apply list_fmap_ext.
  intros i g _. simpl. by destruct (turn_is gid e g).
Qed.

Lemma finished_games_id gid w e now gs :
  Game.id <$> finished_games gid w e now gs = Game.id <$> gs.
Proof.
  unfold finished_games. destruct w; [by apply update_row_id|].
  case_decide; [by apply update_row_id|done].
Qed.

(** X5. No call of the service updates or deletes a row of [users],
    [players] or [moves], or removes a game: each of these tables, and the
    list of game ids, is extended by at most one row at its end; a call
    that raises extends none. *)
Theorem exec_append_only it c db :
  ∃ us gs ps ms,
    users (exec it c db) = users db ++ us ∧
    Game.id <$> games (exec it c db) = (Game.id <$> games db) ++ gs ∧
    players (exec it c db) = players db ++ ps ∧
    moves (exec it c db) = moves db ++ ms ∧
    (length us ≤ 1 ∧ length gs ≤ 1 ∧ length ps ≤ 1 ∧ length ms ≤ 1)%nat.
Proof.
  assert (∃ us gs ps ms,
            users db = users db ++ us ∧
            Game.id <$> games db = (Game.id <$> games db) ++ gs ∧
            players db = players db ++ ps ∧ moves db = moves db ++ ms ∧
            (length us ≤ 1 ∧ length gs ≤ 1 ∧ length ps ≤ 1 ∧ length ms ≤ 1)%nat) as Hsame.
  { exists [], [], [], []. rewrite !app_nil_r. simpl. repeat split; lia. }
  destruct c as [name|uid|gid uid now|gid uid row col now]; simpl.
  - exists [User.mk (fresh_id (User.id <$> users db)) name], [], [], [].
    rewrite !app_nil_r. simpl. repeat split; lia.
  - destruct (create_game it uid db) as [[e|g] db'] eqn:H; apply create_game_inv in H.
    + by subst.
    + destruct H as (-> & _ & ->). simpl.
      eexists [], [_], [_], []. rewrite !app_nil_r, fmap_app. simpl.
      repeat split; lia.
  - destruct (join_game gid uid now db) as [[e|[]] db'] eqn:H; apply join_game_inv in H.
    + by subst.
    + destruct H as (g & _ & _ & _ & _ & _ & _ & ->). simpl.
      eexists [], [], [_], []. rewrite !app_nil_r. simpl.
      split; [done|]. split; [case_decide; [by apply update_row_id|done]|].
      repeat split; lia.
  - destruct (move it gid uid row col now db) as [[e|v] db'] eqn:H; apply move_inv in H.
    + by subst.
    + destruct H as (g & u & b & w & _ & _ & _ & _ & _ & _ & _ & _ & ->). simpl.
      eexists [], [], [], [_]. rewrite !app_nil_r. simpl.
      split; [done|]. split; [by rewrite finished_games_id, claimed_games_id|].
      repeat split; lia.
Qed.

(** A property of every game, its seats and its moves is kept when one
    game's row is rewritten and rows of that game are appended. *)
Lemma per_game_update (P : Game.t → list Player.t → list Move.t → Prop)
    db g f ps_new ms_new :
  NoDup (Game.id <$> games db) → g ∈ games db →
  (∀ g', Game.id (f g') = Game.id g') →
  (∀ p, p ∈ ps_new → Player.game_id p = Game.id g) →
  (∀ m, m ∈ ms_new → Move.game_id m = Game.id g) →
  (∀ g0, g0 ∈ games db →
         P g0 (game_players db (Game.id g0)) (game_moves db (Game.id g0))) →
  P (f g) (game_players db (Game.id g) ++ ps_new) (game_moves db (Game.id g) ++ ms_new) →
  ∀ g', g' ∈ update_row (Game.id g) f (games db) →
    P g' (game_players (mkDB (users db) (update_row (Game.id g) f (games db))
                             (players db ++ ps_new) (moves db ++ ms_new)) (Game.id g'))
         (game_moves (mkDB (users db) (update_row (Game.id g) f (games db))
                           (players db ++ ps_new) (moves db ++ ms_new)) (Game.id g')).
Proof.
  intros Hids Hg Hf Hps Hms Hall Hnew g' (g0 & Hg0 & ->)%elem_of_update_row.
  unfold game_players, game_moves. simpl. rewrite !filter_app.
  case_bool_decide as Hid.
  - assert (g0 = g) as ->.
    { pose proof (s_get_unique Game.id _ g Hids Hg) as H1.
      pose proof (s_get_unique Game.id _ g0 Hids Hg0) as H2.
      rewrite Hid in H2. congruence. }
    rewrite Hf. rewrite (filter_all _ ps_new) by done.
    by rewrite (filter_all _ ms_new) by done.
  - rewrite (filter_none _ ps_new), (filter_none _ ms_new), !app_nil_r.
    + by apply Hall.
    + intros m Hm Hx. apply Hid. rewrite <- Hx. by apply Hms.
    + intros p Hp Hx. apply Hid. rewrite <- Hx. by apply Hps.
Qed.

(** The same when a game is created. *)
Lemma per_game_create (P : Game.t → list Player.t → list Move.t → Prop) db gnew pnew :
  Inv db → Game.id gnew ∉ Game.id <$> games db →
  Player.game_id pnew = Game.id gnew →
  (∀ g0, g0 ∈ games db →
         P g0 (game_players db (Game.id g0)) (game_moves db (Game.id g0))) →
  P gnew [pnew] [] →
  ∀ g', g' ∈ games db ++ [gnew] →
    P g' (game_players (mkDB (users db) (games db ++ [gnew]) (players db ++ [pnew])
                             (moves db)) (Game.id g'))
         (game_moves (mkDB (users db) (games db ++ [gnew]) (players db ++ [pnew])
                           (moves db)) (Game.id g')).
Proof.
  intros [Hids Hpfk Hmfk _] Hfresh Hp Hall Hnew g' Hg'.
  unfold game_players, game_moves. simpl. rewrite filter_app.
  apply elem_of_app in Hg' as [Hg'|Hg'%list_elem_of_singleton].
  - rewrite (filter_cons _ pnew), decide_False, filter_nil, app_nil_r; [by apply Hall|].
    rewrite Hp. intros Heq. apply Hfresh. rewrite Heq. apply list_elem_of_fmap. by exists g'.
  - subst g'. rewrite (filter_cons _ pnew), decide_True, filter_nil by done.
    rewrite (filter_none _ (players db)), (filter_none _ (moves db)); [done| |].
    + intros m Hm Hx. apply Hfresh. rewrite <- Hx. by apply Hmfk.
    + intros p Hp' Hx. apply Hfresh. rewrite <- Hx. by apply Hpfk.
Qed.

Lemma Inv2_empty : Inv2 empty_db.
Proof. intros g Hg. by apply elem_of_nil in Hg. Qed.

Lemma game_inv2_fresh g p :
  Game.winner_id g = None → Game.turn_no g = 0 → Game.status g ≠ finished →
  game_inv2 g p [].
Proof.
  intros Hw Ht Hs. split.
  - intros m Hm. by apply elem_of_nil in Hm.
  - exists empty_board. rewrite Hw. split; reflexivity.
  - lia.
  - done.
Qed.

Lemma Inv2_exec it c db : Inv db → Inv2 db → Inv2 (exec it c db).
Proof.
  intros HI HI2. destruct c as [name|uid|gid uid now|gid uid row col now]; simpl.
  - exact HI2.
  - destruct (create_game it uid db) as [[e|g] db'] eqn:H; apply create_game_inv in H.
    + by subst.
    + destruct H as (-> & _ & ->). simpl. unfold Inv2. cbn [games].
      apply (per_game_create game_inv2); try done.
      * apply fresh_id_not_in.
      * by apply game_inv2_fresh.
  - destruct (join_game gid uid now db) as [[e|[]] db'] eqn:H; apply join_game_inv in H.
    + by subst.
    + destruct H as (g & Hget & Hst & _ & Hlen & Huser & Hslot & ->). simpl.
      destruct (s_get_Some _ _ _ _ Hget) as [Hg <-].
      destruct (inv_games db HI g Hg) as [Hturn Hno Hcells Hseats Hopen Hwait].
      destruct Hseats as [(p0 & Hps & Ho0 & _)|(p0 & p1 & Hps & _ & _ & _ & Hnw)]; [|done].
      rewrite Hps. simpl. rewrite <- (app_nil_r (moves db)).
      unfold Inv2. cbn [games].
      apply (per_game_update game_inv2); try done.
      * by destruct HI.
      * intros p ->%list_elem_of_singleton. done.
      * intros m Hm. by apply elem_of_nil in Hm.
      * rewrite app_nil_r.
        assert (game_moves db (Game.id g) = []) as ->.
        { apply nil_length_inv. rewrite (Hwait Hst) in Hturn. lia. }
        apply game_inv2_fresh; simpl; [|by apply Hwait|done].
        apply Hopen. by rewrite Hst.
  - destruct (move it gid uid row col now db) as [[e|v] db'] eqn:H.
    { apply move_inv in H. by subst. }
    apply move_inr in H; [|by destruct HI].
    destruct H as (g & u & b & w & Hget & Hst & -> & (p & Hp & Hu & Ho) & Hcell & Hb & Hw & ->).
    simpl. destruct (s_get_Some _ _ _ _ Hget) as [Hg <-].
    destruct (inv_games db HI g Hg) as [Hturn Hno Hcells Hseats Hopen Hwait].
    destruct (Hopen ltac:(by rewrite Hst)) as [Hwin H9].
    destruct (HI2 g Hg) as [Hturns _ _ _].
    rewrite <- (app_nil_r (players db)).
    unfold Inv2. cbn [games].
    apply (per_game_update game_inv2); try done.
    + by destruct HI.
    + apply game_after_move_id.
    + intros p' Hp'. by apply elem_of_nil in Hp'.
    + intros m ->%list_elem_of_singleton. done.
    + rewrite app_nil_r. split.
      * intros m [Hm|Hm%list_elem_of_singleton]%elem_of_app; [by apply Hturns|].
        subst m. exists p. split; [done|]. split; [done|]. simpl. rewrite Ho.
        f_equal. lia.
      * exists b. split; [done|]. rewrite Hw. f_equal.
        unfold game_after_move. destruct w; [done|]. by case_decide.
      * unfold game_after_move. destruct w; [simpl; lia|]. case_decide; simpl; lia.
      * unfold game_after_move. destruct w; [done|]. case_decide; simpl; [lia|].
        by rewrite Hst.
Qed.

Lemma reachable_Inv2 it db : reachable it db → Inv2 db.
Proof.
  induction 1 as [|c db Hreach IH]; [apply Inv2_empty|].
  apply Inv2_exec; [by eapply reachable_Inv|done].
Qed.

(** ** The log and the outcome of a game *)

(** X6. In every state the service can reach, each move of a game was made
    by the user in the seat whose [player_order] is the parity of the
    turn counter the mover read ([move_no - 1]), and two moves of a game
    with consecutive [move_no] were made by different users. *)
Theorem moves_alternate it db g :
  reachable it db → g ∈ games db →
  (∀ m, m ∈ game_moves db (Game.id g) →
        ∃ p, p ∈ game_players db (Game.id g) ∧
             Player.user_id p = Move.user_id m ∧
             Player.player_order p = (Move.move_no m - 1) `mod` 2) ∧
  (∀ m1 m2, m1 ∈ game_moves db (Game.id g) → m2 ∈ game_moves db (Game.id g) →
            Move.move_no m2 = Move.move_no m1 + 1 →
            Move.user_id m1 ≠ Move.user_id m2).
Proof.
  intros Hreach Hg.
  destruct (reachable_Inv2 it db Hreach g Hg) as [Hturns _ _ _].
  destruct (inv_games db (reachable_Inv it db Hreach) g Hg) as [_ _ _ Hseats _ _].
  split; [exact Hturns|].
  intros m1 m2 Hm1 Hm2 Hno.
  destruct (Hturns m1 Hm1) as (q1 & Hq1 & <- & Ho1).
  destruct (Hturns m2 Hm2) as (q2 & Hq2 & <- & Ho2).
  rewrite Hno in Ho2. replace (Move.move_no m1 + 1 - 1) with (Move.move_no m1) in Ho2 by lia.
  assert (Player.player_order q1 ≠ Player.player_order q2) as Hne.
  { rewrite Ho1, Ho2.
    pose proof (Z.mod_pos_bound (Move.move_no m1) 2 ltac:(lia)).
    pose proof (Z.mod_pos_bound (Move.move_no m1 - 1) 2 ltac:(lia)).
    intros Heq. assert ((Move.move_no m1 - (Move.move_no m1 - 1)) `mod` 2 = 0) as Hz.
    { rewrite Zminus_mod, Heq, Z.sub_diag. done. }
    replace (Move.move_no m1 - (Move.move_no m1 - 1)) with 1 in Hz by lia. done. }
  destruct Hseats as [(p0 & Hps & _)|(p0 & p1 & Hps & H0 & H1 & Hu & _)];
    rewrite Hps in Hq1, Hq2.
  - apply list_elem_of_singleton in Hq1, Hq2. congruence.
  - apply elem_of_cons in Hq1 as [->|Hq1%list_elem_of_singleton];
      apply elem_of_cons in Hq2 as [->|Hq2%list_elem_of_singleton]; subst;
      congruence.
Qed.

(** X6 in the state reached after two moves of game 1. *)
Lemma moves_alternate_witness :
  (∀ m, m ∈ game_moves db_two_moves 1 →
        ∃ p, p ∈ game_players db_two_moves 1 ∧
             Player.user_id p = Move.user_id m ∧
             Player.player_order p = (Move.move_no m - 1) `mod` 2) ∧
  (∀ m1 m2, m1 ∈ game_moves db_two_moves 1 → m2 ∈ game_moves db_two_moves 1 →
            Move.move_no m2 = Move.move_no m1 + 1 →
            Move.user_id m1 ≠ Move.user_id m2).
Proof.
  refine (moves_alternate 0 db_two_moves
            (Game.mk 1 in_progress 0 100 0 None 2) (reachable_run 0 _) _).
  vm_compute. by left.
Defined.

(** X7. In every state the service can reach, the board of every game
    rebuilds from its moves without an error and [winner_id] is what
    [find_winner] returns on it: a game that is not finished has no
    triple filled by one user, a winner is recorded only on a finished
    game and fills a triple of the board, the turn counter is between 0
    and 9, and a game finished without a winner has had its 9 moves. *)
Theorem winner_is_find_winner it db g :
  reachable it db → g ∈ games db →
  ∃ b, construct_board (order_by_move_no (game_moves db (Game.id g))) = inr b ∧
       find_winner b = inr (Game.winner_id g) ∧
       (Game.status g ≠ finished → no_line b) ∧
       (∀ w, Game.winner_id g = Some w →
             Game.status g = finished ∧ ∃ c, c ∈ VICTORY_CONDITIONS ∧ filled_by b c w) ∧
       0 ≤ Game.turn_no g ≤ 9 ∧
       (Game.status g = finished → Game.winner_id g = None → Game.turn_no g = 9).
Proof.
  intros Hreach Hg.
  destruct (reachable_Inv2 it db Hreach g Hg) as [_ (b & Hb & Hw) H9 Hdraw].
  destruct (inv_games db (reachable_Inv it db Hreach) g Hg) as [Hturn _ _ _ Hopen _].
  destruct (construct_board_spec _ _ Hb) as (Hgrid & _ & _).
  destruct (find_winner_spec b Hgrid) as (w' & Hw' & Hspec).
  rewrite Hw in Hw'. injection Hw' as <-.
  exists b. split; [done|]. split; [done|]. split; [|split; [|split; [lia|done]]].
  - intros Hst. destruct (Hopen Hst) as [Hnone _]. rewrite Hnone in Hspec. exact Hspec.
  - intros w Hwin. split.
    + destruct (decide (Game.status g = finished)) as [|Hst]; [done|].
      destruct (Hopen Hst) as [Hnone _]. congruence.
    + rewrite Hwin in Hspec. destruct Hspec as (pre & c & post & Heq & Hf & _).
      exists c. split; [|done]. rewrite Heq. apply elem_of_app. right. by left.
Qed.

(** X7 for the game won by user 1 in the scenario of the leaderboard. *)
Lemma winner_is_find_winner_witness :
  ∃ b, construct_board (order_by_move_no (game_moves db_efficiency 1)) = inr b ∧
       find_winner b = inr (Some 1) ∧
       (finished ≠ finished → no_line b) ∧
       (∀ w, Some 1 = Some w →
             finished = finished ∧ ∃ c, c ∈ VICTORY_CONDITIONS ∧ filled_by b c w) ∧
       0 ≤ 5 ≤ 9 ∧
       (finished = finished → Some 1 = None → 5 = 9).
Proof.
  refine (winner_is_find_winner 0 db_efficiency (Game.mk 1 finished 0 100 105 (Some 1) 5)
            (reachable_run 0 _) _).
  vm_compute. by left.
Defined.

(** ** [get_game] *)

Lemma get_game_found it db gid g :
  reachable it db → s_get Game.id (games db) gid = Some g →
  ∃ v, get_game gid db = inr v ∧
       view_id v = gid ∧ view_status v = Game.status g ∧
       view_winner_id v = Game.winner_id g ∧
       construct_board (order_by_move_no (game_moves db gid)) = inr (view_board v) ∧
       view_players v = Player.user_id <$> game_players db gid ∧
       (Game.status g ≠ in_progress → view_next_player_id v = None) ∧
       (Game.status g = in_progress →
        ∃ p, p ∈ game_players db gid ∧
             Player.player_order p = Game.turn_no g `mod` 2 ∧
             view_next_player_id v = Some (Player.user_id p)).
Proof.
  intros Hreach Hget. destruct (s_get_Some _ _ _ _ Hget) as [Hg Hid].
  destruct (reachable_Inv2 it db Hreach g Hg) as [_ (b & Hb & _) _ _].
  destruct (inv_games db (reachable_Inv it db Hreach) g Hg) as [_ _ _ Hseats _ _].
  rewrite Hid in Hb, Hseats.
  unfold get_game, get_game_view, mbind, M_bind, query, raise, lift, mret, M_ret.
  cbn beta iota zeta. rewrite Hget, Hid, Hb. cbn [fst].
  eexists. split; [reflexivity|]. cbn [view_id view_status view_winner_id view_board
                                       view_players view_next_player_id].
  repeat (split; [done|]).
  unfold players_in_order, next_player.
  destruct Hseats as [(p0 & Hps & Ho0 & Hst)|(p0 & p1 & Hps & Ho0 & Ho1 & Hu & Hst)];
    rewrite Hps.
  - rewrite !order_dict_one, Ho0. simpl. split; [done|]. split.
    + intros Hn. by rewrite decide_True.
    + intros Hip. congruence.
  - rewrite !(order_dict_two p0 p1) by done. simpl. split; [done|]. split.
    + intros Hn. by rewrite decide_True.
    + intros Hip. rewrite decide_False by (by intros ?).
      pose proof (Z.mod_pos_bound (Game.turn_no g) 2 ltac:(lia)) as Hm.
      destruct (decide (Game.turn_no g `mod` 2 = 0)) as [H0|H0].
      * exists p0. split; [by left|]. by rewrite Ho0.
      * rewrite decide_True by lia. exists p1. split; [right; by left|].
        split; [lia|done].
Qed.

(** X8. [get_game] raises 404 "Game not Found" for an id that [s.get] does
    not find.  In every state the service can reach it returns a view for
    every game there is, never an [IndexError]: the view carries the
    status and the winner of the row, the board rebuilt from the moves,
    the seated users in seat order, and as next player the user in the
    seat of parity [turn_no % 2] while the game is in progress, none
    otherwise. *)
Theorem get_game_spec it db gid :
  reachable it db →
  (s_get Game.id (games db) gid = None →
   get_game gid db = inl (HTTPException 404 "Game not Found")) ∧
  (∀ g, s_get Game.id (games db) gid = Some g →
     ∃ v, get_game gid db = inr v ∧
          view_id v = gid ∧ view_status v = Game.status g ∧
          view_winner_id v = Game.winner_id g ∧
          construct_board (order_by_move_no (game_moves db gid)) = inr (view_board v) ∧
          view_players v = Player.user_id <$> game_players db gid ∧
          (Game.status g ≠ in_progress → view_next_player_id v = None) ∧
          (Game.status g = in_progress →
           ∃ p, p ∈ game_players db gid ∧
                Player.player_order p = Game.turn_no g `mod` 2 ∧
                view_next_player_id v = Some (Player.user_id p))).
Proof.
  intros Hreach. split.
  - intros Hg. unfold get_game, get_game_view, mbind, M_bind, query, raise.
    cbn beta iota zeta. by rewrite Hg.
  - intros g Hget. by apply (get_game_found it).
Qed.

(** X8 in the state reached after two moves of game 1, for game 1. *)
Lemma get_game_spec_witness :
  (s_get Game.id (games db_two_moves) 1 = None →
   get_game 1 db_two_moves = inl (HTTPException 404 "Game not Found")) ∧
  (∀ g, s_get Game.id (games db_two_moves) 1 = Some g →
     ∃ v, get_game 1 db_two_moves = inr v ∧
          view_id v = 1 ∧ view_status v = Game.status g ∧
          view_winner_id v = Game.winner_id g ∧
          construct_board (order_by_move_no (game_moves db_two_moves 1))
            = inr (view_board v) ∧
          view_players v = Player.user_id <$> game_players db_two_moves 1 ∧
          (Game.status g ≠ in_progress → view_next_player_id v = None) ∧
          (Game.status g = in_progress →
           ∃ p, p ∈ game_players db_two_moves 1 ∧
                Player.player_order p = Game.turn_no g `mod` 2 ∧
                view_next_player_id v = Some (Player.user_id p))).
Proof. exact (get_game_spec 0 db_two_moves 1 (reachable_run 0 _)). Defined.

(** ** The lifecycle of a game *)

Lemma s_get_update_row_ne gid f gs g :
  NoDup (Game.id <$> gs) → (∀ g', Game.id (f g') = Game.id g') →
  g ∈ gs → Game.id g ≠ gid →
  s_get Game.id (update_row gid f gs) (Game.id g) = Some g.
Proof.
  intros Hnd Hf Hg Hne. apply s_get_unique.
  - by rewrite update_row_id.
  - apply elem_of_update_row. exists g. by rewrite bool_decide_eq_false_2.
Qed.

Lemma game_players_snoc_ne db gid p us gs ms :
  Player.game_id p ≠ gid →
  game_players (mkDB us gs (players db ++ [p]) ms) gid = game_players db gid.
Proof.
  intros Hp. unfold game_players. simpl. rewrite filter_app.
  rewrite filter_cons, decide_False by done. by rewrite filter_nil, app_nil_r.
Qed.

(** X9. In every state the service can reach, whatever the next call is,
    every game is still there under its id; its turn counter stays or
    grows by one; its status stays or moves forward along waiting, in
    progress, finished; and a finished game is frozen: its row, its seats
    and its moves are what they were. *)
Theorem game_progress it db c g :
  reachable it db → g ∈ games db →
  ∃ g', s_get Game.id (games (exec it c db)) (Game.id g) = Some g' ∧
        Game.turn_no g ≤ Game.turn_no g' ≤ Game.turn_no g + 1 ∧
        status_rank (Game.status g) ≤ status_rank (Game.status g') ∧
        (Game.status g = finished →
         g' = g ∧
         game_players (exec it c db) (Game.id g) = game_players db (Game.id g) ∧
         game_moves (exec it c db) (Game.id g) = game_moves db (Game.id g)).
Proof.
  intros Hreach Hg. pose proof (reachable_Inv it db Hreach) as HI.
  pose proof (inv_game_ids db HI) as Hids.
  pose proof (s_get_unique Game.id _ g Hids Hg) as Hget.
  assert (∃ g', s_get Game.id (games db) (Game.id g) = Some g' ∧
                Game.turn_no g ≤ Game.turn_no g' ≤ Game.turn_no g + 1 ∧
                status_rank (Game.status g) ≤ status_rank (Game.status g') ∧
                (Game.status g = finished →
                 g' = g ∧ game_players db (Game.id g) = game_players db (Game.id g) ∧
                 game_moves db (Game.id g) = game_moves db (Game.id g))) as Hsame.
  { exists g. split; [done|]. split; [lia|]. split; [lia|done]. }
  destruct c as [name|uid|gid uid now|gid uid row col now]; simpl.
  - exact Hsame.
  - destruct (create_game it uid db) as [[e|gnew] db'] eqn:H; apply create_game_inv in H.
    + by subst.
    + destruct H as (-> & _ & ->).
      assert (fresh_id (Game.id <$> games db) ≠ Game.id g) as Hne.
      { intros Heq. apply (fresh_id_not_in (Game.id <$> games db)). rewrite Heq.
        apply list_elem_of_fmap. by exists g. }
      exists g. cbn [snd games]. split; [by rewrite s_get_app_old|].
      split; [lia|]. split; [lia|]. intros _. split; [done|].
      split; [by apply game_players_snoc_ne|done].
  - destruct (join_game gid uid now db) as [[e|[]] db'] eqn:H; apply join_game_inv in H.
    + by subst.
    + destruct H as (g0 & Hget0 & Hst0 & _ & _ & _ & _ & ->). cbn [snd games].
      destruct (s_get_Some _ _ _ _ Hget0) as [Hg0 Hid0].
      destruct (decide (Game.id g = gid)) as [Heq|Hne].
      * assert (g0 = g) as -> by (rewrite <- Heq, Hget in Hget0; congruence).
        case_decide.
        -- exists (set_started now g). split.
           { rewrite <- Heq. by apply s_get_update_row. }
           simpl. rewrite Hst0. simpl. split; [lia|]. split; [lia|done].
        -- exists g. split; [done|]. rewrite Hst0. split; [lia|]. split; [lia|done].
      * exists g. split.
        { case_decide; [by apply s_get_update_row_ne|done]. }
        split; [lia|]. split; [lia|]. intros _. split; [done|].
        split; [apply game_players_snoc_ne; simpl; congruence|done].
  - destruct (move it gid uid row col now db) as [[e|v] db'] eqn:H.
    { apply move_inv in H. by subst. }
    apply move_inr in H; [|done].
    destruct H as (g0 & u & b & w & Hget0 & Hst0 & -> & _ & _ & _ & _ & ->). cbn [snd games].
    destruct (s_get_Some _ _ _ _ Hget0) as [Hg0 Hid0].
    destruct (decide (Game.id g = gid)) as [Heq|Hne].
    + assert (g0 = g) as -> by (rewrite <- Heq, Hget in Hget0; congruence).
      exists (game_after_move w now g). split.
      { rewrite <- Heq. apply s_get_update_row; [done|apply game_after_move_id|done]. }
      rewrite Hst0. unfold game_after_move.
      destruct w; [|case_decide]; simpl; rewrite ?Hst0; simpl;
        (split; [lia|]); (split; [lia|done]).
    + exists g. split.
      { apply s_get_update_row_ne; [done|apply game_after_move_id|done|done]. }
      split; [lia|]. split; [lia|]. intros _. split; [done|]. split; [done|].
      apply game_moves_snoc_ne. simpl. congruence.
Qed.

(** X9 for the game won by user 1 and a further move on it. *)
Lemma game_progress_witness :
  ∃ g', s_get Game.id (games (exec 0 (SubmitMove 1 (Some 3) 2 2 300) db_efficiency)) 1
        = Some g' ∧
        5 ≤ Game.turn_no g' ≤ 5 + 1 ∧
        status_rank finished ≤ status_rank (Game.status g') ∧
        (finished = finished →
         g' = Game.mk 1 finished 0 100 105 (Some 1) 5 ∧
         game_players (exec 0 (SubmitMove 1 (Some 3) 2 2 300) db_efficiency) 1
           = game_players db_efficiency 1 ∧
         game_moves (exec 0 (SubmitMove 1 (Some 3) 2 2 300) db_efficiency) 1
           = game_moves db_efficiency 1).
Proof.
  refine (game_progress 0 db_efficiency (SubmitMove 1 (Some 3) 2 2 300)
            (Game.mk 1 finished 0 100 105 (Some 1) 5) (reachable_run 0 _) _).
  vm_compute. by left.
Defined.

(** ** The view that [move] returns *)

#[global] Instance move_no_le_trans : Transitive move_no_le.
Proof. intros a b c. unfold move_no_le. lia. Qed.

#[global] Instance move_no_le_total : Total move_no_le.
Proof. intros a b. unfold move_no_le. lia. Qed.

Lemma seq_sorted a n : StronglySorted Z.le (Z.of_nat <$> seq a n).
Proof.
  revert a. induction n as [|n IH]; intros a; simpl; constructor; [apply IH|].
  rewrite Forall_fmap. apply Forall_forall. intros i Hi%elem_of_seq. simpl. lia.
Qed.

Lemma StronglySorted_of_fmap {A} (f : A → Z) l :
  StronglySorted Z.le (f <$> l) → StronglySorted (λ a b, f a ≤ f b) l.
Proof.
  induction l as [|x l IH]; intros H; [constructor|].
  rewrite fmap_cons in H. apply StronglySorted_inv in H as [H1 H2]. constructor; [by apply IH|].
  by rewrite Forall_fmap in H2.
Qed.

Lemma NoDup_fmap_eq {A B} (f : A → B) l x y :
  NoDup (f <$> l) → x ∈ l → y ∈ l → f x = f y → x = y.
Proof.
  induction l as [|z l IH]; intros Hnd Hx Hy Hf; [by apply elem_of_nil in Hx|].
  rewrite fmap_cons in Hnd. apply NoDup_cons in Hnd as [Hz Hnd].
  apply elem_of_cons in Hx as [->|Hx]; apply elem_of_cons in Hy as [->|Hy].
  - done.
  - destruct Hz. rewrite Hf. apply list_elem_of_fmap. by exists y.
  - destruct Hz. rewrite <- Hf. apply list_elem_of_fmap. by exists x.
  - by apply IH.
Qed.

(** Moves numbered 1, 2, ... in insertion order are already in the order
    of [order_by(Move.move_no)]. *)
Lemma order_by_move_no_stored ms :
  Move.move_no <$> ms = Z.of_nat <$> seq 1 (length ms) →
  order_by_move_no ms = ms.
Proof.
  intros Hno. unfold order_by_move_no.
  assert (NoDup (Move.move_no <$> ms)) as Hnd.
  { rewrite Hno. apply (NoDup_fmap_2 _), NoDup_seq. }
  apply (StronglySorted_unique_strong move_no_le).
  - intros x1 x2 H1 H2 Hle Hge. unfold move_no_le in *.
    rewrite merge_sort_Permutation in H1.
    apply (NoDup_fmap_eq Move.move_no ms); [done..|lia].
  - apply StronglySorted_merge_sort; apply _.
  - apply (StronglySorted_of_fmap Move.move_no). rewrite Hno. apply seq_sorted.
  - apply merge_sort_Permutation.
Qed.

Lemma board_set_get b row col v b' rc :
  grid3x3 b → board_set b row col v = inr b' → in_grid rc →
  board_get b' rc
  = if decide (rc = (py_norm row, py_norm col)) then inr v else board_get b rc.
Proof.
  intros Hb Hset Hrc.
  destruct (board_set_inv3 _ _ _ _ _ Hb Hset) as ([Hrow Hcol] & r & Hr & ->).
  assert (length r = 3%nat) as Hlr.
  { destruct Hb as [_ Hrows]. rewrite Forall_forall in Hrows. apply Hrows.
    by eapply list_elem_of_lookup_2. }
  rewrite (board_get_cell _ rc (grid3x3_insert b _ _ r v Hb Hr) Hrc).
  rewrite (board_get_cell b rc Hb Hrc).
  rewrite cell_insert; [|done|unfold py_norm; case_decide; lia].
  destruct Hrc as [H1 H2]. destruct rc as [x y]. simpl in *.
  assert (0 ≤ py_norm row ∧ 0 ≤ py_norm col) as [Hpr Hpc]
    by (unfold py_norm; repeat case_decide; lia).
  destruct (decide ((x, y) = (py_norm row, py_norm col))) as [[= -> ->]|Hne].
  - by rewrite decide_True.
  - rewrite decide_False; [done|]. intros [Hx Hy]. apply Hne. f_equal; lia.
Qed.

Lemma move_apply_view it gid uid row col now e db v db' :
  move_apply it gid uid row col now e db = (inr v, db') →
  get_game gid db' = inr v.
Proof.
  unfold move_apply, claim_turn, revert_turn, update_games, get_game.
  unfold mbind, M_bind, query, raise, lift, mret, M_ret. cbn beta iota zeta.
  case_decide as Hcount; [done|].
  destruct (head _) as [m0|]; [done|].
  destruct (insert_move _ _ _ _ _ _ _) as [[err|[]] db2]; [done|].
  destruct (construct_board _) as [err|b]; [done|].
  destruct (find_winner b) as [err|w]; [done|].
  cbn beta iota zeta. destruct w as [w|]; [|case_decide]; cbn beta iota zeta;
    intros Hv; pose proof (get_game_view_db _ _ _ _ Hv) as Heq; subst db'; by rewrite Hv.
Qed.

Lemma move_returns_view it gid uid row col now db v db' :
  move it gid uid row col now db = (inr v, db') → get_game gid db' = inr v.
Proof.
  unfold move, transaction, move_body. unfold mbind at 1. unfold M_bind at 1.
  destruct (move_guards gid uid db) as [[err|e] db1] eqn:Hg; [done|].
  destruct (move_apply _ _ _ _ _ _ _ _) as [[err|v'] db2] eqn:Happ; [done|].
  intros [= <- <-]. by apply move_apply_view in Happ.
Qed.

(** X10. In every state the service can reach, an accepted move returns
    the view that [get_game] then returns.  Before the call the mover was
    the next player of a game in progress; the new board is the old one
    with the mover's id written at the cell ([row] and [col] wrapped as
    Python indices), every other cell as it was; the players are the
    same; a winner, if any, is the mover; while the game stays in
    progress the next player is the other seated user; otherwise the game
    is finished and there is no next player. *)
Theorem move_view it db gid uid row col now v db' :
  reachable it db →
  move it gid uid row col now db = (inr v, db') →
  ∃ u v0,
    uid = Some u ∧
    get_game gid db = inr v0 ∧ get_game gid db' = inr v ∧
    view_status v0 = in_progress ∧ view_next_player_id v0 = Some u ∧
    board_set (view_board v0) row col (Some u) = inr (view_board v) ∧
    board_get (view_board v) (py_norm row, py_norm col) = inr (Some u) ∧
    (∀ rc, in_grid rc → rc ≠ (py_norm row, py_norm col) →
           board_get (view_board v) rc = board_get (view_board v0) rc) ∧
    view_players v = view_players v0 ∧
    (view_winner_id v = None ∨ view_winner_id v = Some u) ∧
    (view_status v = in_progress →
       view_winner_id v = None ∧
       ∃ o, view_next_player_id v = Some o ∧ o ≠ u ∧ o ∈ view_players v) ∧
    (view_status v ≠ in_progress →
       view_status v = finished ∧ view_next_player_id v = None).
Proof.
  intros Hreach Hmove.
  pose proof (reachable_Inv it db Hreach) as HI.
  pose proof (move_returns_view _ _ _ _ _ _ _ _ _ Hmove) as Hview.
  assert (reachable it db') as Hreach'.
  { replace db' with (exec it (SubmitMove gid uid row col now) db);
      [by constructor|]. simpl. by rewrite Hmove. }
  pose proof Hmove as Hinr. apply move_inr in Hinr; [|by destruct HI].
  destruct Hinr as (g & u & b & w & Hget & Hst & -> & (p & Hp & Hpu & Hpo)
                    & Hcell & Hb & Hw & Hdb').
  destruct (s_get_Some _ _ _ _ Hget) as [Hg Hid].
  destruct (inv_games db HI g Hg) as [Hturn Hno _ Hseats Hopen _].
  rewrite Hid in Hturn, Hno, Hseats.
  destruct (Hopen ltac:(by rewrite Hst)) as [Hnowin H9].
  destruct (get_game_found it db gid g Hreach Hget)
    as (v0 & Hv0 & _ & Hst0 & Hw0 & Hb0 & Hps0 & _ & Hnext0).
  set (m := new_move it db gid u row col (Game.turn_no g)) in *.
  assert (s_get Game.id (games db') gid = Some (game_after_move w now g)) as Hget'.
  { rewrite Hdb'. cbn [games].
    apply s_get_update_row; [by destruct HI|apply game_after_move_id|done]. }
  assert (game_players db' gid = game_players db gid) as Hps' by (by rewrite Hdb').
  assert (game_moves db' gid = game_moves db gid ++ [m]) as Hms'.
  { rewrite Hdb'. by apply game_moves_snoc. }
  destruct (get_game_found it db' gid _ Hreach' Hget')
    as (v' & Hv' & _ & Hst' & Hw' & Hb' & Hpsv & Hnone' & Hnext').
  rewrite Hview in Hv'. injection Hv' as <-.
  rewrite Hps' in Hpsv, Hnext'.
  rewrite (order_by_move_no_stored _ Hno) in Hb0.
  assert (order_by_move_no (game_moves db gid ++ [m]) = game_moves db gid ++ [m]) as Hord.
  { apply order_by_move_no_stored. rewrite fmap_app, length_app, Hno. simpl.
    rewrite Nat.add_1_r, seq_S, fmap_app. simpl. do 2 f_equal. lia. }
  rewrite Hms', Hord in Hb'. rewrite Hord in Hb.
  assert (view_board v = b) as Hvb by congruence.
  destruct (construct_board_spec _ _ Hb0) as (Hgrid0 & _ & _).
  assert (board_set (view_board v0) row col (Some u) = inr (view_board v)) as Hset.
  { revert Hb'. unfold construct_board in *. rewrite fmap_app, construct_board_loop_app.
    rewrite Hb0. simpl. destruct (board_set _ _ _ _) as [e|b1]; [done|].
    intros [= <-]. done. }
  destruct (board_set_inv3 _ _ _ _ _ Hgrid0 Hset) as ([Hrow Hcol] & _).
  assert (in_grid (py_norm row, py_norm col)) as Hin.
  { unfold in_grid, py_norm. simpl. repeat case_decide; lia. }
  assert (∀ rc, in_grid rc →
            board_get (view_board v) rc
            = if decide (rc = (py_norm row, py_norm col)) then inr (Some u)
              else board_get (view_board v0) rc) as Hcells.
  { intros rc Hrc. by apply (board_set_get _ row col). }
  (* the seats *)
  destruct Hseats as [(p0 & _ & _ & Hwt)|(p0 & p1 & Hps & Ho0 & Ho1 & Hu01 & _)];
    [congruence|].
  pose proof (Z.mod_pos_bound (Game.turn_no g) 2 ltac:(lia)) as Hmod.
  assert (∀ q q', q ∈ game_players db gid → q' ∈ game_players db gid →
                  Player.player_order q = Player.player_order q' → q = q') as Hseat.
  { intros q q'. rewrite Hps, !elem_of_cons, !elem_of_nil.
    intros [->|[->|[]]] [->|[->|[]]]; (done || lia). }
  (* no triple was filled before the move *)
  assert (no_line (view_board v0)) as Hnoline.
  { destruct (reachable_Inv2 it db Hreach g Hg) as [_ (b0 & Hb0' & Hfw) _ _].
    rewrite Hid, (order_by_move_no_stored _ Hno), Hb0 in Hb0'. injection Hb0' as <-.
    destruct (find_winner_spec _ Hgrid0) as (w0 & Hw0' & Hspec).
    rewrite Hfw, Hnowin in Hw0'. injection Hw0' as <-. exact Hspec. }
  assert (w = None ∨ w = Some u) as Hwu.
  { destruct w as [w|]; [right|by left].
    assert (grid3x3 b) as Hgrid by (by destruct (construct_board_spec _ _ Hb)).
    destruct (find_winner_spec _ Hgrid) as (w1 & Hw1 & Hspec).
    rewrite Hw in Hw1. injection Hw1 as <-.
    destruct Hspec as (pre & c & post & Hvc & Hfill & _).
    assert (c ∈ VICTORY_CONDITIONS) as Hc.
    { rewrite Hvc. apply elem_of_app. right. by left. }
    pose proof VICTORY_CONDITIONS_shape as Hshape. rewrite Forall_forall in Hshape.
    destruct (Hshape c Hc) as (q1 & q2 & q3 & -> & Hq1 & Hq2 & Hq3).
    destruct (decide (Forall (λ rc, rc ≠ (py_norm row, py_norm col)) [q1; q2; q3]))
      as [Hall|Hsome].
    - exfalso. apply (Hnoline _ w Hc). unfold filled_by in *.
      rewrite Forall_forall in Hfill, Hall. apply Forall_forall. intros rc Hrc.
      assert (in_grid rc) as Hrcg.
      { revert Hrc. rewrite !elem_of_cons, elem_of_nil. by intros [->|[->|[->|[]]]]. }
      rewrite <- (Hfill rc Hrc), <- Hvb, (Hcells rc Hrcg).
      by rewrite decide_False by (by apply Hall).
    - apply not_Forall_Exists in Hsome; [|apply _].
      apply Exists_exists in Hsome as (rc & Hrc & Heq). apply dec_stable in Heq.
      unfold filled_by in Hfill. rewrite Forall_forall in Hfill.
      pose proof (Hfill rc Hrc) as Hf. rewrite <- Hvb, Heq, (Hcells _ Hin) in Hf.
      rewrite decide_True in Hf by done. congruence. }
  exists u, v0. split; [done|]. split; [done|]. split; [done|].
  split; [congruence|]. split.
  { destruct (Hnext0 Hst) as (q & Hq & Hqo & ->). f_equal.
    rewrite <- Hpu. f_equal. apply Hseat; [done..|congruence]. }
  split; [done|]. split.
  { rewrite (Hcells _ Hin). by rewrite decide_True. }
  split.
  { intros rc Hrc Hne. rewrite (Hcells rc Hrc). by rewrite decide_False. }
  split; [congruence|]. split.
  { rewrite Hw'. unfold game_after_move.
    destruct Hwu as [->| ->]; [|by right]. left. case_decide; simpl; done. }
  split.
  - intros Hip. rewrite Hst' in Hip. split.
    + rewrite Hw'. revert Hip. unfold game_after_move.
      destruct w; [done|]. case_decide; [done|]. by simpl.
    + destruct (Hnext' Hip) as (q & Hq & Hqo & ->).
      exists (Player.user_id q). split; [done|]. split.
      * assert (Game.turn_no (game_after_move w now g) = Game.turn_no g + 1) as Ht.
        { unfold game_after_move. destruct w; [done|]. by case_decide. }
        rewrite Ht in Hqo.
        assert (Player.player_order q ≠ Player.player_order p) as Hne.
        { rewrite Hqo, Hpo. rewrite Z.add_mod by lia.
          destruct (decide (Game.turn_no g `mod` 2 = 0)) as [->|H1]; [done|].
          replace (Game.turn_no g `mod` 2) with 1 by lia. done. }
        rewrite <- Hpu. revert Hq Hp Hne. rewrite Hps, !elem_of_cons, !elem_of_nil.
        intros [->|[->|[]]] [->|[->|[]]]; (done || congruence).
      * rewrite Hpsv. apply list_elem_of_fmap. by exists q.
  - intros Hn. rewrite Hst' in Hn |- *. split; [|by apply Hnone'].
    revert Hn. unfold game_after_move. destruct w; [done|]. case_decide; [done|].
    simpl. by rewrite Hst.
Qed.

(** X10 for the third move of game 1, by user 1 at the centre. *)
Lemma move_view_witness :
  ∃ u v0,
    Some 1 = Some u ∧
    get_game 1 db_two_moves = inr v0 ∧
    get_game 1 (move 0 1 (Some 1) 1 1 300 db_two_moves).2
      = inr (mkViewGame 1 in_progress
               [[Some 1; Some 2; None]; [None; Some 1; None]; [None; None; None]]
               (Some 2) [1; 2] None) ∧
    view_status v0 = in_progress ∧ view_next_player_id v0 = Some u ∧
    board_set (view_board v0) 1 1 (Some u)
      = inr [[Some 1; Some 2; None]; [None; Some 1; None]; [None; None; None]] ∧
    board_get [[Some 1; Some 2; None]; [None; Some 1; None]; [None; None; None]]
      (py_norm 1, py_norm 1) = inr (Some u) ∧
    (∀ rc, in_grid rc → rc ≠ (py_norm 1, py_norm 1) →
           board_get [[Some 1; Some 2; None]; [None; Some 1; None]; [None; None; None]] rc
           = board_get (view_board v0) rc) ∧
    [1; 2] = view_players v0 ∧
    (@None Z = None ∨ None = Some u) ∧
    (in_progress = in_progress →
       @None Z = None ∧ ∃ o, Some 2 = Some o ∧ o ≠ u ∧ o ∈ [1; 2]) ∧
    (in_progress ≠ in_progress →
       in_progress = finished ∧ Some 2 = None).
Proof.
  refine (move_view 0 db_two_moves 1 (Some 1) 1 1 300
            (mkViewGame 1 in_progress
               [[Some 1; Some 2; None]; [None; Some 1; None]; [None; None; None]]
               (Some 2) [1; 2] None) _ (reachable_run 0 _) _).
  vm_compute. reflexivity.
Defined.

(** ** The rejections of [join_game] *)

Lemma insert_player_ok gid uid order db :
  (∀ p, p ∈ game_players db gid → Player.player_order p ≠ order) →
  (∀ p, p ∈ game_players db gid → Player.user_id p ≠ uid) →
  insert_player gid uid order db
  = (inr (), mkDB (users db) (games db)
               (players db ++ [Player.mk (fresh_id (Player.id <$> players db)) gid uid order])
               (moves db)).
Proof.
  intros Hslot Huser. unfold insert_player.
  rewrite bool_decide_eq_false_2.
  2:{ intros (p & Hp & Hg & Ho)%Exists_exists. apply (Hslot p); [|done].
      by apply list_elem_of_filter. }
  rewrite bool_decide_eq_false_2; [done|].
  intros (p & Hp & Hg & Hu)%Exists_exists. apply (Huser p); [|done].
  by apply list_elem_of_filter.
Qed.

Lemma insert_player_user_taken gid uid order db p :
  (∀ p, p ∈ game_players db gid → Player.player_order p ≠ order) →
  p ∈ game_players db gid → Player.user_id p = uid →
  insert_player gid uid order db = (inl (IntegrityError "unique_game_user"), db).
Proof.
  intros Hslot Hp Hu. unfold insert_player.
  rewrite bool_decide_eq_false_2.
  2:{ intros (q & Hq & Hg & Ho)%Exists_exists. apply (Hslot q); [|done].
      by apply list_elem_of_filter. }
  rewrite bool_decide_eq_true_2; [done|].
  apply list_elem_of_filter in Hp as [Hg Hp]. apply Exists_exists. by exists p.
Qed.

(** X11. The outcome of [join_game] in every state the service can reach.
    An unknown game gives 404 "Game not found"; a game that is not
    [waiting] gives 400 "Cannot join: Game has started"; an unknown user
    gives 404 "User not found".  Otherwise the game has exactly one seat,
    and the call gives 400 "User already in game" exactly when [user_id]
    equals the primary key of that seat's row (the check reads
    [player.id], not [player.user_id]); when it does not, the user who
    holds the seat is stopped by the constraint [unique_game_user], and
    any other user joins.  Every rejection leaves the store as it is, and
    400 "A game can only have up to 2 players" is never the outcome. *)
Theorem join_game_outcome it db gid uid now :
  reachable it db →
  (s_get Game.id (games db) gid = None →
   join_game gid uid now db = (inl (HTTPException 404 "Game not found"), db)) ∧
  (∀ g, s_get Game.id (games db) gid = Some g →
     (Game.status g ≠ waiting →
      join_game gid uid now db
      = (inl (HTTPException 400 "Cannot join: Game has started"), db)) ∧
     (Game.status g = waiting → s_get User.id (users db) uid = None →
      join_game gid uid now db = (inl (HTTPException 404 "User not found"), db)) ∧
     (Game.status g = waiting → is_Some (s_get User.id (users db) uid) →
      ∃ p0, game_players db gid = [p0] ∧
        (uid = Player.id p0 →
         join_game gid uid now db = (inl (HTTPException 400 "User already in game"), db)) ∧
        (uid ≠ Player.id p0 → uid = Player.user_id p0 →
         join_game gid uid now db = (inl (IntegrityError "unique_game_user"), db)) ∧
        (uid ≠ Player.id p0 → uid ≠ Player.user_id p0 →
         ∃ db', join_game gid uid now db = (inr (), db')))) ∧
  (∀ r db', join_game gid uid now db = (r, db') →
     r ≠ inl (HTTPException 400 "A game can only have up to 2 players") ∧
     (∀ e, r = inl e → db' = db)).
Proof.
  intros Hreach. pose proof (reachable_Inv it db Hreach) as HI.
  assert (∀ g, s_get Game.id (games db) gid = Some g → Game.status g = waiting →
               ∃ p0, game_players db gid = [p0] ∧ Player.player_order p0 = 0) as Hone.
  { intros g Hget Hst. destruct (s_get_Some _ _ _ _ Hget) as [Hg Hid].
    destruct (inv_games db HI g Hg) as [_ _ _ Hseats _ _]. rewrite Hid in Hseats.
    destruct Hseats as [(p0 & Hps & Ho0 & _)|(p0 & p1 & _ & _ & _ & _ & Hnw)]; [|done].
    by exists p0. }
  split; [|split].
  - intros Hg. unfold join_game, transaction, mbind, M_bind, query, raise.
    cbn beta iota zeta. by rewrite Hg.
  - intros g Hget. destruct (s_get_Some _ _ _ _ Hget) as [Hg Hid].
    split; [|split].
    + intros Hst. unfold join_game, transaction, mbind, M_bind, query, raise.
      cbn beta iota zeta. rewrite Hget. by rewrite decide_True.
    + intros Hst Hu. unfold join_game, transaction, mbind, M_bind, query, raise.
      cbn beta iota zeta. rewrite Hget. rewrite decide_False by (by intros ?).
      by rewrite Hu.
    + intros Hst [u Hu]. destruct (Hone g Hget Hst) as (p0 & Hps & Ho0).
      exists p0. split; [done|].
      assert (join_order [p0] = 1) as Hjo.
      { unfold join_order. rewrite bool_decide_eq_true_2; [done|]. by constructor. }
      split; [|split].
      * intros Heq. unfold join_game, transaction, mbind, M_bind, query, raise.
        cbn beta iota zeta. rewrite Hget. rewrite decide_False by (by intros ?).
        rewrite Hu, Hid, Hps. rewrite decide_True; [done|]. apply elem_of_list_to_set. simpl. rewrite Heq. by left.
      * intros Hne Heq. unfold join_game, transaction, mbind, M_bind, query, raise.
        cbn beta iota zeta. rewrite Hget. rewrite decide_False by (by intros ?).
        rewrite Hu, Hid, Hps. rewrite decide_False
          by (intros Hin%elem_of_list_to_set; simpl in Hin;
              by apply list_elem_of_singleton in Hin).
        rewrite decide_False by (simpl; lia).
        fold (join_order [p0]). rewrite Hjo.
        rewrite (insert_player_user_taken gid uid 1 db p0); [done| |by rewrite Hps; left|done].
        intros p. rewrite Hps. intros ->%list_elem_of_singleton. lia.
      * intros Hne Hnu. unfold join_game, transaction, mbind, M_bind, query, raise.
        cbn beta iota zeta. rewrite Hget. rewrite decide_False by (by intros ?).
        rewrite Hu, Hid, Hps. rewrite decide_False
          by (intros Hin%elem_of_list_to_set; simpl in Hin;
              by apply list_elem_of_singleton in Hin).
        rewrite decide_False by (simpl; lia).
        fold (join_order [p0]). rewrite Hjo.
        rewrite (insert_player_ok gid uid 1 db).
        -- rewrite decide_True by done. unfold update_games, mret, M_ret.
           cbn beta iota zeta. eauto.
        -- intros p. rewrite Hps. intros ->%list_elem_of_singleton. lia.
        -- intros p. rewrite Hps. intros ->%list_elem_of_singleton. done.
  - intros r db' Hjoin. split.
    + intros ->. revert Hjoin.
      unfold join_game, transaction, mbind, M_bind, query, raise.
      cbn beta iota zeta.
      destruct (s_get Game.id (games db) gid) as [g|] eqn:Hget; [|done].
      case_decide as Hst; [done|]. try apply dec_stable in Hst.
      destruct (s_get User.id (users db) uid) as [u|]; [|done].
      destruct (s_get_Some _ _ _ _ Hget) as [Hg Hid].
      destruct (Hone g eq_refl Hst) as (p0 & Hps & Ho0). rewrite Hid, Hps.
      case_decide; [done|]. rewrite decide_False by (simpl; lia).
      destruct (insert_player _ _ _ _) as [[e|[]] db1] eqn:Hins.
      * apply insert_player_inv in Hins as [c ->]. done.
      * rewrite decide_True by done. done.
    + intros e ->. by apply join_game_inv in Hjoin.
Qed.

(** X11 in the state where game 1, created by user 1, waits for a second
    player, for user 2. *)
Lemma join_game_outcome_witness :
  (s_get Game.id (games db_waiting) 1 = None →
   join_game 1 2 100 db_waiting = (inl (HTTPException 404 "Game not found"), db_waiting)) ∧
  (∀ g, s_get Game.id (games db_waiting) 1 = Some g →
     (Game.status g ≠ waiting →
      join_game 1 2 100 db_waiting
      = (inl (HTTPException 400 "Cannot join: Game has started"), db_waiting)) ∧
     (Game.status g = waiting → s_get User.id (users db_waiting) 2 = None →
      join_game 1 2 100 db_waiting = (inl (HTTPException 404 "User not found"), db_waiting)) ∧
     (Game.status g = waiting → is_Some (s_get User.id (users db_waiting) 2) →
      ∃ p0, game_players db_waiting 1 = [p0] ∧
        (2 = Player.id p0 →
         join_game 1 2 100 db_waiting
         = (inl (HTTPException 400 "User already in game"), db_waiting)) ∧
        (2 ≠ Player.id p0 → 2 = Player.user_id p0 →
         join_game 1 2 100 db_waiting
         = (inl (IntegrityError "unique_game_user"), db_waiting)) ∧
        (2 ≠ Player.id p0 → 2 ≠ Player.user_id p0 →
         ∃ db', join_game 1 2 100 db_waiting = (inr (), db')))) ∧
  (∀ r db', join_game 1 2 100 db_waiting = (r, db') →
     r ≠ inl (HTTPException 400 "A game can only have up to 2 players") ∧
     (∀ e, r = inl e → db' = db_waiting)).
Proof. exact (join_game_outcome 0 db_waiting 1 2 100 (reachable_run 0 _)). Defined.

(** ** The leaderboard by wins *)

Lemma to_float_lt a b : (to_float a < to_float b)%Qc ↔ a < b.
Proof.
  unfold to_float, Qclt. simpl. rewrite !Qred_correct. unfold Qlt. simpl. lia.
Qed.

Lemma to_float_inj a b : to_float a = to_float b → a = b.
Proof.
  intros H. apply (f_equal this) in H. unfold to_float in H. simpl in H.
  assert (inject_Z a == inject_Z b)%Q as Heq.
  { rewrite <- (Qred_correct (inject_Z a)), <- (Qred_correct (inject_Z b)). by rewrite H. }
  unfold Qeq in Heq. simpl in Heq. lia.
Qed.

Lemma Qcopp_lt a b : (- a < - b)%Qc ↔ (b < a)%Qc.
Proof. unfold Qclt. simpl. rewrite !Qred_correct. unfold Qlt. simpl. lia. Qed.

Lemma Qcopp_inj a b : (- a = - b)%Qc → a = b.
Proof. intros H. by rewrite <- (Qcopp_involutive a), H, Qcopp_involutive. Qed.

Lemma dict_of_snoc {V} (kvs : list (Z * V)) k v :
  dict_of (kvs ++ [(k, v)]) = <[k := v]> (dict_of kvs).
Proof. unfold dict_of. by rewrite foldl_app. Qed.

(** The dict built from the pairs [(k, f k)], [k] in [l]. *)
Lemma dict_of_graph {V} (f : Z → V) l k :
  dict_of ((λ k, (k, f k)) <$> l) !! k = if decide (k ∈ l) then Some (f k) else None.
Proof.
  induction l as [|x l IH] using rev_ind.
  - destruct (decide (k ∈ [])) as [Hin%elem_of_nil|_]; [done|].
    unfold dict_of. simpl. by rewrite lookup_empty.
  - rewrite fmap_app. simpl. rewrite dict_of_snoc.
    destruct (decide (k = x)) as [->|Hne].
    + rewrite lookup_insert_eq. rewrite decide_True; [done|].
      apply elem_of_app. right. by left.
    + rewrite lookup_insert_ne by done. rewrite IH.
      destruct (decide (k ∈ l)) as [Hin|Hout].
      * rewrite decide_True; [done|]. apply elem_of_app. by left.
      * rewrite decide_False; [done|].
        intros [?|?%list_elem_of_singleton]%elem_of_app; done.
Qed.

Lemma group_count_lookup keys k :
  dict_of (group_count keys) !! k = if decide (k ∈ keys) then Some (count keys k) else None.
Proof.
  unfold group_count. rewrite (dict_of_graph (count keys)).
  destruct (decide (k ∈ keys)) as [Hin|Hout].
  - rewrite decide_True; [done|]. by apply elem_of_remove_dups.
  - rewrite decide_False; [done|]. by rewrite elem_of_remove_dups.
Qed.

Lemma count_absent {A} `{EqDecision A} (keys : list A) k : k ∉ keys → count keys k = 0.
Proof.
  intros Hout. unfold count. rewrite filter_none; [done|].
  intros y Hy ->. done.
Qed.

Lemma group_count_default keys k :
  default 0 (dict_of (group_count keys) !! k) = count keys k.
Proof.
  rewrite group_count_lookup. case_decide; [done|]. simpl. by rewrite count_absent.
Qed.

Lemma count_fmap {A} (f : A → Z) l x :
  count (f <$> l) x = Z.of_nat (length (filter (λ a, f a = x) l)).
Proof.
  unfold count. f_equal. induction l as [|a l IH]; [done|].
  rewrite fmap_cons, !filter_cons. case_decide; simpl; by rewrite IH.
Qed.

Lemma count_omap {A} (f : A → option Z) l x :
  count (omap f l) x = Z.of_nat (length (filter (λ a, f a = Some x) l)).
Proof.
  unfold count. f_equal. induction l as [|a l IH]; [done|].
  change (omap f (a :: l)) with (match f a with Some y => y :: omap f l | None => omap f l end).
  rewrite (filter_cons (λ a, f a = Some x)).
  destruct (f a) as [y|] eqn:Hfa.
  - rewrite filter_cons. destruct (decide (y = x)) as [->|Hne].
    + rewrite decide_True by done. simpl. by rewrite IH.
    + rewrite decide_False by congruence. done.
  - rewrite decide_False by done. done.
Qed.

Lemma wins_by_user_count db u :
  default 0 (wins_by_user db !! u)
  = Z.of_nat (length (filter (λ g, Game.winner_id g = Some u) (games db))).
Proof. unfold wins_by_user. by rewrite group_count_default, count_omap. Qed.

Lemma total_games_by_user_count db u :
  default 0 (total_games_by_user db !! u)
  = Z.of_nat (length (filter (λ p, Player.user_id p = u) (players db))).
Proof. unfold total_games_by_user. by rewrite group_count_default, count_fmap. Qed.

(** A user is on the list of [all_users] exactly when the user holds a
    seat or has won a game. *)
Lemma elem_of_all_users db u :
  u ∈ all_users db ↔
  u ∈ Player.user_id <$> players db ∨ u ∈ omap Game.winner_id (games db).
Proof.
  assert (∀ keys, u ∈ dom (dict_of (group_count keys)) ↔ u ∈ keys) as Hdom.
  { intros keys. rewrite elem_of_dom, group_count_lookup.
    case_decide; split; (done || by intros []). }
  unfold all_users. rewrite !elem_of_union.
  unfold total_games_by_user, wins_by_user. rewrite !Hdom.
  split; [|tauto]. intros [[?|?]|He]; [tauto..|]. right.
  apply elem_of_dom in He. unfold efficiency, group_avg in He.
  rewrite (dict_of_graph (λ k, _)) in He.
  case_decide as Hin; [|by destruct He].
  rewrite elem_of_remove_dups in Hin.
  apply list_elem_of_fmap in Hin as ([k v] & -> & Hin).
  apply list_elem_of_fmap in Hin as ([[uu gg] c] & [= -> ->] & Hin).
  unfold per_game_moves, group_count in Hin.
  apply list_elem_of_fmap in Hin as (key & [= <- _] & Hin).
  rewrite elem_of_remove_dups in Hin.
  apply list_elem_of_fmap in Hin as ([m g] & [= -> ->] & Hin).
  apply list_elem_of_filter in Hin as [Hw Hin]. simpl in Hw.
  apply elem_of_sql_join in Hin as (_ & Hg & _).
  apply list_elem_of_omap. by exists g.
Qed.

Lemma wins_rows_foldl db acc us :
  foldl (leaderboard_row db "wins") acc us = acc ++ (wins_row db <$> us).
Proof.
  revert acc. induction us as [|u us IH]; intros acc; simpl; [by rewrite app_nil_r|].
  rewrite IH. unfold leaderboard_row, wins_row.
  rewrite decide_True by done. cbn zeta. by rewrite <- app_assoc.
Qed.

(** X12. [leaderboard("wins")] returns at most 3 rows; a row that comes
    earlier has more wins, or as many wins and the smaller user id.  Each
    row belongs to a user who holds a seat or has won a game, its value
    is the number of wins as a float, its wins are the number of games
    whose winner is the user, and its games are the number of seats of
    the user.  A user with a seat or a win is left out only when three
    rows rank above that user.  A metric other than "wins" and
    "efficiency" gives the string "Unsupported metric". *)
Theorem leaderboard_wins db :
  (∃ rows,
    leaderboard "wins" db = Rows rows ∧
    (length rows ≤ 3)%nat ∧
    (∀ i j a b, rows !! i = Some a → rows !! j = Some b → (i < j)%nat →
       lb_wins a > lb_wins b ∨
       (lb_wins a = lb_wins b ∧ lb_user_id a < lb_user_id b)) ∧
    (∀ r, r ∈ rows →
       (lb_user_id r ∈ Player.user_id <$> players db ∨
        lb_user_id r ∈ omap Game.winner_id (games db)) ∧
       lb_value r = to_float (lb_wins r) ∧
       lb_wins r
       = Z.of_nat (length (filter (λ g, Game.winner_id g = Some (lb_user_id r)) (games db))) ∧
       lb_games r
       = Z.of_nat (length (filter (λ p, Player.user_id p = lb_user_id r) (players db)))) ∧
    (∀ u, u ∈ Player.user_id <$> players db ∨ u ∈ omap Game.winner_id (games db) →
       u ∉ lb_user_id <$> rows →
       length rows = 3%nat ∧
       ∀ r, r ∈ rows →
         let wins_u :=
           Z.of_nat (length (filter (λ g, Game.winner_id g = Some u) (games db))) in
         lb_wins r > wins_u ∨ (lb_wins r = wins_u ∧ lb_user_id r < u))) ∧
  (∀ metric, metric ≠ "wins"%string → metric ≠ "efficiency"%string →
     leaderboard metric db = Message "Unsupported metric").
Proof.
  split.
  2:{ intros metric H1 H2. unfold leaderboard. cbn zeta.
      rewrite decide_False by done. by rewrite decide_False by done. }
  set (R := by_key wins_key).
  set (rows_all := wins_row db <$> elements (all_users db)).
  set (sorted := merge_sort R rows_all).
  assert (leaderboard "wins" db = Rows (take 3 sorted)) as Hlb.
  { unfold leaderboard. cbn zeta. rewrite wins_rows_foldl.
    by rewrite decide_True by done. }
  assert (StronglySorted R sorted) as Hsorted
      by (apply StronglySorted_merge_sort; unfold R; apply _).
  assert (sorted ≡ₚ rows_all) as Hperm by apply merge_sort_Permutation.
  assert (∀ r, r ∈ sorted → ∃ u, u ∈ all_users db ∧ r = wins_row db u) as Hrow.
  { intros r Hr. rewrite Hperm in Hr.
    apply list_elem_of_fmap in Hr as (u & -> & Hu%elem_of_elements). by exists u. }
  assert (NoDup (lb_user_id <$> sorted)) as Hnd.
  { rewrite Hperm. unfold rows_all. rewrite <- list_fmap_compose.
    erewrite list_fmap_ext; [rewrite list_fmap_id; apply NoDup_elements|].
    by intros i x Hi. }
  assert (∀ r, r ∈ take 3 sorted → r ∈ sorted) as Htake.
  { intros r Hr. rewrite <- (take_drop 3 sorted). apply elem_of_app. by left. }
  assert (∀ r, r ∈ sorted →
            lb_wins r
            = Z.of_nat (length (filter (λ g, Game.winner_id g = Some (lb_user_id r))
                                   (games db)))) as Hwins.
  { intros r Hr. destruct (Hrow r Hr) as (u & _ & ->). simpl.
    apply wins_by_user_count. }
  assert (∀ a b, a ∈ sorted → b ∈ sorted → lb_user_id a ≠ lb_user_id b → R a b →
            lb_wins a > lb_wins b ∨
            (lb_wins a = lb_wins b ∧ lb_user_id a < lb_user_id b)) as Hrank.
  { intros a b Ha Hb Hne Hab.
    destruct (Hrow a Ha) as (ua & _ & ->). destruct (Hrow b Hb) as (ub & _ & ->).
    unfold R, by_key, key3_le, wins_key, wins_row in Hab. simpl in *.
    destruct Hab as [Hlt | [Heq Hab]].
    - left. rewrite Qcopp_lt, to_float_lt in Hlt. lia.
    - right. apply Qcopp_inj, to_float_inj in Heq. split; [done|].
      destruct Hab as [Hab|[_ Hab]]; lia. }
  exists (take 3 sorted). split; [done|]. split; [rewrite length_take; lia|].
  split; [|split].
  - intros i j a b Hi Hj Hij.
    apply lookup_take_Some in Hi as [Hi _]. apply lookup_take_Some in Hj as [Hj _].
    apply Hrank; [by eapply list_elem_of_lookup_2..| |].
    + intros Heq. assert (i = j); [|lia].
      eapply (NoDup_lookup _ _ _ _ Hnd); rewrite list_lookup_fmap.
      * by rewrite Hi.
      * rewrite Hj. simpl. by rewrite Heq.
    + by apply (StronglySorted_lookup R sorted i j).
  - intros r Hr. pose proof (Hwins r (Htake r Hr)) as Hw.
    destruct (Hrow r (Htake r Hr)) as (u & Hu & ->). simpl in *.
    split; [by apply elem_of_all_users|]. split; [done|]. split; [done|].
    apply total_games_by_user_count.
  - intros u Hu Hout.
    assert (wins_row db u ∈ sorted) as Hru.
    { rewrite Hperm. apply list_elem_of_fmap. exists u. split; [done|].
      by apply elem_of_elements, elem_of_all_users. }
    rewrite <- (take_drop 3 sorted) in Hru, Hsorted.
    apply elem_of_app in Hru as [Hru|Hru].
    { exfalso. apply Hout. apply list_elem_of_fmap. eexists. split; [|exact Hru]. done. }
    split.
    + rewrite length_take. apply list_elem_of_lookup_1 in Hru as [k Hk].
      apply lookup_lt_Some in Hk. rewrite length_drop in Hk. lia.
    + intros r Hr. cbn zeta.
      pose proof (StronglySorted_app_1_elem_of R _ _ r _ Hsorted Hr Hru) as Hle.
      rewrite <- (wins_by_user_count db u).
      apply (Hrank r (wins_row db u)) in Hle; [done|by apply Htake| |].
      * rewrite <- (take_drop 3 sorted). apply elem_of_app. by right.
      * simpl. intros Heq. apply Hout. apply list_elem_of_fmap. by exists r.
Qed.

(** ** [get_user_stats] and [leaderboard] *)

Lemma filter_remove_dups {A} `{EqDecision A} (P : A → Prop) `{∀ x, Decision (P x)}
    (l : list A) :
  filter P (remove_dups l) = remove_dups (filter P l).
Proof.
  induction l as [|x l IH]; [done|]. simpl. rewrite (filter_cons P x l).
  destruct (decide_rel (∈) x l) as [Hin|Hout].
  - rewrite IH. destruct (decide (P x)) as [HP|HP]; [|done]. simpl.
    destruct (decide_rel (∈) x (filter P l)) as [|Hn]; [done|].
    destruct Hn. by apply list_elem_of_filter.
  - rewrite filter_cons, IH. destruct (decide (P x)) as [HP|HP]; [|done]. simpl.
    destruct (decide_rel (∈) x (filter P l)) as [Hf|]; [|done].
    apply list_elem_of_filter in Hf as [_ Hf]. done.
Qed.

Lemma remove_dups_fmap_inj {A B} `{EqDecision A} `{EqDecision B} (f : A → B) `{!Inj (=) (=) f}
    (l : list A) :
  remove_dups (f <$> l) = f <$> remove_dups l.
Proof.
  induction l as [|x l IH]; [done|]. rewrite fmap_cons. simpl.
  destruct (decide_rel (∈) x l) as [Hin|Hout].
  - destruct (decide_rel (∈) (f x) (f <$> l)) as [|Hn]; [done|].
    destruct Hn. apply list_elem_of_fmap. by exists x.
  - destruct (decide_rel (∈) (f x) (f <$> l)) as [Hf|]; [|by rewrite fmap_cons, IH].
    apply list_elem_of_fmap in Hf as (y & Hy%(inj f) & Hin). by subst.
Qed.

Lemma count_filter {A} `{EqDecision A} (P : A → Prop) `{∀ x, Decision (P x)}
    (l : list A) x :
  P x → count (filter P l) x = count l x.
Proof.
  intros HP. unfold count. f_equal. f_equal. induction l as [|y l IH]; [done|].
  rewrite (filter_cons P y l), (filter_cons (λ y, y = x) y l).
  destruct (decide (P y)) as [Hy|Hy].
  - rewrite filter_cons. by rewrite IH.
  - rewrite IH. rewrite decide_False; [done|]. by intros ->.
Qed.

Lemma count_fmap_inj {A B} `{EqDecision A} `{EqDecision B} (f : A → B) `{!Inj (=) (=) f}
    (l : list A) x :
  count (f <$> l) (f x) = count l x.
Proof.
  unfold count. f_equal. induction l as [|y l IH]; [done|].
  rewrite fmap_cons, !filter_cons.
  destruct (decide (y = x)) as [->|Hne].
  - rewrite decide_True by done. simpl. by rewrite IH.
  - rewrite decide_False; [done|]. by intros ?%(inj f).
Qed.

Lemma filter_fmap {A B} (f : A → B) (P : B → Prop) `{∀ y, Decision (P y)} (l : list A) :
  filter P (f <$> l) = f <$> filter (λ x, P (f x)) l.
Proof.
  induction l as [|x l IH]; [done|]. rewrite fmap_cons, !filter_cons.
  case_decide; [rewrite fmap_cons|]; by rewrite IH.
Qed.

(** The moves that count for the efficiency of [u]: the moves of [u] in
    the games that [u] won, by game id. *)
Lemma efficiency_lookup db u :
  let G := (λ mg : Move.t * Game.t, Move.game_id mg.1) <$>
             filter (λ mg, Game.winner_id mg.2 = Some u ∧ Move.user_id mg.1 = u)
               (sql_join (moves db) (games db)
                  (λ m g, bool_decide (Game.id g = Move.game_id m))) in
  efficiency db !! u
  = if decide (group_count G ≠ [])
    then Some (to_float (sum_Z (snd <$> group_count G))
               / to_float (Z.of_nat (length (group_count G))))%Qc
    else None.
Proof.
  intros G. unfold efficiency, group_avg.
  set (J := sql_join _ _ _) in *.
  set (K := (λ mg : Move.t * Game.t, (Move.user_id mg.1, Move.game_id mg.1)) <$>
              filter (λ mg, Game.winner_id mg.2 = Some (Move.user_id mg.1)) J).
  assert (per_game_moves db = (λ k, (k, count K k)) <$> remove_dups K) as -> by done.
  assert ((λ r : Z * Z * Z, (r.1.1, r.2)) <$> ((λ k, (k, count K k)) <$> remove_dups K)
          = (λ k : Z * Z, (k.1, count K k)) <$> remove_dups K) as ->
    by (by rewrite <- list_fmap_compose).
  rewrite (dict_of_graph (λ k, _)).
  assert (filter (λ k : Z * Z, k.1 = u) K = (λ g, (u, g)) <$> G) as HK.
  { unfold K, G. rewrite <- list_fmap_compose. clear. induction J as [|[m g] J IH]; [done|].
    rewrite !filter_cons. simpl.
    destruct (decide (Game.winner_id g = Some (Move.user_id m))) as [Hw|Hw].
    - rewrite fmap_cons, filter_cons. simpl.
      destruct (decide (Move.user_id m = u)) as [Hu|Hu].
      + rewrite decide_True by (by rewrite <- Hu). rewrite fmap_cons. simpl.
        by rewrite IH, Hu.
      + rewrite decide_False by tauto. done.
    - rewrite decide_False; [done|]. intros [Hw' Hu]. apply Hw. congruence. }
  assert (filter (λ k : Z * Z, k.1 = u) (remove_dups K) = (λ g, (u, g)) <$> remove_dups G)
    as HKu.
  { rewrite filter_remove_dups, HK. apply remove_dups_fmap_inj. by intros g1 g2 [= ->]. }
  assert (∀ g, count K (u, g) = count G g) as Hcount.
  { intros g. rewrite <- (count_filter (λ k : Z * Z, k.1 = u)) by done.
    rewrite HK. apply count_fmap_inj. by intros g1 g2 [= ->]. }
  assert (filter (λ kv : Z * Z, kv.1 = u)
            ((λ k : Z * Z, (k.1, count K k)) <$> remove_dups K)
          = (λ g, (u, count G g)) <$> remove_dups G) as Hrows.
  { rewrite (filter_fmap (λ k : Z * Z, (k.1, count K k)) (λ kv : Z * Z, kv.1 = u)).
    simpl. rewrite HKu, <- list_fmap_compose. apply list_fmap_ext. intros i g _. simpl.
    by rewrite Hcount. }
  rewrite Hrows. unfold group_count. rewrite <- !list_fmap_compose, !length_fmap.
  destruct (remove_dups G) as [|g0 gs] eqn:HG.
  - rewrite decide_False.
    2:{ rewrite elem_of_remove_dups. intros (kv & Hkv & Hin)%list_elem_of_fmap.
        simpl in Hkv.
        assert (kv ∈ filter (λ k : Z * Z, k.1 = u) (remove_dups K)) as Hf
          by (apply list_elem_of_filter; split; [by symmetry|done]).
        rewrite HKu in Hf. by apply elem_of_nil in Hf. }
    by rewrite decide_False by (by intros ?).
  - rewrite decide_True.
    2:{ rewrite elem_of_remove_dups. apply list_elem_of_fmap.
        assert ((u, g0) ∈ filter (λ k : Z * Z, k.1 = u) (remove_dups K)) as Hf
          by (rewrite HKu; by left).
        apply list_elem_of_filter in Hf as [_ Hf]. by exists (u, g0). }
    rewrite decide_True by done. do 3 f_equal.
Qed.

(** X13. [get_user_stats] agrees with the dictionaries from which
    [leaderboard] builds its rows: for every store and every user id it
    returns statistics whose games, wins and efficiency are the entries
    of [total_games_by_user], [wins_by_user] (0 when absent) and
    [efficiency] (none when absent) for that user; [loses] is what is
    left of the games after wins and draws, and [win_ratio] is
    wins / games, or 0.0 for a user with no game. *)
Theorem get_user_stats_leaderboard db u :
  ∃ s, get_user_stats u db = inr s ∧
       stats_user_id s = u ∧
       stats_games s = default 0 (total_games_by_user db !! u) ∧
       stats_wins s = default 0 (wins_by_user db !! u) ∧
       stats_efficiency s = efficiency db !! u ∧
       stats_loses s = stats_games s - stats_wins s - stats_draws s ∧
       (stats_games s = 0 → stats_win_ratio s = 0%Qc) ∧
       (stats_games s ≠ 0 →
        stats_win_ratio s = (to_float (stats_wins s) / to_float (stats_games s))%Qc).
Proof.
  rewrite total_games_by_user_count, wins_by_user_count, efficiency_lookup. cbn zeta.
  unfold get_user_stats. cbn zeta.
  set (gp := Z.of_nat (length (filter _ (players db)))).
  set (wins := Z.of_nat (length (filter _ (games db)))).
  set (ms := group_count _).
  assert (ms ≠ [] → Z.of_nat (length ms) ≠ 0) as Hlen by (destruct ms; [done|simpl; lia]).
  destruct (decide (gp ≠ 0)) as [Hgp|Hgp]; destruct (decide (ms ≠ [])) as [Hms|Hms];
    unfold truediv; rewrite ?decide_False by auto; simpl;
    (eexists; split; [reflexivity|]); simpl;
    do 5 (split; [done|]); split; intros ?; (done || lia || (exfalso; tauto)).
Qed.

(** ** The outcome of [move] *)

Lemma insert_move_ok it gid u no row col db :
  (∀ m, m ∈ game_moves db gid → ¬ (Move.row m = row ∧ Move.col m = col)) →
  (∀ m, m ∈ game_moves db gid → Move.move_no m ≠ no) →
  insert_move it gid (Some u) no row col db
  = (inr (), mkDB (users db) (games db) (players db)
               (moves db ++ [Move.mk (fresh_id (Move.id <$> moves db)) gid u row col no it])).
Proof.
  intros Hcell Hno. unfold insert_move.
  rewrite bool_decide_eq_false_2.
  2:{ intros (m & Hm & Hg & Hrc)%Exists_exists. apply (Hcell m); [|done].
      by apply list_elem_of_filter. }
  rewrite bool_decide_eq_false_2; [done|].
  intros (m & Hm & Hg & Hn)%Exists_exists. apply (Hno m); [|done].
  by apply list_elem_of_filter.
Qed.

(** [move_apply] up to the reconstruction of the board, for a free cell
    and a free move number. *)
Lemma move_apply_free it gid u row col now g db :
  NoDup (Game.id <$> games db) → g ∈ games db → Game.id g = gid →
  (∀ m, m ∈ game_moves db gid → ¬ (Move.row m = row ∧ Move.col m = col)) →
  (∀ m, m ∈ game_moves db gid → Move.move_no m ≠ Game.turn_no g + 1) →
  let m := new_move it db gid u row col (Game.turn_no g) in
  match construct_board (order_by_move_no (game_moves db gid ++ [m])) with
  | inl e => (move_apply it gid (Some u) row col now (Game.turn_no g) db).1 = inl e
  | inr b =>
      ∀ w, find_winner b = inr w →
           ∃ v, move_apply it gid (Some u) row col now (Game.turn_no g) db
                = (inr v, mkDB (users db)
                            (update_row gid (game_after_move w now) (games db))
                            (players db) (moves db ++ [m]))
  end.
Proof.
  intros Hnd Hg Hid Hcell Hno m. subst gid.
  unfold move_apply, claim_turn, revert_turn, update_games.
  unfold mbind, M_bind, query, raise, lift, mret, M_ret. cbn beta iota zeta.
  pose proof (turn_is_filter _ g Hnd Hg) as Hone. unfold turn_is in Hone.
  rewrite Hone. rewrite decide_False by (simpl; lia).
  change ((λ g', if bool_decide (Game.id g' = Game.id g)
                    && bool_decide (Game.turn_no g' = Game.turn_no g)
                 then set_turn_no (Game.turn_no g' + 1) g' else g') <$> games db)
    with (claimed_games (Game.id g) (Game.turn_no g) (games db)).
  set (db1 := mkDB _ (claimed_games _ _ (games db)) _ _).
  change (game_moves db1 (Game.id g)) with (game_moves db (Game.id g)).
  rewrite (filter_none (λ m, Move.row m = row ∧ Move.col m = col)) by done.
  cbn [head].
  rewrite (insert_move_ok it (Game.id g) u (Game.turn_no g + 1) row col db1) by done.
  change (moves db1) with (moves db). change (users db1) with (users db).
  change (players db1) with (players db).
  change (games db1) with (claimed_games (Game.id g) (Game.turn_no g) (games db)).
  rewrite (game_moves_snoc db (Game.id g)) by done.
  fold (new_move it db (Game.id g) u row col (Game.turn_no g)). fold m.
  destruct (construct_board _) as [e|b] eqn:Hb; [done|].
  intros w Hw. rewrite Hw. cbn beta iota zeta.
  pose proof (games_after_move (games db) g w now Hnd Hg) as Hgames.
  unfold finished_games in Hgames.
  assert (∀ gs', gs' = update_row (Game.id g) (game_after_move w now) (games db) →
            ∃ v, get_game_view (Game.id g) (mkDB (users db) gs' (players db) (moves db ++ [m]))
                 = (inr v, mkDB (users db) (update_row (Game.id g) (game_after_move w now)
                                              (games db))
                             (players db) (moves db ++ [m]))) as Hview.
  { intros gs' ->. set (db2 := mkDB _ _ _ _).
    destruct (get_game_view (Game.id g) db2) as [[e|v] db3] eqn:Hv.
    - exfalso. revert Hv.
      unfold get_game_view, mbind, M_bind, query, raise, lift, mret, M_ret.
      cbn beta iota zeta. unfold db2 at 1. cbn [games].
      rewrite (s_get_update_row (Game.id g) _ _ g Hnd (game_after_move_id w now))
        by (by apply s_get_unique).
      rewrite game_after_move_id. unfold db2 at 1.
      rewrite (game_moves_snoc db (Game.id g)) by done. rewrite Hb. done.
    - pose proof (get_game_view_db _ _ _ _ Hv) as ->. by exists v. }
  destruct w as [w|]; [|case_decide as H9]; cbn beta iota zeta.
  - apply Hview. by rewrite <- Hgames.
  - apply Hview. by rewrite <- Hgames.
  - apply Hview. by rewrite <- Hgames.
Qed.

Lemma move_guards_pass gid u g db :
  s_get Game.id (games db) gid = Some g → Game.status g = in_progress →
  (∃ p, p ∈ game_players db gid ∧ Player.user_id p = u) →
  order_dict (game_players db gid) !! (Game.turn_no g `mod` 2) = Some u →
  move_guards gid (Some u) db = (inr (Game.turn_no g), db).
Proof.
  intros Hget Hst (p & Hp & Hu) Hturn. destruct (s_get_Some _ _ _ _ Hget) as [_ Hid].
  unfold move_guards, mbind, M_bind, query, raise, mret, M_ret. cbn beta iota zeta.
  rewrite Hget, Hid. rewrite decide_False by (by intros ?).
  rewrite bool_decide_eq_true_2.
  2:{ apply Exists_exists. exists p. split; [done|]. by rewrite Hu. }
  rewrite decide_False; [done|]. by intros ?.
Qed.

(** X14. The outcome of [move] in every state the service can reach.  An
    unknown game gives 404 "Game not found" and a game that is not in
    progress gives 400 "Game not in progress".  A game in progress has
    two seats; a user in neither gets 400 "User not in this game", and a
    seated user whose seat is not the one of parity [turn_no % 2] gets 400
    "Not your turn".  For the user whose turn it is: a recorded move with
    the same [row] and [col] gives 400 "Cell already occupied"; otherwise
    the move is accepted when [row] and [col] are in -3..2, and raises
    [IndexError] when they are not.  Every failure leaves the store as it
    is, and 400 "Concurrent moves, try again" is not among the outcomes. *)
Theorem move_outcome it db gid uid row col now :
  reachable it db →
  (s_get Game.id (games db) gid = None →
   move it gid uid row col now db = (inl (HTTPException 404 "Game not found"), db)) ∧
  (∀ g, s_get Game.id (games db) gid = Some g →
     (Game.status g ≠ in_progress →
      move it gid uid row col now db
      = (inl (HTTPException 400 "Game not in progress"), db)) ∧
     (Game.status g = in_progress →
      ∃ p0 p1,
        game_players db gid = [p0; p1] ∧
        let mover := if decide (Game.turn_no g `mod` 2 = 0) then p0 else p1 in
        (uid ≠ Some (Player.user_id p0) → uid ≠ Some (Player.user_id p1) →
         move it gid uid row col now db
         = (inl (HTTPException 400 "User not in this game"), db)) ∧
        (uid = Some (Player.user_id p0) ∨ uid = Some (Player.user_id p1) →
         uid ≠ Some (Player.user_id mover) →
         move it gid uid row col now db = (inl (HTTPException 400 "Not your turn"), db)) ∧
        (uid = Some (Player.user_id mover) →
         ((∃ m, m ∈ game_moves db gid ∧ Move.row m = row ∧ Move.col m = col) →
          move it gid uid row col now db = (inl CellOccupied, db)) ∧
         ((∀ m, m ∈ game_moves db gid → ¬ (Move.row m = row ∧ Move.col m = col)) →
          ((-3 ≤ row ≤ 2) ∧ (-3 ≤ col ≤ 2) →
           ∃ v db', move it gid uid row col now db = (inr v, db')) ∧
          (¬ ((-3 ≤ row ≤ 2) ∧ (-3 ≤ col ≤ 2)) →
           move it gid uid row col now db = (inl IndexError, db)))))) ∧
  (∀ r db', move it gid uid row col now db = (r, db') → r ≠ inl Conflict).
Proof.
  intros Hreach. pose proof (reachable_Inv it db Hreach) as HI.
  pose proof (inv_game_ids db HI) as Hnd.
  assert (s_get Game.id (games db) gid = None →
          move it gid uid row col now db = (inl (HTTPException 404 "Game not found"), db))
    as Hmissing.
  { intros Hg. unfold move, transaction, move_body, move_guards.
    unfold mbind, M_bind, query, raise. cbn beta iota zeta. by rewrite Hg. }
  assert (∀ g, s_get Game.id (games db) gid = Some g → Game.status g ≠ in_progress →
          move it gid uid row col now db
          = (inl (HTTPException 400 "Game not in progress"), db)) as Hstatus.
  { intros g Hget Hst. unfold move, transaction, move_body, move_guards.
    unfold mbind, M_bind, query, raise. cbn beta iota zeta. rewrite Hget.
    by rewrite decide_True. }
  assert (∀ g, s_get Game.id (games db) gid = Some g → Game.status g = in_progress →
          ∃ p0 p1,
            game_players db gid = [p0; p1] ∧
            let mover := if decide (Game.turn_no g `mod` 2 = 0) then p0 else p1 in
            Player.user_id p0 ≠ Player.user_id p1 ∧
            order_dict [p0; p1] !! (Game.turn_no g `mod` 2) = Some (Player.user_id mover))
    as Hseats.
  { intros g Hget Hst. destruct (s_get_Some _ _ _ _ Hget) as [Hg Hid].
    destruct (inv_games db HI g Hg) as [_ _ _ Hs _ _]. rewrite Hid in Hs.
    destruct Hs as [(p0 & _ & _ & Hwt)|(p0 & p1 & Hps & Ho0 & Ho1 & Hu01 & _)];
      [congruence|].
    exists p0, p1. split; [done|]. cbn zeta. split; [done|].
    pose proof (Z.mod_pos_bound (Game.turn_no g) 2 ltac:(lia)) as Hmod.
    rewrite (order_dict_two p0 p1) by done.
    destruct (decide (Game.turn_no g `mod` 2 = 0)) as [H0|H0]; [done|].
    by rewrite decide_True by lia. }
  split; [exact Hmissing|]. split.
  - intros g Hget. split; [by apply Hstatus|]. intros Hst.
    destruct (s_get_Some _ _ _ _ Hget) as [Hg Hid].
    destruct (Hseats g Hget Hst) as (p0 & p1 & Hps & Hu01 & Hdict).
    exists p0, p1. split; [done|]. cbn zeta in *.
    set (mover := if decide (Game.turn_no g `mod` 2 = 0) then p0 else p1) in *.
    split; [|split].
    + intros H0 H1. unfold move, transaction, move_body, move_guards.
      unfold mbind, M_bind, query, raise. cbn beta iota zeta. rewrite Hget.
      rewrite decide_False by (by intros ?). rewrite Hid, Hps.
      rewrite bool_decide_eq_false_2; [done|].
      intros (p & Hp & Hu)%Exists_exists. revert Hp.
      rewrite !elem_of_cons, elem_of_nil. intros [->|[->|[]]]; congruence.
    + intros Hseated Hturn. unfold move, transaction, move_body, move_guards.
      unfold mbind, M_bind, query, raise. cbn beta iota zeta. rewrite Hget.
      rewrite decide_False by (by intros ?). rewrite Hid, Hps.
      rewrite bool_decide_eq_true_2.
      2:{ apply Exists_exists. destruct Hseated as [->| ->].
          - exists p0. split; [by left|done].
          - exists p1. split; [right; by left|done]. }
      rewrite Hdict. by rewrite decide_True by congruence.
    + intros ->.
      assert (move_guards gid (Some (Player.user_id mover)) db
              = (inr (Game.turn_no g), db)) as Hguards.
      { apply move_guards_pass; [done|done| |by rewrite Hps].
        exists mover. split; [|done]. rewrite Hps. unfold mover.
        case_decide; [by left|right; by left]. }
      split.
      * intros (m & Hm & Hr & Hc).
        apply (move_cell_occupied it gid _ row col now db (Game.turn_no g) m);
          [done|by rewrite Hguards|done..].
      * intros Hfree.
        destruct (inv_games db HI g Hg) as [Hturn Hno _ _ _ _]. rewrite Hid in Hturn, Hno.
        assert (∀ m, m ∈ game_moves db gid → Move.move_no m ≠ Game.turn_no g + 1) as Hfresh.
        { intros m Hm Heq.
          assert (Move.move_no m ∈ Move.move_no <$> game_moves db gid) as Hin
            by (apply list_elem_of_fmap; by exists m).
          rewrite Hno in Hin. apply list_elem_of_fmap in Hin as (k & Hk & Hin).
          apply elem_of_seq in Hin. lia. }
        pose proof (move_apply_free it gid (Player.user_id mover) row col now g db
                      Hnd Hg Hid Hfree Hfresh) as Happ. cbn zeta in Happ.
        set (m := new_move it db gid (Player.user_id mover) row col (Game.turn_no g)) in *.
        assert (order_by_move_no (game_moves db gid ++ [m]) = game_moves db gid ++ [m])
          as Hord.
        { apply order_by_move_no_stored. rewrite fmap_app, length_app, Hno. simpl.
          rewrite Nat.add_1_r, seq_S, fmap_app. simpl. do 2 f_equal. lia. }
        rewrite Hord in Happ.
        destruct (reachable_Inv2 it db Hreach g Hg) as [_ (b0 & Hb0 & _) _ _].
        rewrite Hid, (order_by_move_no_stored _ Hno) in Hb0.
        destruct (construct_board_spec _ _ Hb0) as (Hgrid0 & _ & _).
        assert (construct_board (game_moves db gid ++ [m])
                = board_set b0 row col (Some (Player.user_id mover))) as Hboard.
        { unfold construct_board in *. rewrite fmap_app, construct_board_loop_app, Hb0.
          simpl. by destruct (board_set _ _ _ _). }
        rewrite Hboard in Happ.
        split.
        -- intros [Hrow Hcol].
           unfold move, transaction, move_body. unfold mbind at 1. unfold M_bind at 1.
           rewrite Hguards.
           destruct (board_set_total b0 row col (Some (Player.user_id mover))
                       Hgrid0 Hrow Hcol) as (r & Hr & Hset).
           rewrite Hset in Happ.
           destruct (find_winner_spec _
                       (grid3x3_insert b0 _ (Z.to_nat (py_norm col)) r
                          (Some (Player.user_id mover)) Hgrid0 Hr)) as (w & Hw & _).
           destruct (Happ w Hw) as [v ->]. eauto.
        -- intros Hout.
           unfold move, transaction, move_body. unfold mbind at 1. unfold M_bind at 1.
           rewrite Hguards.
           destruct (board_set b0 row col (Some (Player.user_id mover)))
             as [e|b] eqn:Hset.
           ++ apply board_set_error in Hset as ->.
              destruct (move_apply _ _ _ _ _ _ _ _) as [[e|v] db2]; simpl in Happ.
              ** congruence.
              ** congruence.
           ++ destruct Hout. by destruct (board_set_inv3 _ _ _ _ _ Hgrid0 Hset).
  - intros r db' Hmove ->. apply move_inv in Hmove as Heq. subst db'.
    revert Hmove. unfold move, transaction, move_body. unfold mbind at 1. unfold M_bind at 1.
    destruct (move_guards gid uid db) as [[err|e] db1] eqn:Hguards.
    { intros [= ->]. revert Hguards.
      unfold move_guards, mbind, M_bind, query, raise, mret, M_ret. cbn beta iota zeta.
      destruct (s_get Game.id (games db) gid) as [g|]; [|done].
      case_decide; [done|]. case_bool_decide; [|done]. by case_decide. }
    apply move_guards_inv in Hguards as [-> Hguards].
    destruct (Hguards e eq_refl) as (g & u & Hget & _ & -> & -> & _).
    destruct (s_get_Some _ _ _ _ Hget) as [Hg Hid].
    destruct (move_apply _ _ _ _ _ _ _ _) as [[err|v] db2] eqn:Happ; [|done].
    intros [= ->]. apply move_apply_inl in Happ as [Hc _].
    specialize (Hc eq_refl). rewrite <- Hid in Hc.
    by rewrite (turn_is_filter _ g Hnd Hg) in Hc.
Qed.

(** X14 in the state reached after two moves of game 1, for user 1 at
    the centre. *)
Lemma move_outcome_witness :
  (s_get Game.id (games db_two_moves) 1 = None →
   move 0 1 (Some 1) 1 1 300 db_two_moves
   = (inl (HTTPException 404 "Game not found"), db_two_moves)) ∧
  (∀ g, s_get Game.id (games db_two_moves) 1 = Some g →
     (Game.status g ≠ in_progress →
      move 0 1 (Some 1) 1 1 300 db_two_moves
      = (inl (HTTPException 400 "Game not in progress"), db_two_moves)) ∧
     (Game.status g = in_progress →
      ∃ p0 p1,
        game_players db_two_moves 1 = [p0; p1] ∧
        let mover := if decide (Game.turn_no g `mod` 2 = 0) then p0 else p1 in
        (Some 1 ≠ Some (Player.user_id p0) → Some 1 ≠ Some (Player.user_id p1) →
         move 0 1 (Some 1) 1 1 300 db_two_moves
         = (inl (HTTPException 400 "User not in this game"), db_two_moves)) ∧
        (Some 1 = Some (Player.user_id p0) ∨ Some 1 = Some (Player.user_id p1) →
         Some 1 ≠ Some (Player.user_id mover) →
         move 0 1 (Some 1) 1 1 300 db_two_moves
         = (inl (HTTPException 400 "Not your turn"), db_two_moves)) ∧
        (Some 1 = Some (Player.user_id mover) →
         ((∃ m, m ∈ game_moves db_two_moves 1 ∧ Move.row m = 1 ∧ Move.col m = 1) →
          move 0 1 (Some 1) 1 1 300 db_two_moves = (inl CellOccupied, db_two_moves)) ∧
         ((∀ m, m ∈ game_moves db_two_moves 1 → ¬ (Move.row m = 1 ∧ Move.col m = 1)) →
          ((-3 ≤ 1 ≤ 2) ∧ (-3 ≤ 1 ≤ 2) →
           ∃ v db', move 0 1 (Some 1) 1 1 300 db_two_moves = (inr v, db')) ∧
          (¬ ((-3 ≤ 1 ≤ 2) ∧ (-3 ≤ 1 ≤ 2)) →
           move 0 1 (Some 1) 1 1 300 db_two_moves = (inl IndexError, db_two_moves)))))) ∧
  (∀ r db', move 0 1 (Some 1) 1 1 300 db_two_moves = (r, db') → r ≠ inl Conflict).
Proof. exact (move_outcome 0 db_two_moves 1 (Some 1) 1 1 300 (reachable_run 0 _)). Defined.

(** ** Histories through the endpoints *)

Lemma empty_board_get rc : in_grid rc → board_get empty_board rc = inr None.
Proof.
  intros Hrc. rewrite (board_get_cell _ rc empty_board_grid Hrc).
  destruct Hrc as [H1 H2]. by rewrite empty_board_cell by lia.
Qed.

(** Moves on distinct cells of the board, with [row] and [col] in 0..2:
    no assignment of [construct_board] overwrites another. *)
Lemma construct_board_on_board ms b :
  (∀ m, m ∈ ms → 0 ≤ Move.row m ≤ 2 ∧ 0 ≤ Move.col m ≤ 2) →
  NoDup (game_cells ms) →
  construct_board ms = inr b →
  grid3x3 b ∧
  (∀ m, m ∈ ms → board_get b (Move.row m, Move.col m) = inr (Some (Move.user_id m))) ∧
  (∀ rc, in_grid rc → rc ∉ game_cells ms → board_get b rc = inr None).
Proof.
  revert b. induction ms as [|m ms IH] using rev_ind; intros b Hrange Hnd Hb.
  { injection Hb as <-. split; [apply empty_board_grid|]. split.
    - intros m Hm. by apply elem_of_nil in Hm.
    - intros rc Hrc _. by apply empty_board_get. }
  unfold construct_board in Hb. rewrite fmap_app, construct_board_loop_app in Hb.
  destruct (construct_board_loop _ empty_board) as [e|b1] eqn:Hb1; [done|].
  simpl in Hb.
  destruct (board_set b1 _ _ _) as [e|b2] eqn:Hset; [done|]. injection Hb as <-.
  unfold game_cells in Hnd. rewrite fmap_app in Hnd.
  apply NoDup_app in Hnd as (Hnd & Hdisj & _).
  destruct (IH b1) as (Hgrid1 & Hfilled & Hempty); [|done|done|].
  { intros m' Hm'. apply Hrange. apply elem_of_app. by left. }
  destruct (Hrange m) as [Hr Hc]; [apply elem_of_app; right; by left|].
  assert (py_norm (Move.row m) = Move.row m ∧ py_norm (Move.col m) = Move.col m)
    as [Hpr Hpc] by (unfold py_norm; split; by rewrite decide_False by lia).
  assert (∀ rc, in_grid rc →
            board_get b2 rc = if decide (rc = (Move.row m, Move.col m))
                              then inr (Some (Move.user_id m)) else board_get b1 rc)
    as Hcells.
  { intros rc Hrc. rewrite (board_set_get _ _ _ _ _ rc Hgrid1 Hset Hrc).
    by rewrite Hpr, Hpc. }
  assert (∀ m', m' ∈ ms → (Move.row m', Move.col m') ≠ (Move.row m, Move.col m)) as Hne.
  { intros m' Hm' Heq. apply (Hdisj (Move.row m', Move.col m')).
    - apply list_elem_of_fmap. by exists m'.
    - rewrite Heq. simpl. by left. }
  split; [|split].
  - destruct (board_set_inv3 _ _ _ _ _ Hgrid1 Hset) as (_ & r & Hlk & ->).
    by apply grid3x3_insert.
  - intros m' [Hm'|Hm'%list_elem_of_singleton]%elem_of_app.
    + destruct (Hrange m') as [Hr' Hc']; [apply elem_of_app; by left|].
      rewrite Hcells by (split; simpl; lia).
      rewrite decide_False by (by apply Hne). by apply Hfilled.
    + subst m'. rewrite Hcells by (split; simpl; lia). by rewrite decide_True.
  - intros rc Hrc Hout. rewrite (Hcells rc Hrc).
    rewrite decide_False.
    + apply Hempty; [done|]. intros Hin. apply Hout. unfold game_cells.
      rewrite fmap_app. apply elem_of_app. by left.
    + intros ->. apply Hout. unfold game_cells. rewrite fmap_app. apply elem_of_app.
      right. simpl. by left.
Qed.

Lemma exec_users it c db :
  users (exec it c db) = users db ∨
  ∃ name, c = CreateUser name ∧
          users (exec it c db)
          = users db ++ [User.mk (fresh_id (User.id <$> users db)) name].
Proof.
  destruct c as [name|uid|gid uid now|gid uid row col now]; simpl.
  - right. by exists name.
  - left. destruct (create_game it uid db) as [[e|g] db'] eqn:H; apply create_game_inv in H.
    + by subst.
    + by destruct H as (_ & _ & ->).
  - left. destruct (join_game gid uid now db) as [[e|[]] db'] eqn:H;
      apply join_game_inv in H.
    + by subst.
    + by destruct H as (g & _ & _ & _ & _ & _ & _ & ->).
  - left. destruct (move it gid uid row col now db) as [[e|v] db'] eqn:H;
      apply move_inv in H.
    + by subst.
    + by destruct H as (g & u & b & w & _ & _ & _ & _ & _ & _ & _ & _ & ->).
Qed.

Lemma endpoint_user_names it db :
  endpoint_reachable it db →
  ∀ u, u ∈ users db → (1 ≤ String.length (User.name u) ≤ 64)%nat.
Proof.
  induction 1 as [|c db _ IH]; [intros u Hu; by apply elem_of_nil in Hu|].
  destruct c as [name|uid|gid uid now|gid request now].
  - simpl. destruct (CreateUserRequest_valid name) eqn:Hv; [|done].
    apply bool_decide_eq_true in Hv.
    intros u [Hu|Hu%list_elem_of_singleton]%elem_of_app; [by apply IH|].
    subst u. simpl. lia.
  - destruct (exec_users it (CreateGame uid) db) as [Heq|(n & [=] & _)].
    simpl in *. by rewrite Heq.
  - destruct (exec_users it (JoinGame gid uid now) db) as [Heq|(n & [=] & _)].
    simpl in *. by rewrite Heq.
  - simpl. destruct (router_move it gid request now db) as [[e|v] db'] eqn:H;
      apply router_move_inv in H.
    + by subst.
    + destruct H as [_ H].
      destruct (exec_users it (SubmitMove gid (Some (req_user_id request))
                                 (req_row request) (req_col request) now) db)
        as [Heq|(n & [=] & _)].
      simpl in Heq. rewrite H in Heq. simpl in *. by rewrite Heq.
Qed.

(** X15. In every state reached through the endpoints, where
    [CreateUserRequest] and [MoveRequest] validate the request bodies:
    every user name has between 1 and 64 characters; and for every game
    the board rebuilt from the moves shows every recorded move, at its
    own [row] and [col], which lie in 0..2, with the id of the user who
    made it, and is empty everywhere else: no move overwrites another. *)
Theorem endpoint_board_faithful it db :
  endpoint_reachable it db →
  (∀ u, u ∈ users db → (1 ≤ String.length (User.name u) ≤ 64)%nat) ∧
  (∀ g, g ∈ games db →
     ∃ b, construct_board (order_by_move_no (game_moves db (Game.id g))) = inr b ∧
          (∀ m, m ∈ game_moves db (Game.id g) →
                in_grid (Move.row m, Move.col m) ∧
                board_get b (Move.row m, Move.col m) = inr (Some (Move.user_id m))) ∧
          (∀ rc, in_grid rc →
                 (∀ m, m ∈ game_moves db (Game.id g) → (Move.row m, Move.col m) ≠ rc) →
                 board_get b rc = inr None)).
Proof.
  intros Hreach. split; [by apply (endpoint_user_names it)|].
  intros g Hg.
  pose proof (endpoint_reachable_reachable it db Hreach) as Hr.
  pose proof (endpoint_reachable_on_board it db Hreach) as Hon.
  destruct (inv_games db (reachable_Inv it db Hr) g Hg) as [_ Hno Hcells _ _ _].
  destruct (reachable_Inv2 it db Hr g Hg) as [_ (b & Hb & _) _ _].
  exists b. split; [done|].
  rewrite (order_by_move_no_stored _ Hno) in Hb.
  assert (∀ m, m ∈ game_moves db (Game.id g) →
               0 ≤ Move.row m ≤ 2 ∧ 0 ≤ Move.col m ≤ 2) as Hrange.
  { intros m [_ Hm]%list_elem_of_filter. by apply Hon. }
  destruct (construct_board_on_board _ b Hrange Hcells Hb) as (_ & Hfilled & Hempty).
  split.
  - intros m Hm. split; [|by apply Hfilled].
    destruct (Hrange m Hm). split; simpl; lia.
  - intros rc Hrc Hout. apply Hempty; [done|].
    intros (m & -> & Hm)%list_elem_of_fmap. by apply (Hout m).
Qed.

(** X15 after the first eight moves of the draw, for game 1. *)
Lemma endpoint_board_faithful_witness :
  (∀ u, u ∈ users db_eight_moves → (1 ≤ String.length (User.name u) ≤ 64)%nat) ∧
  (∀ g, g ∈ games db_eight_moves →
     ∃ b, construct_board (order_by_move_no (game_moves db_eight_moves (Game.id g)))
          = inr b ∧
          (∀ m, m ∈ game_moves db_eight_moves (Game.id g) →
                in_grid (Move.row m, Move.col m) ∧
                board_get b (Move.row m, Move.col m) = inr (Some (Move.user_id m))) ∧
          (∀ rc, in_grid rc →
                 (∀ m, m ∈ game_moves db_eight_moves (Game.id g) →
                       (Move.row m, Move.col m) ≠ rc) →
                 board_get b rc = inr None)).
Proof. exact (endpoint_board_faithful 0 db_eight_moves (endpoint_reachable_run 0 _)). Defined.

(** ** The winner holds a seat *)

(** A cell of the board that holds a user id was written by a move of
    that user. *)
Lemma board_cell_owner ms b rc w :
  construct_board ms = inr b → in_grid rc → board_get b rc = inr (Some w) →
  ∃ m, m ∈ ms ∧ Move.user_id m = w ∧ cell_of m = rc.
Proof.
  revert b. induction ms as [|m ms IH] using rev_ind; intros b Hb Hrc Hw.
  { injection Hb as <-. by rewrite empty_board_get in Hw. }
  unfold construct_board in Hb. rewrite fmap_app, construct_board_loop_app in Hb.
  destruct (construct_board_loop _ empty_board) as [e|b1] eqn:Hb1; [done|].
  simpl in Hb.
  destruct (board_set b1 _ _ _) as [e|b2] eqn:Hset; [done|]. injection Hb as <-.
  pose proof (construct_board_loop_grid _ _ _ empty_board_grid Hb1) as Hgrid1.
  rewrite (board_set_get _ _ _ _ _ rc Hgrid1 Hset Hrc) in Hw.
  case_decide as Hcell.
  - exists m. split; [apply elem_of_app; right; by left|]. split; [congruence|done].
  - destruct (IH b1 Hb1 Hrc Hw) as (m' & Hm' & Hu). exists m'.
    split; [apply elem_of_app; by left|done].
Qed.

Lemma VICTORY_CONDITIONS_distinct c : c ∈ VICTORY_CONDITIONS → NoDup c.
Proof.
  revert c. apply Forall_forall. refine (bool_decide_unpack _ _). vm_compute. exact I.
Qed.

(** The winner fills a triple, with three moves. *)
Lemma winner_has_moves it db g w :
  reachable it db → g ∈ games db → Game.winner_id g = Some w →
  ∃ m1 m2 m3,
    (m1 ∈ game_moves db (Game.id g) ∧ m2 ∈ game_moves db (Game.id g) ∧
     m3 ∈ game_moves db (Game.id g)) ∧
    (Move.user_id m1 = w ∧ Move.user_id m2 = w ∧ Move.user_id m3 = w) ∧
    (m1 ≠ m2 ∧ m1 ≠ m3 ∧ m2 ≠ m3).
Proof.
  intros Hreach Hg Hw.
  destruct (reachable_Inv2 it db Hreach g Hg) as [_ (b & Hb & Hfw) _ _].
  destruct (construct_board_spec _ _ Hb) as (Hgrid & _ & _).
  destruct (find_winner_spec b Hgrid) as (w' & Hw' & Hspec).
  rewrite Hfw, Hw in Hw'. injection Hw' as <-.
  destruct Hspec as (pre & c & post & Hvc & Hfill & _).
  assert (c ∈ VICTORY_CONDITIONS) as Hc.
  { rewrite Hvc. apply elem_of_app. right. by left. }
  pose proof (VICTORY_CONDITIONS_distinct c Hc) as Hnd.
  pose proof VICTORY_CONDITIONS_shape as Hshape. rewrite Forall_forall in Hshape.
  destruct (Hshape c Hc) as (q1 & q2 & q3 & -> & Hq1 & Hq2 & Hq3).
  unfold filled_by in Hfill.
  apply Forall_cons in Hfill as [Hc1 Hfill]. apply Forall_cons in Hfill as [Hc2 Hfill].
  apply Forall_cons in Hfill as [Hc3 _].
  destruct (board_cell_owner _ _ _ _ Hb Hq1 Hc1) as (m1 & Hm1 & Hu1 & Hl1).
  destruct (board_cell_owner _ _ _ _ Hb Hq2 Hc2) as (m2 & Hm2 & Hu2 & Hl2).
  destruct (board_cell_owner _ _ _ _ Hb Hq3 Hc3) as (m3 & Hm3 & Hu3 & Hl3).
  unfold order_by_move_no in Hm1, Hm2, Hm3.
  rewrite merge_sort_Permutation in Hm1, Hm2, Hm3.
  exists m1, m2, m3. split; [done|]. split; [done|].
  apply NoDup_cons in Hnd as [Hn1 Hnd]. apply NoDup_cons in Hnd as [Hn2 _].
  rewrite !elem_of_cons, elem_of_nil in Hn1. rewrite elem_of_cons, elem_of_nil in Hn2.
  split; [|split]; intros ->; [apply Hn1|apply Hn1|apply Hn2]; rewrite <- ?Hl1, <- ?Hl2;
    tauto.
Qed.

(** X16. In every state the service can reach, every user who has made a
    move in a game holds one of its seats; the winner of a game holds one
    of its seats and has made at least three moves in it, and a game with
    a winner has at least 5 moves. *)
Theorem winner_is_seated it db g :
  reachable it db → g ∈ games db →
  (∀ m, m ∈ game_moves db (Game.id g) → seated db (Move.user_id m) g) ∧
  (∀ w, Game.winner_id g = Some w →
     seated db w g ∧
     (3 ≤ length (filter (λ m, Move.user_id m = w) (game_moves db (Game.id g))))%nat ∧
     5 ≤ Game.turn_no g).
Proof.
  intros Hreach Hg.
  destruct (reachable_Inv2 it db Hreach g Hg) as [Hturns _ _ _].
  destruct (inv_games db (reachable_Inv it db Hreach) g Hg)
    as [Hturn Hno _ Hseats _ _].
  assert (∀ m, m ∈ game_moves db (Game.id g) → seated db (Move.user_id m) g) as Hseat.
  { intros m Hm. destruct (Hturns m Hm) as (p & Hp & Hpu & _).
    unfold seated. apply list_elem_of_fmap. by exists p. }
  split; [done|]. intros w Hw.
  destruct (winner_has_moves it db g w Hreach Hg Hw)
    as (m1 & m2 & m3 & (Hm1 & Hm2 & Hm3) & (Hu1 & Hu2 & Hu3) & (H12 & H13 & H23)).
  split; [rewrite <- Hu1; by apply Hseat|].
  set (ms := game_moves db (Game.id g)) in *.
  assert (NoDup ms) as Hnd.
  { apply (NoDup_fmap_1 Move.move_no). rewrite Hno. apply (NoDup_fmap_2 _), NoDup_seq. }
  split.
  { assert ([m1; m2; m3] ⊆+ filter (λ m, Move.user_id m = w) ms) as Hsub.
    { apply NoDup_submseteq.
      - apply NoDup_cons. split; [rewrite !elem_of_cons, elem_of_nil; tauto|].
        apply NoDup_cons. split; [rewrite elem_of_cons, elem_of_nil; tauto|].
        apply NoDup_singleton.
      - intros m. rewrite !elem_of_cons, elem_of_nil, list_elem_of_filter.
        intros [->|[->|[->|[]]]]; done. }
    apply submseteq_length in Hsub. simpl in Hsub. lia. }
  assert (∀ m, m ∈ ms → 1 ≤ Move.move_no m ≤ Game.turn_no g) as Hrange.
  { intros m Hm.
    assert (Move.move_no m ∈ Move.move_no <$> ms) as Hin
      by (apply list_elem_of_fmap; by exists m).
    rewrite Hno in Hin. apply list_elem_of_fmap in Hin as (k & -> & Hk).
    apply elem_of_seq in Hk. lia. }
  assert (∀ m m', m ∈ ms → m' ∈ ms → m ≠ m' → Move.move_no m ≠ Move.move_no m') as Hdiff.
  { intros m m' Hm Hm' Hne Heq. apply Hne.
    apply (NoDup_fmap_eq Move.move_no ms); [|done..].
    rewrite Hno. apply (NoDup_fmap_2 _), NoDup_seq. }
  assert (∀ m m', m ∈ ms → m' ∈ ms → Move.user_id m = w → Move.user_id m' = w →
            (Move.move_no m - 1) `mod` 2 = (Move.move_no m' - 1) `mod` 2) as Hparity.
  { intros m m' Hm Hm' Hu Hu'.
    destruct (Hturns m Hm) as (p & Hp & Hpu & <-).
    destruct (Hturns m' Hm') as (p' & Hp' & Hpu' & <-).
    destruct Hseats as [(p0 & Hps & _)|(p0 & p1 & Hps & _ & _ & Hne & _)];
      rewrite Hps in Hp, Hp'; revert Hp Hp'; rewrite ?elem_of_cons, ?elem_of_nil.
    - by intros [->|[]] [->|[]].
    - intros [->|[->|[]]] [->|[->|[]]]; (done || congruence). }
  pose proof (Hrange m1 Hm1). pose proof (Hrange m2 Hm2). pose proof (Hrange m3 Hm3).
  pose proof (Hdiff m1 m2 Hm1 Hm2 H12). pose proof (Hdiff m1 m3 Hm1 Hm3 H13).
  pose proof (Hdiff m2 m3 Hm2 Hm3 H23).
  pose proof (Hparity m1 m2 Hm1 Hm2 Hu1 Hu2) as P12.
  pose proof (Hparity m1 m3 Hm1 Hm3 Hu1 Hu3) as P13.
  rewrite (Z.mod_eq (Move.move_no m1 - 1) 2), (Z.mod_eq (Move.move_no m2 - 1) 2) in P12
    by lia.
  rewrite (Z.mod_eq (Move.move_no m1 - 1) 2), (Z.mod_eq (Move.move_no m3 - 1) 2) in P13
    by lia.
  lia.
Qed.

(** X16 for the game won by user 1 in the scenario of the leaderboard. *)
Lemma winner_is_seated_witness :
  (∀ m, m ∈ game_moves db_efficiency 1 →
        seated db_efficiency (Move.user_id m) (Game.mk 1 finished 0 100 105 (Some 1) 5)) ∧
  (∀ w, Some 1 = Some w →
     seated db_efficiency w (Game.mk 1 finished 0 100 105 (Some 1) 5) ∧
     (3 ≤ length (filter (λ m, Move.user_id m = w) (game_moves db_efficiency 1)))%nat ∧
     5 ≤ 5).
Proof.
  refine (winner_is_seated 0 db_efficiency (Game.mk 1 finished 0 100 105 (Some 1) 5)
            (reachable_run 0 _) _).
  vm_compute. by left.
Defined.

(** ** The statistics of a user over the games *)

Lemma sum_Z_add {A} (a b : A → Z) l :
  sum_Z ((λ x, a x + b x) <$> l) = sum_Z (a <$> l) + sum_Z (b <$> l).
Proof. induction l as [|x l IH]; [done|]. rewrite !fmap_cons. simpl. lia. Qed.

Lemma sum_Z_ext {A} (a b : A → Z) l :
  (∀ x, x ∈ l → a x = b x) → sum_Z (a <$> l) = sum_Z (b <$> l).
Proof.
  induction l as [|x l IH]; intros H; [done|]. rewrite !fmap_cons. simpl.
  rewrite (H x) by (by left). rewrite IH; [done|]. intros y Hy. apply H. by right.
Qed.

Lemma sum_Z_indicator {A} (P : A → Prop) `{∀ x, Decision (P x)} l :
  sum_Z ((λ x, indicator (P x)) <$> l) = Z.of_nat (length (filter P l)).
Proof.
  induction l as [|x l IH]; [done|]. rewrite fmap_cons, filter_cons. simpl.
  unfold indicator at 1. case_decide; simpl; lia.
Qed.

(** Exactly one row of [l] has the key [k]. *)
Lemma sum_Z_unique {A} (f : A → Z) l k :
  NoDup (f <$> l) → k ∈ f <$> l → sum_Z ((λ x, indicator (k = f x)) <$> l) = 1.
Proof.
  induction l as [|x l IH]; intros Hnd Hk; [by apply elem_of_nil in Hk|].
  rewrite fmap_cons in Hnd, Hk. apply NoDup_cons in Hnd as [Hx Hnd].
  rewrite fmap_cons. simpl. unfold indicator at 1. case_decide as Heq.
  - rewrite (sum_Z_ext _ (λ _, 0)).
    + clear. induction l; [done|]. rewrite fmap_cons. simpl. lia.
    + intros y Hy. unfold indicator. rewrite decide_False; [done|].
      intros Hky. apply Hx. rewrite <- Heq, Hky. apply list_elem_of_fmap. by exists y.
  - apply elem_of_cons in Hk as [Hk|Hk]; [done|]. rewrite IH by done. lia.
Qed.

Lemma length_filter_bind {A B} (P : B → Prop) `{∀ y, Decision (P y)} (f : A → list B) l :
  Z.of_nat (length (filter P (l ≫= f)))
  = sum_Z ((λ a, Z.of_nat (length (filter P (f a)))) <$> l).
Proof.
  induction l as [|a l IH]; [done|]. rewrite fmap_cons.
  change ((a :: l) ≫= f) with (f a ++ (l ≫= f)).
  rewrite filter_app, length_app, Nat2Z.inj_add, IH. done.
Qed.

(** The rows of [players] fall into the games: each row counts for the
    one game that its foreign key names. *)
Lemma length_filter_by_game (P : Player.t → Prop) `{∀ p, Decision (P p)} gs ps :
  NoDup (Game.id <$> gs) →
  (∀ p, p ∈ ps → Player.game_id p ∈ Game.id <$> gs) →
  Z.of_nat (length (filter P ps))
  = sum_Z ((λ g, Z.of_nat
                   (length (filter P (filter (λ p, Player.game_id p = Game.id g) ps))))
             <$> gs).
Proof.
  intros Hnd. induction ps as [|p ps IH]; intros Hfk.
  { rewrite (sum_Z_ext _ (λ _, 0)); [|done]. rewrite filter_nil. simpl. clear.
    induction gs as [|g gs IHgs]; [done|]. rewrite fmap_cons. simpl. lia. }
  rewrite (sum_Z_ext _ (λ g, indicator (Player.game_id p = Game.id g) * indicator (P p)
                             + Z.of_nat (length (filter P
                                 (filter (λ p, Player.game_id p = Game.id g) ps))))).
  2:{ intros g _. rewrite (filter_cons (λ p, Player.game_id p = Game.id g)).
      unfold indicator. destruct (decide (Player.game_id p = Game.id g)).
      - rewrite filter_cons. destruct (decide (P p)); simpl; lia.
      - lia. }
  rewrite sum_Z_add, <- IH by (intros q Hq; apply Hfk; by right).
  rewrite (sum_Z_ext _ (λ g, indicator (P p) * indicator (Player.game_id p = Game.id g)))
    by (intros; lia).
  assert (∀ (c : Z) (f : Game.t → Z) l,
            sum_Z ((λ g, c * f g) <$> l) = c * sum_Z (f <$> l)) as Hscale.
  { intros c f l. induction l as [|x l IHl]; [simpl; lia|]. rewrite !fmap_cons. simpl.
    rewrite IHl. lia. }
  rewrite Hscale, (sum_Z_unique Game.id gs) by (done || apply Hfk; by left).
  rewrite filter_cons. unfold indicator. destruct (decide (P p)); simpl; lia.
Qed.

Lemma to_float_ratio a b : 0 ≤ a ≤ b → 0 < b →
  (0 ≤ to_float a / to_float b)%Qc ∧ (to_float a / to_float b ≤ 1)%Qc.
Proof.
  intros Ha Hb. unfold to_float, Qcle, Qcdiv, Qcmult, Qcinv. simpl.
  rewrite !Qred_correct.
  assert (0 < inject_Z b)%Q as Hb' by (unfold Qlt; simpl; lia).
  split.
  - apply Qle_shift_div_l; [done|]. unfold Qle. simpl. lia.
  - apply Qle_shift_div_r; [done|]. unfold Qle. simpl. lia.
Qed.

(** The seats of [u] in the game [g]: one when [u] is seated, else none. *)
Lemma seats_indicator it db u g :
  reachable it db → g ∈ games db →
  Z.of_nat (length (filter (λ p, Player.user_id p = u) (game_players db (Game.id g))))
  = indicator (seated db u g).
Proof.
  intros Hreach Hg.
  destruct (inv_games db (reachable_Inv it db Hreach) g Hg) as [_ _ _ Hseats _ _].
  unfold indicator. destruct (decide (seated db u g)) as [Hs|Hs]; unfold seated in Hs;
    destruct Hseats as [(p0 & Hps & _)|(p0 & p1 & Hps & _ & _ & Hne & _)];
    rewrite Hps in *; rewrite !filter_cons, filter_nil;
    revert Hs; rewrite ?fmap_cons, ?elem_of_cons, ?fmap_nil, ?elem_of_nil; intros Hs;
    repeat case_decide; simpl; (done || lia || (exfalso; naive_solver)).
Qed.

(** X17. In every state the service can reach, [get_user_stats] counts
    over the games in which the user holds a seat: [games] is their
    number, [wins] the number of those that the user has won, [draws] the
    number of those finished without a winner, and [loses] the number of
    all the others, which are the games that another user has won and the
    games that are not finished; [win_ratio] lies between 0 and 1. *)
Theorem get_user_stats_over_games it db u :
  reachable it db →
  ∃ s, get_user_stats u db = inr s ∧
       stats_games s = Z.of_nat (length (filter (seated db u) (games db))) ∧
       stats_wins s
       = Z.of_nat (length (filter (λ g, seated db u g ∧ Game.winner_id g = Some u)
                             (games db))) ∧
       stats_draws s
       = Z.of_nat (length (filter (λ g, seated db u g ∧ Game.status g = finished
                                        ∧ Game.winner_id g = None) (games db))) ∧
       stats_loses s
       = Z.of_nat (length (filter (λ g, seated db u g ∧
                                        (Game.status g ≠ finished ∨
                                         (Game.winner_id g ≠ None ∧
                                          Game.winner_id g ≠ Some u))) (games db))) ∧
       (0 ≤ stats_win_ratio s)%Qc ∧ (stats_win_ratio s ≤ 1)%Qc.
Proof.
  intros Hreach. pose proof (reachable_Inv it db Hreach) as HI.
  assert (∀ g, g ∈ games db → Game.winner_id g = Some u → seated db u g) as Hwseat.
  { intros g Hg Hw.
    destruct (winner_has_moves it db g u Hreach Hg Hw) as (m & _ & _ & (Hm & _) & (Hu & _) & _).
    destruct (reachable_Inv2 it db Hreach g Hg) as [Hturns _ _ _].
    destruct (Hturns m Hm) as (p & Hp & Hpu & _).
    unfold seated. apply list_elem_of_fmap. exists p. split; [congruence|done]. }
  assert (∀ g, g ∈ games db → Game.status g ≠ finished → Game.winner_id g = None) as Hopen.
  { intros g Hg Hst. destruct (inv_games db HI g Hg) as [_ _ _ _ Ho _].
    by destruct (Ho Hst). }
  set (gp := Z.of_nat (length (filter (λ p, Player.user_id p = u) (players db)))).
  set (wins := Z.of_nat (length (filter (λ g, Game.winner_id g = Some u) (games db)))).
  set (draws := Z.of_nat (length
        ((λ gp : Game.t * Player.t, Game.id gp.1) <$>
           filter (λ gp, Game.status gp.1 = finished ∧ Game.winner_id gp.1 = None
                         ∧ Player.user_id gp.2 = u)
             (sql_join (games db) (players db)
                (λ g p, bool_decide (Player.game_id p = Game.id g)))))).
  assert (gp = sum_Z ((λ g, indicator (seated db u g)) <$> games db)) as Hgp.
  { unfold gp. rewrite (length_filter_by_game _ (games db));
      [|by destruct HI|by destruct HI].
    apply sum_Z_ext. intros g Hg. by apply (seats_indicator it). }
  assert (wins = sum_Z ((λ g, indicator (seated db u g ∧ Game.winner_id g = Some u))
                          <$> games db)) as Hwins.
  { unfold wins. rewrite <- sum_Z_indicator. apply sum_Z_ext. intros g Hg.
    unfold indicator. destruct (decide (Game.winner_id g = Some u)) as [Hw|Hw].
    - rewrite decide_True; [done|]. split; [by apply Hwseat|done].
    - rewrite decide_False; [done|]. tauto. }
  assert (draws = sum_Z ((λ g, indicator (seated db u g ∧ Game.status g = finished
                                          ∧ Game.winner_id g = None)) <$> games db))
    as Hdraws.
  { unfold draws, sql_join. rewrite length_fmap, length_filter_bind.
    apply sum_Z_ext. intros g Hg.
    rewrite filter_fmap, length_fmap. simpl.
    rewrite (list_filter_iff (λ p, bool_decide (Player.game_id p = Game.id g) = true)
               (λ p, Player.game_id p = Game.id g))
      by (intros p; apply bool_decide_eq_true).
    fold (game_players db (Game.id g)).
    destruct (decide (Game.status g = finished ∧ Game.winner_id g = None)) as [Hd|Hd].
    - rewrite (list_filter_iff _ (λ p, Player.user_id p = u)) by (intros p; tauto).
      rewrite (seats_indicator it) by done. unfold indicator.
      destruct (decide (seated db u g)).
      + rewrite decide_True; [done|tauto].
      + rewrite decide_False; [done|tauto].
    - rewrite filter_none by (intros p _; tauto). simpl.
      unfold indicator. rewrite decide_False; [done|tauto]. }
  assert (gp - wins - draws
          = sum_Z ((λ g, indicator (seated db u g ∧
                                    (Game.status g ≠ finished ∨
                                     (Game.winner_id g ≠ None ∧
                                      Game.winner_id g ≠ Some u)))) <$> games db))
    as Hloses.
  { assert (gp = wins + draws
                 + sum_Z ((λ g, indicator (seated db u g ∧
                                           (Game.status g ≠ finished ∨
                                            (Game.winner_id g ≠ None ∧
                                             Game.winner_id g ≠ Some u)))) <$> games db));
      [|lia].
    rewrite Hgp, Hwins, Hdraws, <- !sum_Z_add. apply sum_Z_ext. intros g Hg.
    pose proof (Hopen g Hg) as Ho. unfold indicator.
    destruct (decide (seated db u g)) as [Hs|Hs].
    2:{ rewrite !decide_False by tauto. done. }
    destruct (Game.winner_id g) as [w|] eqn:Hw.
    - assert (Game.status g = finished) as Hst.
      { destruct (decide (Game.status g = finished)); [done|]. by specialize (Ho ltac:(done)). }
      destruct (decide (w = u)) as [->|Hne].
      + rewrite decide_True by done. rewrite decide_False by (by intros (_ & _ & ?)).
        rewrite decide_False; [done|]. intros (_ & [?|[_ ?]]); done.
      + rewrite decide_False by (intros [_ [= ?]]; done).
        rewrite decide_False by (by intros (_ & _ & ?)).
        rewrite decide_True; [done|]. split; [done|]. right. split; [done|].
        intros [= ?]. done.
    - rewrite decide_False by (by intros [_ ?]).
      destruct (decide (Game.status g = finished)) as [Hst|Hst].
      + rewrite decide_True by done. rewrite decide_False; [done|].
        intros (_ & [?|[? _]]); done.
      + rewrite decide_False by (by intros (_ & ? & _)).
        rewrite decide_True; [done|]. split; [done|]. by left. }
  rewrite !sum_Z_indicator in Hgp, Hwins, Hdraws, Hloses.
  assert (0 ≤ wins ≤ gp) as Hbound by lia.
  unfold get_user_stats. cbn zeta. fold gp wins draws.
  set (ms := group_count _).
  assert (ms ≠ [] → Z.of_nat (length ms) ≠ 0) as Hlen by (destruct ms; [done|simpl; lia]).
  destruct (decide (gp ≠ 0)) as [Hnz|Hz]; destruct (decide (ms ≠ [])) as [Hms|Hms];
    unfold truediv; rewrite ?decide_False by auto; simpl;
    (eexists; split; [reflexivity|]); simpl;
    do 4 (split; [done|]);
    first [apply to_float_ratio; lia | done].
Qed.

(** X17 for user 3, who lost game 1 of the scenario of the leaderboard. *)
Lemma get_user_stats_over_games_witness :
  ∃ s, get_user_stats 3 db_efficiency = inr s ∧
       stats_games s = Z.of_nat (length (filter (seated db_efficiency 3) (games db_efficiency))) ∧
       stats_wins s
       = Z.of_nat (length (filter (λ g, seated db_efficiency 3 g ∧ Game.winner_id g = Some 3)
                             (games db_efficiency))) ∧
       stats_draws s
       = Z.of_nat (length (filter (λ g, seated db_efficiency 3 g ∧ Game.status g = finished
                                        ∧ Game.winner_id g = None) (games db_efficiency))) ∧
       stats_loses s
       = Z.of_nat (length (filter (λ g, seated db_efficiency 3 g ∧
                                        (Game.status g ≠ finished ∨
                                         (Game.winner_id g ≠ None ∧
                                          Game.winner_id g ≠ Some 3)))
                             (games db_efficiency))) ∧
       (0 ≤ stats_win_ratio s)%Qc ∧ (stats_win_ratio s ≤ 1)%Qc.
Proof. exact (get_user_stats_over_games 0 db_efficiency 3 (reachable_run 0 _)). Defined.

(** ** Keys and references *)

Lemma NoDup_snoc_fresh ids : NoDup ids → NoDup (ids ++ [fresh_id ids]).
Proof.
  intros Hnd. apply NoDup_app. split; [done|]. split.
  - intros x Hx ->%list_elem_of_singleton. by apply (fresh_id_not_in ids).
  - apply NoDup_singleton.
Qed.

Lemma exec_players it c db :
  (players (exec it c db) = players db ∨
   ∃ gid uid o,
     players (exec it c db)
     = players db ++ [Player.mk (fresh_id (Player.id <$> players db)) gid uid o] ∧
     uid ∈ User.id <$> users db) ∧
  (moves (exec it c db) = moves db ∨
   ∃ m, moves (exec it c db) = moves db ++ [m] ∧
        Move.id m = fresh_id (Move.id <$> moves db)).
Proof.
  assert (∀ uid, is_Some (s_get User.id (users db) uid) → uid ∈ User.id <$> users db)
    as Huser.
  { intros uid [r Hr]. apply s_get_Some in Hr as [Hr <-]. apply list_elem_of_fmap.
    by exists r. }
  destruct c as [name|uid|gid uid now|gid uid row col now]; simpl.
  - split; by left.
  - destruct (create_game it uid db) as [[e|g] db'] eqn:H; apply create_game_inv in H.
    + subst. split; by left.
    + destruct H as (_ & Hu & ->). simpl. split; [right|by left].
      eexists _, _, _. split; [done|]. by apply Huser.
  - destruct (join_game gid uid now db) as [[e|[]] db'] eqn:H; apply join_game_inv in H.
    + subst. split; by left.
    + destruct H as (g & _ & _ & Hu & _ & _ & _ & ->). simpl. split; [right|by left].
      eexists _, _, _. split; [done|]. by apply Huser.
  - destruct (move it gid uid row col now db) as [[e|v] db'] eqn:H; apply move_inv in H.
    + subst. split; by left.
    + destruct H as (g & u & b & w & _ & _ & _ & _ & _ & _ & _ & _ & ->). simpl.
      split; [by left|right]. eexists. split; [done|]. done.
Qed.

Lemma reachable_keys it db :
  reachable it db →
  NoDup (User.id <$> users db) ∧ NoDup (Player.id <$> players db) ∧
  NoDup (Move.id <$> moves db) ∧
  (∀ p, p ∈ players db → Player.user_id p ∈ User.id <$> users db).
Proof.
  induction 1 as [|c db Hreach (Hu & Hp & Hm & Hfk)].
  { repeat split; try apply NoDup_nil_2. intros p Hp. by apply elem_of_nil in Hp. }
  assert (∀ x, x ∈ User.id <$> users db → x ∈ User.id <$> users (exec it c db)) as Hmono.
  { intros x Hx. destruct (exec_users it c db) as [->|(n & _ & ->)]; [done|].
    rewrite fmap_app. apply elem_of_app. by left. }
  destruct (exec_players it c db) as [Hps Hms].
  split; [|split; [|split]].
  - destruct (exec_users it c db) as [->|(n & _ & ->)]; [done|].
    rewrite fmap_app. simpl. by apply NoDup_snoc_fresh.
  - destruct Hps as [->|(gid & uid & o & -> & _)]; [done|].
    rewrite fmap_app. simpl. by apply NoDup_snoc_fresh.
  - destruct Hms as [->|(m & -> & Hid)]; [done|].
    rewrite fmap_app. simpl. rewrite Hid. by apply NoDup_snoc_fresh.
  - destruct Hps as [->|(gid & uid & o & -> & Hin)].
    + intros p Hp'. by apply Hmono, Hfk.
    + intros p [Hp'|Hp'%list_elem_of_singleton]%elem_of_app; apply Hmono.
      * by apply Hfk.
      * by subst p.
Qed.

(** X18. In every state the service can reach the keys of schema.py hold
    without the database enforcing them: the primary keys of the four
    tables are unique; every seat refers to an existing game and an
    existing user; every move refers to an existing game and to an
    existing user, who holds a seat of that game; a recorded winner is an
    existing user; and within a game no two seats have the same
    [player_order] or the same user, and no two moves the same
    ([row], [col]) or the same [move_no]. *)
Theorem store_integrity it db :
  reachable it db →
  (NoDup (User.id <$> users db) ∧ NoDup (Game.id <$> games db) ∧
   NoDup (Player.id <$> players db) ∧ NoDup (Move.id <$> moves db)) ∧
  (∀ p, p ∈ players db →
        Player.game_id p ∈ Game.id <$> games db ∧
        Player.user_id p ∈ User.id <$> users db) ∧
  (∀ m, m ∈ moves db →
        Move.game_id m ∈ Game.id <$> games db ∧
        Move.user_id m ∈ User.id <$> users db ∧
        ∃ p, p ∈ players db ∧ Player.game_id p = Move.game_id m ∧
             Player.user_id p = Move.user_id m) ∧
  (∀ g w, g ∈ games db → Game.winner_id g = Some w → w ∈ User.id <$> users db) ∧
  (∀ p q, p ∈ players db → q ∈ players db → Player.game_id p = Player.game_id q →
          Player.player_order p = Player.player_order q ∨
          Player.user_id p = Player.user_id q → p = q) ∧
  (∀ m n, m ∈ moves db → n ∈ moves db → Move.game_id m = Move.game_id n →
          (Move.row m = Move.row n ∧ Move.col m = Move.col n) ∨
          Move.move_no m = Move.move_no n → m = n).
Proof.
  intros Hreach. pose proof (reachable_Inv it db Hreach) as HI.
  destruct (reachable_keys it db Hreach) as (Hu & Hp & Hm & Hfk).
  assert (∀ m, m ∈ moves db →
            ∃ g, g ∈ games db ∧ Game.id g = Move.game_id m ∧
                 m ∈ game_moves db (Game.id g)) as Hgame_of_move.
  { intros m Hin. pose proof (inv_move_fk db HI m Hin) as Hg.
    apply list_elem_of_fmap in Hg as (g & Hid & Hg). exists g. split; [done|].
    split; [done|]. by apply list_elem_of_filter. }
  assert (∀ m, m ∈ moves db →
            ∃ p, p ∈ players db ∧ Player.game_id p = Move.game_id m ∧
                 Player.user_id p = Move.user_id m) as Hmover.
  { intros m Hin. destruct (Hgame_of_move m Hin) as (g & Hg & Hid & Hmg).
    destruct (reachable_Inv2 it db Hreach g Hg) as [Hturns _ _ _].
    destruct (Hturns m Hmg) as (p & [Hpg Hpin]%list_elem_of_filter & Hpu & _).
    exists p. split; [done|]. split; [congruence|done]. }
  split; [split; [done|]; split; [by destruct HI|done]|].
  split; [intros p Hin; split; [by apply (inv_player_fk db HI)|by apply Hfk]|].
  split.
  { intros m Hin. split; [by apply (inv_move_fk db HI)|].
    destruct (Hmover m Hin) as (p & Hpin & Hpg & Hpu). split; [|by exists p].
    rewrite <- Hpu. by apply Hfk. }
  split.
  { intros g w Hg Hw.
    destruct (winner_has_moves it db g w Hreach Hg Hw)
      as (m & _ & _ & (Hmg & _) & (<- & _) & _).
    apply list_elem_of_filter in Hmg as [_ Hin].
    destruct (Hmover m Hin) as (p & Hpin & _ & <-). by apply Hfk. }
  split.
  - intros p q Hpin Hqin Hpq Hsame.
    pose proof (inv_player_fk db HI p Hpin) as Hg.
    apply list_elem_of_fmap in Hg as (g & Hid & Hg).
    destruct (inv_games db HI g Hg) as [_ _ _ Hseats _ _].
    assert (p ∈ game_players db (Game.id g)) as Hp' by (by apply list_elem_of_filter).
    assert (q ∈ game_players db (Game.id g)) as Hq'
      by (apply list_elem_of_filter; split; [congruence|done]).
    destruct Hseats as [(p0 & Hps & _)|(p0 & p1 & Hps & Ho0 & Ho1 & Hne & _)];
      rewrite Hps in Hp', Hq'; revert Hp' Hq';
      rewrite ?elem_of_cons, ?elem_of_nil.
    + intros [->|[]] [->|[]]. done.
    + intros [->|[->|[]]] [->|[->|[]]]; try done; exfalso; destruct Hsame; (lia || congruence).
  - intros m n Hmin Hnin Hmn Hsame.
    destruct (Hgame_of_move m Hmin) as (g & Hg & Hid & Hmg).
    assert (n ∈ game_moves db (Game.id g)) as Hng
      by (apply list_elem_of_filter; split; [congruence|done]).
    destruct (inv_games db HI g Hg) as [_ Hno Hcells _ _ _].
    destruct Hsame as [[Hr Hc]|Hn].
    + apply (NoDup_fmap_eq (λ m, (Move.row m, Move.col m)) (game_moves db (Game.id g)));
        [done..|]. by rewrite Hr, Hc.
    + apply (NoDup_fmap_eq Move.move_no (game_moves db (Game.id g))); [|done..].
      rewrite Hno. apply (NoDup_fmap_2 _), NoDup_seq.
Qed.

(** X18 in the scenario of the leaderboard. *)
Lemma store_integrity_witness :
  (NoDup (User.id <$> users db_efficiency) ∧ NoDup (Game.id <$> games db_efficiency) ∧
   NoDup (Player.id <$> players db_efficiency) ∧ NoDup (Move.id <$> moves db_efficiency)) ∧
  (∀ p, p ∈ players db_efficiency →
        Player.game_id p ∈ Game.id <$> games db_efficiency ∧
        Player.user_id p ∈ User.id <$> users db_efficiency) ∧
  (∀ m, m ∈ moves db_efficiency →
        Move.game_id m ∈ Game.id <$> games db_efficiency ∧
        Move.user_id m ∈ User.id <$> users db_efficiency ∧
        ∃ p, p ∈ players db_efficiency ∧ Player.game_id p = Move.game_id m ∧
             Player.user_id p = Move.user_id m) ∧
  (∀ g w, g ∈ games db_efficiency → Game.winner_id g = Some w →
          w ∈ User.id <$> users db_efficiency) ∧
  (∀ p q, p ∈ players db_efficiency → q ∈ players db_efficiency →
          Player.game_id p = Player.game_id q →
          Player.player_order p = Player.player_order q ∨
          Player.user_id p = Player.user_id q → p = q) ∧
  (∀ m n, m ∈ moves db_efficiency → n ∈ moves db_efficiency →
          Move.game_id m = Move.game_id n →
          (Move.row m = Move.row n ∧ Move.col m = Move.col n) ∨
          Move.move_no m = Move.move_no n → m = n).
Proof. exact (store_integrity 0 db_efficiency (reachable_run 0 _)). Defined.

(** ** Two requests that read the same state *)

Lemma move_guards_not_conflict gid uid db e db1 :
  move_guards gid uid db = (inl e, db1) → e ≠ Conflict.
Proof.
  unfold move_guards, mbind, M_bind, query, raise, mret, M_ret. cbn beta iota zeta.
  destruct (s_get Game.id (games db) gid) as [g|]; [|by intros [= <- _]].
  case_decide; [by intros [= <- _]|]. case_bool_decide; [|by intros [= <- _]].
  case_decide; [by intros [= <- _]|done].
Qed.

(** X19. Two [move] requests for the same game whose reads and guards
    both ran against the same state, in every state the service can
    reach: when the first to reach the conditional update is accepted,
    it leaves the store that [move] alone would have left, with one more
    move and the turn counter one higher; the second is then rejected
    whatever its arguments, with 400 "Concurrent moves, try again"
    exactly when its guards had passed, and the store stays as the first
    request left it. *)
Theorem concurrent_moves it db gid uidA rowA colA nowA uidB rowB colB nowB vA dbA :
  reachable it db →
  move_interleaved it db gid uidA rowA colA nowA db = (inr vA, dbA) →
  move it gid uidA rowA colA nowA db = (inr vA, dbA) ∧
  length (moves dbA) = S (length (moves db)) ∧
  (∀ g, s_get Game.id (games db) gid = Some g →
        ∃ g', s_get Game.id (games dbA) gid = Some g' ∧
              Game.turn_no g' = Game.turn_no g + 1) ∧
  ∃ e, move_interleaved it db gid uidB rowB colB nowB dbA = (inl e, dbA) ∧
       (e = Conflict ↔ ∃ t, (move_guards gid uidB db).1 = inr t).
Proof.
  intros Hreach HA. pose proof (reachable_Inv it db Hreach) as HI.
  pose proof (inv_game_ids db HI) as Hnd.
  pose proof HA as HA'. rewrite move_interleaved_same in HA'.
  split; [done|].
  apply move_inr in HA' as (g & u & b & w & Hget & _ & _ & _ & _ & _ & _ & ->); [|done].
  split; [simpl; rewrite length_app; simpl; lia|]. split.
  { intros g0 Hget0. rewrite Hget in Hget0. injection Hget0 as <-.
    exists (game_after_move w nowA g). cbn [games]. split.
    - apply s_get_update_row; [done|apply game_after_move_id|done].
    - unfold game_after_move. destruct w; [done|]. by case_decide. }
  destruct (move_guards gid uidB db) as [[e|t] db1] eqn:HgB.
  - exists e. split.
    + unfold move_interleaved. by rewrite HgB.
    + split.
      * intros ->. by apply move_guards_not_conflict in HgB.
      * intros [t Ht]. done.
  - exists Conflict. split.
    + apply (move_interleaved_one_winner it db gid uidA rowA colA nowA uidB rowB colB nowB vA);
        [done|done|]. exists t. by rewrite HgB.
    + split; [|done]. intros _. by exists t.
Qed.

(** X19 for a request of user 1 at (1,1) and a second request of user 1
    at (2,2), both read after two moves of game 1. *)
Lemma concurrent_moves_witness :
  move 0 1 (Some 1) 1 1 300 db_two_moves
  = (inr (mkViewGame 1 in_progress
            [[Some 1; Some 2; None]; [None; Some 1; None]; [None; None; None]]
            (Some 2) [1; 2] None),
     (move 0 1 (Some 1) 1 1 300 db_two_moves).2) ∧
  length (moves (move 0 1 (Some 1) 1 1 300 db_two_moves).2)
  = S (length (moves db_two_moves)) ∧
  (∀ g, s_get Game.id (games db_two_moves) 1 = Some g →
        ∃ g', s_get Game.id (games (move 0 1 (Some 1) 1 1 300 db_two_moves).2) 1 = Some g' ∧
              Game.turn_no g' = Game.turn_no g + 1) ∧
  ∃ e, move_interleaved 0 db_two_moves 1 (Some 1) 2 2 301
         (move 0 1 (Some 1) 1 1 300 db_two_moves).2
       = (inl e, (move 0 1 (Some 1) 1 1 300 db_two_moves).2) ∧
       (e = Conflict ↔ ∃ t, (move_guards 1 (Some 1) db_two_moves).1 = inr t).
Proof.
  refine (concurrent_moves 0 db_two_moves 1 (Some 1) 1 1 300 (Some 1) 2 2 301 _ _
            (reachable_run 0 _) _).
  vm_compute. reflexivity.
Defined.

(** ** The shape of a game *)

(** The column defaults of schema.py are one instant, the time of the
    import: it is what [created_at] holds, what [started_at] and
    [completed_at] hold until the service sets them, and what
    [performed_at] holds. *)
Lemma reachable_times it db :
  reachable it db →
  (∀ g, g ∈ games db →
        Game.created_at g = it ∧
        (Game.status g = waiting → Game.started_at g = it) ∧
        (Game.status g ≠ finished → Game.completed_at g = it)) ∧
  (∀ m, m ∈ moves db → Move.performed_at m = it).
Proof.
  induction 1 as [|c db Hreach [Hgames Hmoves]].
  { split; intros x Hx; by apply elem_of_nil in Hx. }
  pose proof (reachable_Inv it db Hreach) as HI.
  destruct c as [name|uid|gid uid now|gid uid row col now]; simpl.
  - done.
  - destruct (create_game it uid db) as [[e|gnew] db'] eqn:H; apply create_game_inv in H.
    + by subst.
    + destruct H as (-> & _ & ->). split; [|done]. cbn [games].
      intros g [Hg|Hg%list_elem_of_singleton]%elem_of_app; [by apply Hgames|].
      by subst g.
  - destruct (join_game gid uid now db) as [[e|[]] db'] eqn:H; apply join_game_inv in H.
    + by subst.
    + destruct H as (g0 & Hget0 & Hst0 & _ & _ & _ & _ & ->). split; [|done].
      cbn [games]. case_decide; [|done].
      intros g (g1 & Hg1 & ->)%elem_of_update_row.
      destruct (Hgames g1 Hg1) as (Hc & Hs & Hf).
      case_bool_decide; [|done]. simpl. split; [done|]. split; [done|].
      intros _. apply Hf.
      destruct (s_get_Some _ _ _ _ Hget0) as [Hg0 Hid0].
      assert (g1 = g0) as ->; [|by rewrite Hst0].
      pose proof (s_get_unique Game.id _ g1 (inv_game_ids db HI) Hg1) as H1.
      congruence.
  - destruct (move it gid uid row col now db) as [[e|v] db'] eqn:H.
    { apply move_inv in H. by subst. }
    apply move_inr in H; [|by destruct HI].
    destruct H as (g0 & u & b & w & Hget0 & Hst0 & -> & _ & _ & _ & _ & ->).
    destruct (s_get_Some _ _ _ _ Hget0) as [Hg0 Hid0]. split.
    + cbn [games]. intros g (g1 & Hg1 & ->)%elem_of_update_row.
      destruct (Hgames g1 Hg1) as (Hc & Hs & Hf).
      case_bool_decide; [|done].
      assert (g1 = g0) as ->.
      { pose proof (s_get_unique Game.id _ g1 (inv_game_ids db HI) Hg1) as H1.
        congruence. }
      unfold game_after_move. destruct w; [|case_decide]; simpl;
        (split; [done|]); (split; [congruence|]); (done || by apply Hf; rewrite Hst0).
    + cbn [moves]. intros m [Hm|Hm%list_elem_of_singleton]%elem_of_app;
        [by apply Hmoves|by subst m].
Qed.

(** X20. The shape of every game in every state the service can reach.
    [created_at] is the time at which schema.py was imported, not the
    time of the call that created the game, and so is [performed_at] of
    every move.  A waiting game has one seat, seat 0, no move,
    [turn_no = 0], no winner, and [started_at] and [completed_at] still
    hold the time of the import.  A game in progress has seats 0 and 1
    held by two different users, fewer than 9 moves, no winner, and
    [completed_at] still holds the time of the import.  A finished game
    has the two seats and either a winner or 9 moves. *)
Theorem game_shape it db g :
  reachable it db → g ∈ games db →
  Game.created_at g = it ∧
  (∀ m, m ∈ game_moves db (Game.id g) → Move.performed_at m = it) ∧
  Game.turn_no g = Z.of_nat (length (game_moves db (Game.id g))) ∧
  match Game.status g with
  | waiting =>
      (∃ p0, game_players db (Game.id g) = [p0] ∧ Player.player_order p0 = 0) ∧
      game_moves db (Game.id g) = [] ∧ Game.winner_id g = None ∧
      Game.started_at g = it ∧ Game.completed_at g = it
  | in_progress =>
      (∃ p0 p1, game_players db (Game.id g) = [p0; p1] ∧
                Player.player_order p0 = 0 ∧ Player.player_order p1 = 1 ∧
                Player.user_id p0 ≠ Player.user_id p1) ∧
      Game.turn_no g < 9 ∧ Game.winner_id g = None ∧ Game.completed_at g = it
  | finished =>
      (∃ p0 p1, game_players db (Game.id g) = [p0; p1] ∧
                Player.player_order p0 = 0 ∧ Player.player_order p1 = 1 ∧
                Player.user_id p0 ≠ Player.user_id p1) ∧
      (is_Some (Game.winner_id g) ∨ Game.turn_no g = 9)
  end.
Proof.
  intros Hreach Hg.
  destruct (reachable_times it db Hreach) as [Hgames Hmoves].
  destruct (Hgames g Hg) as (Hc & Hs & Hf).
  destruct (inv_games db (reachable_Inv it db Hreach) g Hg)
    as [Hturn _ _ Hseats Hopen Hwait].
  destruct (reachable_Inv2 it db Hreach g Hg) as [_ _ _ Hdraw].
  split; [done|]. split.
  { intros m [_ Hm]%list_elem_of_filter. by apply Hmoves. }
  split; [done|].
  destruct (Game.status g) eqn:Hst.
  - destruct Hseats as [(p0 & Hps & Ho0 & _)|(p0 & p1 & _ & _ & _ & _ & Hnw)]; [|done].
    split; [by exists p0|]. destruct (Hopen ltac:(done)) as [Hnone _].
    split; [|split; [done|split; [by apply Hs|by apply Hf]]].
    apply nil_length_inv. rewrite (Hwait eq_refl) in Hturn. lia.
  - destruct Hseats as [(p0 & _ & _ & Hwt)|(p0 & p1 & Hps & Ho0 & Ho1 & Hne & _)]; [done|].
    split; [by exists p0, p1|]. destruct (Hopen ltac:(done)) as [Hnone H9].
    split; [done|]. split; [done|]. by apply Hf.
  - destruct Hseats as [(p0 & _ & _ & Hwt)|(p0 & p1 & Hps & Ho0 & Ho1 & Hne & _)]; [done|].
    split; [by exists p0, p1|].
    destruct (Game.winner_id g) as [w|]; [left; by eexists|right; by apply Hdraw].
Qed.

(** X20 for the game won by user 1, completed at 105, with the import at 0. *)
Lemma game_shape_witness :
  0 = 0 ∧
  (∀ m, m ∈ game_moves db_efficiency 1 → Move.performed_at m = 0) ∧
  5 = Z.of_nat (length (game_moves db_efficiency 1)) ∧
  (∃ p0 p1, game_players db_efficiency 1 = [p0; p1] ∧
            Player.player_order p0 = 0 ∧ Player.player_order p1 = 1 ∧
            Player.user_id p0 ≠ Player.user_id p1) ∧
  (is_Some (Some 1) ∨ 5 = 9).
Proof.
  refine (game_shape 0 db_efficiency (Game.mk 1 finished 0 100 105 (Some 1) 5)
            (reachable_run 0 _) _).
  vm_compute. by left.
Defined.

(** ** The efficiency of a winner *)

Lemma sum_Z_le {A} (a b : A → Z) l :
  (∀ x, x ∈ l → a x ≤ b x) → sum_Z (a <$> l) ≤ sum_Z (b <$> l).
Proof.
  induction l as [|x l IH]; intros H; [done|]. rewrite !fmap_cons. simpl.
  pose proof (H x ltac:(by left)). assert (sum_Z (a <$> l) ≤ sum_Z (b <$> l)); [|lia].
  apply IH. intros y Hy. apply H. by right.
Qed.

Lemma to_float_average s n :
  0 < n → 3 * n ≤ s → (to_float 3 ≤ to_float s / to_float n)%Qc.
Proof.
  intros Hn Hs. unfold to_float, Qcle, Qcdiv, Qcmult, Qcinv. simpl.
  rewrite !Qred_correct.
  assert (0 < inject_Z n)%Q as Hn' by (unfold Qlt; simpl; lia).
  apply Qle_shift_div_l; [done|]. unfold Qle. simpl. lia.
Qed.

(** The moves of [u] in a game that [u] has won are counted, each once
    at least, by the query of [leaderboard] and [get_user_stats]. *)
Lemma winner_moves_counted db u g :
  g ∈ games db → Game.winner_id g = Some u →
  Z.of_nat (length (filter (λ m, Move.user_id m = u) (game_moves db (Game.id g))))
  ≤ count ((λ mg : Move.t * Game.t, Move.game_id mg.1) <$>
             filter (λ mg, Game.winner_id mg.2 = Some u ∧ Move.user_id mg.1 = u)
               (sql_join (moves db) (games db)
                  (λ m g, bool_decide (Game.id g = Move.game_id m))))
          (Game.id g).
Proof.
  intros Hg Hw. rewrite count_fmap, list_filter_filter. unfold sql_join.
  rewrite length_filter_bind. unfold game_moves. rewrite list_filter_filter.
  rewrite <- sum_Z_indicator. apply sum_Z_le. intros m Hm.
  rewrite filter_fmap, length_fmap. simpl. unfold indicator. case_decide as Hmu; [|lia].
  destruct Hmu as [Hu Hgid].
  assert (g ∈ filter (λ g0, Move.game_id m = Game.id g ∧
                            Game.winner_id g0 = Some u ∧ Move.user_id m = u)
                     (filter (λ g0, bool_decide (Game.id g0 = Move.game_id m) = true)
                        (games db))) as Hin.
  { apply list_elem_of_filter. split; [done|]. apply list_elem_of_filter.
    split; [|done]. by apply bool_decide_eq_true. }
  destruct (filter _ (filter _ (games db))); [by apply elem_of_nil in Hin|simpl; lia].
Qed.

(** X21. In every state the service can reach, [leaderboard] has an
    efficiency for a user exactly when the user has won a game, and the
    efficiency is then at least 3, so never 0: the test [if value] of
    [leaderboard("efficiency")] drops no winner, and a user who has won
    a game is missing from its rows only when there are three rows. *)
Theorem efficiency_of_winners it db u :
  reachable it db →
  (is_Some (efficiency db !! u) ↔ ∃ g, g ∈ games db ∧ Game.winner_id g = Some u) ∧
  (∀ e, efficiency db !! u = Some e → (to_float 3 ≤ e)%Qc ∧ e ≠ 0%Qc) ∧
  (∀ rows, leaderboard "efficiency" db = Rows rows →
           (∃ g, g ∈ games db ∧ Game.winner_id g = Some u) →
           u ∈ lb_user_id <$> rows ∨ length rows = 3%nat).
Proof.
  intros Hreach.
  pose proof (efficiency_lookup db u) as Heff. cbn zeta in Heff.
  set (L := filter (λ mg : Move.t * Game.t,
                      Game.winner_id mg.2 = Some u ∧ Move.user_id mg.1 = u)
              (sql_join (moves db) (games db)
                 (λ m g, bool_decide (Game.id g = Move.game_id m)))) in *.
  set (G := (λ mg : Move.t * Game.t, Move.game_id mg.1) <$> L) in *.
  assert (∀ gid, gid ∈ G → ∃ g, g ∈ games db ∧ Game.id g = gid ∧ Game.winner_id g = Some u)
    as HG.
  { intros gid ([m g] & -> & Hin)%list_elem_of_fmap.
    apply list_elem_of_filter in Hin as [[Hw _] Hin].
    apply elem_of_sql_join in Hin as (_ & Hg & Hon). apply bool_decide_eq_true in Hon.
    by exists g. }
  assert (∀ g, g ∈ games db → Game.winner_id g = Some u → 3 ≤ count G (Game.id g)) as H3.
  { intros g Hg Hw. etrans; [|by apply winner_moves_counted].
    destruct (winner_has_moves it db g u Hreach Hg Hw)
      as (m1 & m2 & m3 & (Hm1 & Hm2 & Hm3) & (Hu1 & Hu2 & Hu3) & (H12 & H13 & H23)).
    assert ([m1; m2; m3] ⊆+ filter (λ m, Move.user_id m = u) (game_moves db (Game.id g)))
      as Hsub.
    { apply NoDup_submseteq.
      - apply NoDup_cons. split; [rewrite !elem_of_cons, elem_of_nil; tauto|].
        apply NoDup_cons. split; [rewrite elem_of_cons, elem_of_nil; tauto|].
        apply NoDup_singleton.
      - intros m. rewrite !elem_of_cons, elem_of_nil, list_elem_of_filter.
        intros [->|[->|[->|[]]]]; done. }
    apply submseteq_length in Hsub. simpl in Hsub. lia. }
  assert ((∃ g, g ∈ games db ∧ Game.winner_id g = Some u) → group_count G ≠ []) as Hwon.
  { intros (g & Hg & Hw). specialize (H3 g Hg Hw).
    assert (Game.id g ∈ G) as Hin.
    { destruct (decide (Game.id g ∈ G)) as [|Hout]; [done|].
      rewrite (count_absent G _ Hout) in H3. lia. }
    unfold group_count. intros Hnil%fmap_nil_inv.
    apply elem_of_remove_dups in Hin. rewrite Hnil in Hin. by apply elem_of_nil in Hin. }
  assert (∀ e, efficiency db !! u = Some e → (to_float 3 ≤ e)%Qc) as Hbound.
  { intros e. rewrite Heff. case_decide as Hne; [|done]. intros [= <-].
    apply to_float_average.
    - destruct (group_count G); [done|simpl; lia].
    - unfold group_count. rewrite <- list_fmap_compose, length_fmap.
      assert (∀ l, (∀ gid, gid ∈ l → gid ∈ G) →
                   3 * Z.of_nat (length l) ≤ sum_Z (snd ∘ (λ k, (k, count G k)) <$> l))
        as Hsum.
      { induction l as [|gid l IH]; intros Hl; [done|]. rewrite fmap_cons. simpl.
        destruct (HG gid) as (g & Hg & <- & Hw); [apply Hl; by left|].
        specialize (H3 g Hg Hw).
        assert (3 * Z.of_nat (length l) ≤ sum_Z (snd ∘ (λ k, (k, count G k)) <$> l));
          [|lia].
        apply IH. intros x Hx. apply Hl. by right. }
      apply Hsum. intros gid Hgid. by apply elem_of_remove_dups. }
  assert (∀ e, efficiency db !! u = Some e → e ≠ 0%Qc) as Hnz.
  { intros e He ->. apply Hbound in He. revert He. unfold to_float, Qcle. simpl.
    unfold Qle. simpl. lia. }
  split; [|split].
  - split.
    + intros [e He]. rewrite Heff in He. case_decide as Hne; [|done].
      destruct (group_count G) as [|[gid c] l] eqn:Hgc; [done|].
      destruct (HG gid) as (g & Hg & _ & Hw); [|by exists g].
      apply elem_of_remove_dups. unfold group_count in Hgc.
      destruct (remove_dups G) as [|x xs]; [done|]. injection Hgc as -> _ _. by left.
    + intros Hex. rewrite Heff. rewrite decide_True by (by apply Hwon). by eexists.
  - intros e He. split; [by apply Hbound|by apply Hnz].
  - intros rows Hrows Hex.
    assert (is_Some (efficiency db !! u)) as [e He].
    { rewrite Heff. rewrite decide_True by (by apply Hwon). by eexists. }
    revert Hrows. unfold leaderboard. cbn zeta. rewrite efficiency_rows_foldl.
    rewrite decide_False by done. rewrite decide_True by done. intros [= <-].
    set (sorted := merge_sort _ _).
    assert (mkLeaderBoard u e (default 0 (wins_by_user db !! u))
                          (default 0 (total_games_by_user db !! u)) ∈ sorted) as Hin.
    { unfold sorted. rewrite merge_sort_Permutation. apply list_elem_of_omap. exists u.
      split.
      - apply elem_of_elements. unfold all_users. apply elem_of_union. right.
        apply elem_of_dom. by exists e.
      - unfold efficiency_row. rewrite He. simpl. rewrite decide_True; [done|].
        by apply Hnz. }
    rewrite <- (take_drop 3 sorted) in Hin. apply elem_of_app in Hin as [Hin|Hin].
    + left. apply list_elem_of_fmap. eexists. split; [|exact Hin]. done.
    + right. rewrite length_take. apply list_elem_of_lookup_1 in Hin as [k Hk].
      apply lookup_lt_Some in Hk. rewrite length_drop in Hk. lia.
Qed.

(** X21 for user 1, who has won game 1 in the scenario of the leaderboard. *)
Lemma efficiency_of_winners_witness :
  (is_Some (efficiency db_efficiency !! 1) ↔
   ∃ g, g ∈ games db_efficiency ∧ Game.winner_id g = Some 1) ∧
  (∀ e, efficiency db_efficiency !! 1 = Some e → (to_float 3 ≤ e)%Qc ∧ e ≠ 0%Qc) ∧
  (∀ rows, leaderboard "efficiency" db_efficiency = Rows rows →
           (∃ g, g ∈ games db_efficiency ∧ Game.winner_id g = Some 1) →
           1 ∈ lb_user_id <$> rows ∨ length rows = 3%nat).
Proof. exact (efficiency_of_winners 0 db_efficiency 1 (reachable_run 0 _)). Defined.

(** ** Primary keys *)

Lemma foldr_max_init a l : 0 ≤ a → foldr Z.max a l = Z.max a (foldr Z.max 0 l).
Proof. intros Ha. induction l as [|x l IH]; simpl; lia. Qed.

Lemma fresh_id_seq n : fresh_id (Z.of_nat <$> seq 1 n) = Z.of_nat n + 1.
Proof.
  unfold fresh_id. assert (foldr Z.max 0 (Z.of_nat <$> seq 1 n) = Z.of_nat n); [|lia].
  induction n as [|n IH]; [done|].
  rewrite seq_S, fmap_app, foldr_app. simpl. rewrite foldr_max_init by lia. lia.
Qed.

Lemma seq_snoc_fresh n :
  (Z.of_nat <$> seq 1 n) ++ [fresh_id (Z.of_nat <$> seq 1 n)] = Z.of_nat <$> seq 1 (S n).
Proof. rewrite fresh_id_seq, seq_S, fmap_app. simpl. do 2 f_equal. lia. Qed.

Lemma exec_game_ids it c db :
  NoDup (Game.id <$> games db) →
  Game.id <$> games (exec it c db) = Game.id <$> games db ∨
  Game.id <$> games (exec it c db)
  = (Game.id <$> games db) ++ [fresh_id (Game.id <$> games db)].
Proof.
  intros Hnd. destruct c as [name|uid|gid uid now|gid uid row col now]; simpl.
  - by left.
  - destruct (create_game it uid db) as [[e|g] db'] eqn:H; apply create_game_inv in H.
    + subst. by left.
    + destruct H as (-> & _ & ->). right. simpl. by rewrite fmap_app.
  - left. destruct (join_game gid uid now db) as [[e|[]] db'] eqn:H;
      apply join_game_inv in H.
    + by subst.
    + destruct H as (g & _ & _ & _ & _ & _ & _ & ->). simpl.
      case_decide; [by rewrite update_row_id|done].
  - left. destruct (move it gid uid row col now db) as [[e|v] db'] eqn:H.
    { apply move_inv in H. by subst. }
    apply move_inr in H; [|done].
    destruct H as (g & u & b & w & _ & _ & _ & _ & _ & _ & _ & ->). simpl.
    rewrite update_row_id; [done|]. apply game_after_move_id.
Qed.

(** X3. Nothing is ever deleted, so with the keys of the default SQLite
    database (one more than the largest key in use) the primary keys
    count the rows: in every state the service can reach, the ids of the
    users, of the games, of the seats and of the moves are 1, 2, 3, ...
    in the order of insertion.  [create_user] never raises: with n users in the store it
    returns n + 1, appends the row with that id and the given name,
    leaves the other tables as they are, and [s.get(User, n + 1)] then
    returns the new row. *)
Theorem ids_sequential it db :
  reachable it db →
  (User.id <$> users db = Z.of_nat <$> seq 1 (length (users db)) ∧
   Game.id <$> games db = Z.of_nat <$> seq 1 (length (games db)) ∧
   Player.id <$> players db = Z.of_nat <$> seq 1 (length (players db)) ∧
   Move.id <$> moves db = Z.of_nat <$> seq 1 (length (moves db))) ∧
  (∀ name,
     let i := Z.of_nat (length (users db)) + 1 in
     create_user name db
     = (inr i, mkDB (users db ++ [User.mk i name]) (games db) (players db) (moves db)) ∧
     s_get User.id (users db ++ [User.mk i name]) i = Some (User.mk i name)).
Proof.
  intros Hreach.
  assert (User.id <$> users db = Z.of_nat <$> seq 1 (length (users db)) ∧
          Game.id <$> games db = Z.of_nat <$> seq 1 (length (games db)) ∧
          Player.id <$> players db = Z.of_nat <$> seq 1 (length (players db)) ∧
          Move.id <$> moves db = Z.of_nat <$> seq 1 (length (moves db))) as Hids.
  { induction Hreach as [|c db Hreach (Hu & Hg & Hp & Hm)]; [done|].
    pose proof (reachable_Inv it db Hreach) as HI.
    destruct (exec_players it c db) as [Hps Hms].
    split; [|split; [|split]].
    - destruct (exec_users it c db) as [->|(n & _ & ->)]; [done|].
      rewrite fmap_app, length_app, Nat.add_1_r. simpl. rewrite Hu. apply seq_snoc_fresh.
    - destruct (exec_game_ids it c db (inv_game_ids db HI)) as [Heq|Heq].
      + rewrite <- (length_fmap Game.id), Heq, length_fmap. done.
      + rewrite <- (length_fmap Game.id (games (exec it c db))), Heq.
        rewrite length_app, length_fmap, Nat.add_1_r. simpl. rewrite Hg.
        apply seq_snoc_fresh.
    - destruct Hps as [->|(gid & uid & o & -> & _)]; [done|].
      rewrite fmap_app, length_app, Nat.add_1_r. simpl. rewrite Hp. apply seq_snoc_fresh.
    - destruct Hms as [->|(m & -> & Hid)]; [done|].
      rewrite fmap_app, length_app, Nat.add_1_r. simpl. rewrite Hid, Hm.
      apply seq_snoc_fresh. }
  split; [done|]. intros name. cbn zeta. destruct Hids as (Hu & _).
  assert (fresh_id (User.id <$> users db) = Z.of_nat (length (users db)) + 1) as Hfresh
    by (rewrite Hu; apply fresh_id_seq).
  split.
  - unfold create_user, transaction, insert_user. by rewrite Hfresh.
  - apply (s_get_app_fresh User.id (users db) (User.mk _ name)).
    intros r Hr. simpl. rewrite <- Hfresh. intros Heq.
    apply (fresh_id_not_in (User.id <$> users db)). rewrite <- Heq.
    apply list_elem_of_fmap. by exists r.
Qed.

(** X3 in the state with users 1 and 2 and game 1 started. *)
Lemma ids_sequential_witness :
  (User.id <$> users db_started = Z.of_nat <$> seq 1 (length (users db_started)) ∧
   Game.id <$> games db_started = Z.of_nat <$> seq 1 (length (games db_started)) ∧
   Player.id <$> players db_started = Z.of_nat <$> seq 1 (length (players db_started)) ∧
   Move.id <$> moves db_started = Z.of_nat <$> seq 1 (length (moves db_started))) ∧
  (∀ name,
     let i := Z.of_nat (length (users db_started)) + 1 in
     create_user name db_started
     = (inr i, mkDB (users db_started ++ [User.mk i name]) (games db_started)
                 (players db_started) (moves db_started)) ∧
     s_get User.id (users db_started ++ [User.mk i name]) i = Some (User.mk i name)).
Proof. exact (ids_sequential 0 db_started (reachable_run 0 _)). Defined.
